(** * Incremental revision synchronisation of wiki-scripts

    A shallow embedding of [ws/db/grabbers/revision.py] (class
    [GrabberRevisions]) and the properties its specification states.

    The grabber is a Python generator of storage operations: pairs of a
    prepared statement of the table [self.sql] and a dictionary of bound
    parameters.  It is embedded as a writer/state/error monad [Gen]:
    the writer collects the operations yielded so far, the state is the
    text-ID generator object [self.text_id_gen], and an exception ends the
    run while keeping the operations that were already yielded. *)

From Stdlib Require Import ZArith Lia.
From stdpp Require Import base option list gmap sets strings.

(* stdpp's set_solver clears hypotheses that are sometimes absent *)
#[local] Set Warnings "-clear-no-such-hyp".

Local Open Scope Z_scope.

(** * The model *)

(** ** Python dictionaries

    A [dict] keeps its keys in insertion order and the grabber iterates over
    [items()], so the order is part of the behaviour: an association list.
    Assigning to a present key keeps its position, assigning to an absent key
    appends, [del] removes the key. *)
Module Py.
Section dict.
Context {K V : Type} `{EqDecision K}.

Fixpoint dict_get (k : K) (d : list (K * V)) : option V :=
  match d with
  | [] => None
  | (k', v) :: d' => if decide (k = k') then Some v else dict_get k d'
  end.

Fixpoint dict_set (k : K) (v : V) (d : list (K * V)) : list (K * V) :=
  match d with
  | [] => [(k, v)]
  | (k', v') :: d' =>
      if decide (k = k') then (k, v) :: d' else (k', v') :: dict_set k v d'
  end.

Fixpoint dict_del (k : K) (d : list (K * V)) : list (K * V) :=
  match d with
  | [] => []
  | (k', v') :: d' =>
      if decide (k = k') then dict_del k d' else (k', v') :: dict_del k d'
  end.

Definition dict_in (k : K) (d : list (K * V)) : bool :=
  bool_decide (is_Some (dict_get k d)).
End dict.
End Py.
Import Py.

(** ** Objects of the remote API

    Timestamps are kept abstract as integers ordered like the wiki's
    timestamps.  A revision object is a dictionary.  The keys "revid",
    "timestamp", "size" and "contentmodel" come with every revision of the
    properties the grabber asks for.  The keys "comment", "userid", "user",
    "sha1" and "*" are left out by the API when the field is suppressed
    (a hidden comment, user, hash or text): they are optional here, and
    reading a missing one with [rev[...]] raises [KeyError].  Keys read
    with [rev.get(...)] are optional as well. *)
Record revision := {
  rv_revid : Z;
  rv_comment : option string;            (* rev["comment"] *)
  rv_userid : option Z;                  (* rev["userid"] *)
  rv_user : option string;               (* rev["user"] *)
  rv_timestamp : Z;
  rv_minor : bool;                       (* "minor" in rev *)
  rv_size : Z;
  rv_parentid : option Z;                (* rev.get("parentid") *)
  rv_sha1 : option string;               (* rev["sha1"] *)
  rv_contentmodel : string;
  rv_contentformat : option string;      (* rev.get("contentformat") *)
  rv_tags : option (list string);        (* rev.get("tags", []) *)
  rv_content : option string;            (* rev["*"] *)
}.

(** A page object as [gen_revisions] and [gen_deletedrevisions] read it. *)
Record page := {
  pg_title : string;
  pg_ns : Z;
  pg_pageid : option Z;                  (* page.get("pageid") *)
  pg_revisions : list revision;
}.

(** A page object of a [call_api] result, where both revision lists are
    optional keys. *)
Record qpage := {
  qp_title : string;
  qp_ns : Z;
  qp_pageid : option Z;
  qp_revisions : option (list revision);
  qp_deletedrevisions : option (list revision);
}.

(** [page["revisions"] = page.pop("deletedrevisions")] *)
Definition pop_deletedrevisions (p : qpage) (drv : list revision) : page :=
  {| pg_title := qp_title p; pg_ns := qp_ns p; pg_pageid := qp_pageid p;
     pg_revisions := drv |}.

Definition with_revisions (p : qpage) (rvs : list revision) : page :=
  {| pg_title := qp_title p; pg_ns := qp_ns p; pg_pageid := qp_pageid p;
     pg_revisions := rvs |}.

(** The result of [api.call_api(params, expand_result=False)], the
    response as the API sent it: whether "drvcontinue" and "rvcontinue" are
    among its top-level keys, which is what the grabber tests; the keys of
    the object under its key "continue", where a response that was cut short
    carries the tokens to resume it ([[]] for a response without that key),
    which the grabber does not read; and
    [result["query"]["pages"].values()]. *)
Record api_result := {
  has_drvcontinue : bool;                (* "drvcontinue" in result *)
  has_rvcontinue : bool;                 (* "rvcontinue" in result *)
  continue_keys : list string;           (* result["continue"].keys() *)
  query_pages : list qpage;
}.

(** The queries the grabber sends.  [content] tells whether the property
    list ends in ["|content"]. *)
Inductive list_params :=
  | Allrevisions (content : bool) (arvdir_newer_arvstart : option Z)
  | Alldeletedrevisions (content : bool).

Inductive call_params :=
  | QueryDeletedrevisions (titles : list string) (content : bool) (drvstart : Z)
  | QueryImported (pageids : list Z) (content : bool).

(** The parsed title object [Title(api, title)]. *)
Record title := {
  namespacenumber : Z;
  dbtitle : Z → string;
}.

(** ** Log events

    One constructor per branch of the [if]/[elif] chain over [le["type"]]
    and [le["action"]] in [gen_update]; each carries the keys that branch
    reads. *)
Inductive logevent :=
  | LeDelete (le_title : string)
  | LeRestore (le_title : string) (le_logpage : Z)
  | LeDeleteRevision (params_type : string) (ids : list Z) (new_bitmask : Z)
  | LeDeleteOther                         (* type "delete", another action *)
  | LeImport (le_logpage : Z)
  | LeMerge (le_logpage : Z) (dest_ns : Z) (dest_title : string) (mergepoint : Z)
  | LeMove (le_logpage : Z)
  | LeTagUpdate (revid : option Z) (tagsAdded tagsRemoved : list string)
  | LeOther.

(** ** Storage operations

    The dictionaries of bound values, one record per shape. *)
Record text_entry := {
  old_id : Z;
  old_text : string;
  old_flags : string;
}.

Record revision_entry := {
  rev_id : Z;
  rev_page : option Z;
  rev_comment : string;
  rev_user : Z;
  rev_user_text : string;
  rev_timestamp : Z;
  rev_minor_edit : bool;
  rev_len : Z;
  rev_parent_id : option Z;
  rev_sha1 : string;
  rev_content_model : string;
  rev_content_format : option string;
  rev_text_id : option Z;                (* key present iff with_content *)
}.

Record archive_entry := {
  ar_namespace : Z;
  ar_title : string;
  ar_rev_id : Z;
  ar_page_id : option Z;
  ar_comment : string;
  ar_user : Z;
  ar_user_text : string;
  ar_timestamp : Z;
  ar_minor_edit : bool;
  ar_len : Z;
  ar_sha1 : string;
  ar_content_model : string;
  ar_content_format : option string;
  ar_text_id : option Z;                 (* key present iff with_content *)
}.

(** A yielded pair [(self.sql[key], values)]; the constructor names the key
    of [self.sql], its arguments are the bound values. *)
Inductive op :=
  | InsertText (e : text_entry)
  | InsertRevision (e : revision_entry)
  | InsertArchive (e : archive_entry)
  | InsertTaggedRevision (b_rev_id : Z) (b_tag_name : string)
  | InsertTaggedArchivedRevision (b_rev_id : Z) (b_tag_name : string)
  | DeleteTaggedRevision (b_rev_id : Z) (b_tag_name : string)
  | DeleteTaggedArchivedRevision (b_rev_id : Z) (b_tag_name : string)
  | UpdateArchiveArPageId (b_namespace : Z) (b_title : list string) (new_ar_page_id : Z)
  | MergeRevision (b_src_page_id : Z) (b_dest_ns : Z) (b_dest_title : string)
                  (b_mergepoint : Z)
  | UpdateRevDeleted (b_revid : Z) (new_rev_deleted : Z)
  | UpdateArDeleted (b_revid : Z) (new_ar_deleted : Z)
  | MoveTaggedArchivedRevision (b_page_id : Z)
  | MoveRevision (b_page_id : Z).

Inductive error :=
  | NotImplementedError (msg : string)
  | AssertionError
  | KeyError (key : string).

(** ** The grabber object

    [self] with its collaborators: the API client, the log-event selector,
    the title parser, the helpers of [ws.utils] and the two queries the
    grabber runs against the database while it generates. *)
Record Grabber := {
  with_content : bool;
  api_list : list_params → list page;
  api_call_api : call_params → api_result;
  api_max_ids_per_query : nat;
  logevents_list : Z → list logevent;
  Title : string → title;
  value_or_none : option Z → option Z;
  iter_chunks : ∀ A : Type, list A → nat → list (list A);
  (* SELECT max(text.old_id), [None] on an empty relation *)
  db_max_old_id : option Z;
  (* SELECT EXISTS (... WHERE revision.rev_id = revid) *)
  db_revision_exists : Z → bool;
}.

(** ** The generator monad *)

(** The generator object of [_get_text_id_gen]: its body has not run before
    the first [next], afterwards it is suspended at [yield value]. *)
Inductive text_id_gen :=
  | NotStarted
  | Suspended (value : Z).

Definition Gen (A : Type) : Type :=
  text_id_gen → list op * (error + A * text_id_gen).

Definition ret {A} (a : A) : Gen A := λ s, ([], inr (a, s)).

Definition bind {A B} (m : Gen A) (k : A → Gen B) : Gen B := λ s,
  match m s with
  | (o, inl e) => (o, inl e)
  | (o, inr (a, s')) => let '(o', r) := k a s' in (o ++ o', r)
  end.

Definition yield (o : op) : Gen unit := λ s, ([o], inr (tt, s)).

Definition raise {A} (e : error) : Gen A := λ s, ([], inl e).

Notation "x <- m ;; k" := (bind m (λ x, k))
  (at level 100, m at next level, right associativity, only parsing).
Notation "m ;;; k" := (bind m (λ _, k))
  (at level 100, right associativity, only parsing).

(** [for x in l: body] *)
Fixpoint for_each {A} (l : list A) (body : A → Gen unit) : Gen unit :=
  match l with
  | [] => ret tt
  | x :: l' => body x ;;; for_each l' body
  end.

(** A [for] loop that updates a local variable. *)
Fixpoint for_fold {A S} (l : list A) (body : S → A → Gen S) (s0 : S) : Gen S :=
  match l with
  | [] => ret s0
  | x :: l' => s1 <- body s0 x ;; for_fold l' body s1
  end.

(** The operations a computation yields and how it ends, started with a
    generator in state [s]. *)
Definition emitted {A} (m : Gen A) (s : text_id_gen) : list op := (m s).1.
Definition outcome {A} (m : Gen A) (s : text_id_gen) : error + A * text_id_gen :=
  (m s).2.

(** ** The text-ID generator *)

(** [self.text_id_gen = self._get_text_id_gen()] *)
Definition _get_text_id_gen : Gen unit := λ _, ([], inr (tt, NotStarted)).

(** [next(self.text_id_gen)] *)
Definition next_text_id (g : Grabber) : Gen Z := λ s,
  let value :=
    match s with
    | NotStarted => default 0 (db_max_old_id g)
    | Suspended value => value
    end in
  ([], inr (value + 1, Suspended (value + 1))).

(** ** Generators of insert operations *)

(** [d[key]] on a dictionary whose key may be missing. *)
Definition getitem {A} (key : string) (value : option A) : Gen A :=
  match value with
  | Some a => ret a
  | None => raise (KeyError key)
  end.

Definition gen_text (rev : revision) (text_id : Z) : Gen unit :=
  old_text <- getitem "*" (rv_content rev) ;;
  yield (InsertText {| old_id := text_id;
                       old_text := old_text;
                       old_flags := "utf-8" |}).

(** [if self.with_content is True: ...] of both revision generators; the
    result is the value stored under the text-ID key, if any. *)
Definition gen_content (g : Grabber) (rev : revision) : Gen (option Z) :=
  if with_content g then
    text_id <- next_text_id g ;;
    gen_text rev text_id ;;;
    ret (Some text_id)
  else ret None.

(** The body of [for rev in page["revisions"]] in [gen_revisions].  The
    dictionary [db_entry] is built key by key, in the order of its display,
    before the text ID is taken: the first missing key of the revision
    object ends the generator with [KeyError]. *)
Definition gen_revisions_body (g : Grabber) (page : page) (rev : revision) :
    Gen unit :=
  comment <- getitem "comment" (rv_comment rev) ;;
  userid <- getitem "userid" (rv_userid rev) ;;
  user <- getitem "user" (rv_user rev) ;;
  sha1 <- getitem "sha1" (rv_sha1 rev) ;;
  text_id <- gen_content g rev ;;
  yield (InsertRevision {|
    rev_id := rv_revid rev;
    rev_page := value_or_none g (pg_pageid page);
    rev_comment := comment;
    rev_user := userid;
    rev_user_text := user;
    rev_timestamp := rv_timestamp rev;
    rev_minor_edit := rv_minor rev;
    rev_len := rv_size rev;
    rev_parent_id := rv_parentid rev;
    rev_sha1 := sha1;
    rev_content_model := rv_contentmodel rev;
    rev_content_format := rv_contentformat rev;
    rev_text_id := text_id |}) ;;;
  for_each (default [] (rv_tags rev)) (λ tag_name,
    yield (InsertTaggedRevision (rv_revid rev) tag_name)).

Definition gen_revisions (g : Grabber) (page : page) : Gen unit :=
  for_each (pg_revisions page) (gen_revisions_body g page).

(** The body of [for rev in page["revisions"]] in [gen_deletedrevisions];
    [title] is the parsed title of the page. *)
Definition gen_deletedrevisions_body (g : Grabber) (page : page)
    (rev : revision) : Gen unit :=
  let title := Title g (pg_title page) in
  comment <- getitem "comment" (rv_comment rev) ;;
  userid <- getitem "userid" (rv_userid rev) ;;
  user <- getitem "user" (rv_user rev) ;;
  sha1 <- getitem "sha1" (rv_sha1 rev) ;;
  text_id <- gen_content g rev ;;
  yield (InsertArchive {|
    ar_namespace := pg_ns page;
    ar_title := dbtitle title (pg_ns page);
    ar_rev_id := rv_revid rev;
    ar_page_id := None;
    ar_comment := comment;
    ar_user := userid;
    ar_user_text := user;
    ar_timestamp := rv_timestamp rev;
    ar_minor_edit := rv_minor rev;
    ar_len := rv_size rev;
    ar_sha1 := sha1;
    ar_content_model := rv_contentmodel rev;
    ar_content_format := rv_contentformat rev;
    ar_text_id := text_id |}) ;;;
  for_each (default [] (rv_tags rev)) (λ tag_name,
    yield (InsertTaggedArchivedRevision (rv_revid rev) tag_name)).

Definition gen_deletedrevisions (g : Grabber) (page : page) : Gen unit :=
  for_each (pg_revisions page) (gen_deletedrevisions_body g page).

Definition gen_insert (g : Grabber) : Gen unit :=
  _get_text_id_gen ;;;
  for_each (api_list g (Allrevisions (with_content g) None))
           (gen_revisions g) ;;;
  for_each (api_list g (Alldeletedrevisions (with_content g)))
           (gen_deletedrevisions g).

(** ** The incremental update: collecting the log events *)

Record merge_params := {
  dest_ns : Z;
  dest_title : string;
  mergepoint : Z;
}.

(** The local variables of [gen_update] that the loop over the log events
    fills. *)
Record log_state := {
  deleted_pages : gset string;
  undeleted_pages : list (string * Z);
  merged_pages : list (Z * merge_params);
  moved_pages : gset Z;
  deleted_revisions : list (Z * Z);
  added_tags : list (Z * gset string);
  removed_tags : list (Z * gset string);
  imported_pages : gset Z;
}.

Definition init_log_state : log_state :=
  {| deleted_pages := ∅; undeleted_pages := []; merged_pages := [];
     moved_pages := ∅; deleted_revisions := []; added_tags := [];
     removed_tags := []; imported_pages := ∅ |}.

Definition set_deleted_undeleted (dp : gset string) (up : list (string * Z))
    (st : log_state) : log_state :=
  {| deleted_pages := dp; undeleted_pages := up;
     merged_pages := merged_pages st; moved_pages := moved_pages st;
     deleted_revisions := deleted_revisions st; added_tags := added_tags st;
     removed_tags := removed_tags st; imported_pages := imported_pages st |}.

Definition set_merged_pages (mp : list (Z * merge_params)) (st : log_state) :=
  {| deleted_pages := deleted_pages st; undeleted_pages := undeleted_pages st;
     merged_pages := mp; moved_pages := moved_pages st;
     deleted_revisions := deleted_revisions st; added_tags := added_tags st;
     removed_tags := removed_tags st; imported_pages := imported_pages st |}.

Definition set_moved_pages (mv : gset Z) (st : log_state) :=
  {| deleted_pages := deleted_pages st; undeleted_pages := undeleted_pages st;
     merged_pages := merged_pages st; moved_pages := mv;
     deleted_revisions := deleted_revisions st; added_tags := added_tags st;
     removed_tags := removed_tags st; imported_pages := imported_pages st |}.

Definition set_deleted_revisions (dr : list (Z * Z)) (st : log_state) :=
  {| deleted_pages := deleted_pages st; undeleted_pages := undeleted_pages st;
     merged_pages := merged_pages st; moved_pages := moved_pages st;
     deleted_revisions := dr; added_tags := added_tags st;
     removed_tags := removed_tags st; imported_pages := imported_pages st |}.

Definition set_tags (a r : list (Z * gset string)) (st : log_state) :=
  {| deleted_pages := deleted_pages st; undeleted_pages := undeleted_pages st;
     merged_pages := merged_pages st; moved_pages := moved_pages st;
     deleted_revisions := deleted_revisions st; added_tags := a;
     removed_tags := r; imported_pages := imported_pages st |}.

Definition set_imported_pages (ip : gset Z) (st : log_state) :=
  {| deleted_pages := deleted_pages st; undeleted_pages := undeleted_pages st;
     merged_pages := merged_pages st; moved_pages := moved_pages st;
     deleted_revisions := deleted_revisions st; added_tags := added_tags st;
     removed_tags := removed_tags st; imported_pages := ip |}.

(** [d.get(revid, set())] *)
Definition tags_get (d : list (Z * gset string)) (revid : Z) : gset string :=
  default ∅ (dict_get revid d).

(** [d.setdefault(revid, set())] *)
Definition tags_setdefault (revid : Z) (d : list (Z * gset string)) :
    list (Z * gset string) :=
  match dict_get revid d with
  | Some _ => d
  | None => dict_set revid ∅ d
  end.

(** Body of [for _tag in _added]; the state is the pair
    [(added_tags, removed_tags)]. *)
Definition tag_added (_revid : Z)
    (ar : list (Z * gset string) * list (Z * gset string)) (_tag : string) :=
  let '(added_tags, removed_tags) := ar in
  if bool_decide (_tag ∈ tags_get removed_tags _revid) then
    (added_tags,
     dict_set _revid (tags_get removed_tags _revid ∖ {[_tag]}) removed_tags)
  else
    let added_tags := tags_setdefault _revid added_tags in
    (dict_set _revid (tags_get added_tags _revid ∪ {[_tag]}) added_tags,
     removed_tags).

(** Body of [for _tag in _removed]. *)
Definition tag_removed (_revid : Z)
    (ar : list (Z * gset string) * list (Z * gset string)) (_tag : string) :=
  let '(added_tags, removed_tags) := ar in
  if bool_decide (_tag ∈ tags_get added_tags _revid) then
    (dict_set _revid (tags_get added_tags _revid ∖ {[_tag]}) added_tags,
     removed_tags)
  else
    let removed_tags := tags_setdefault _revid removed_tags in
    (added_tags,
     dict_set _revid (tags_get removed_tags _revid ∪ {[_tag]}) removed_tags).

(** Body of [for le in logevents.list(...)].  A Python [set] is iterated in
    an order the language does not fix; [elements] fixes one. *)
Definition process_le (new_revids new_deleted_revids : gset Z)
    (st : log_state) (le : logevent) : error + log_state :=
  match le with
  | LeDelete le_title =>
      inr (set_deleted_undeleted
             (deleted_pages st ∪ {[le_title]})
             (if dict_in le_title (undeleted_pages st)
              then dict_del le_title (undeleted_pages st)
              else undeleted_pages st) st)
  | LeRestore le_title le_logpage =>
      inr (set_deleted_undeleted
             (if bool_decide (le_title ∈ deleted_pages st)
              then deleted_pages st ∖ {[le_title]}
              else deleted_pages st)
             (dict_set le_title le_logpage (undeleted_pages st)) st)
  | LeDeleteRevision params_type ids new_bitmask =>
      if bool_decide (params_type = "revision") then
        inr (set_deleted_revisions
               (foldl (λ dr revid, dict_set revid new_bitmask dr)
                      (deleted_revisions st) ids) st)
      else inl AssertionError
  | LeDeleteOther => inr st
  | LeImport le_logpage =>
      inr (set_imported_pages (imported_pages st ∪ {[le_logpage]}) st)
  | LeMerge le_logpage dns dtitle mp =>
      inr (set_merged_pages
             (dict_set le_logpage
                {| dest_ns := dns; dest_title := dtitle; mergepoint := mp |}
                (merged_pages st)) st)
  | LeMove le_logpage =>
      inr (set_moved_pages (moved_pages st ∪ {[le_logpage]}) st)
  | LeTagUpdate None _ _ => inr st
  | LeTagUpdate (Some _revid) tagsAdded tagsRemoved =>
      if bool_decide ((_revid ∉ new_revids) ∧ (_revid ∉ new_deleted_revids)) then
        let _added : gset string := list_to_set tagsAdded in
        let _removed : gset string := list_to_set tagsRemoved in
        if bool_decide (_added ∩ _removed = ∅) then
          let ar := foldl (tag_added _revid)
                          (added_tags st, removed_tags st) (elements _added) in
          let ar := foldl (tag_removed _revid) ar (elements _removed) in
          inr (set_tags ar.1 ar.2 st)
        else inl AssertionError
      else inr st
  | LeOther => inr st
  end.

Fixpoint process_log (new_revids new_deleted_revids : gset Z)
    (les : list logevent) (st : log_state) : error + log_state :=
  match les with
  | [] => inr st
  | le :: les' =>
      match process_le new_revids new_deleted_revids st le with
      | inl e => inl e
      | inr st' => process_log new_revids new_deleted_revids les' st'
      end
  end.

Definition lift {A} (r : error + A) : Gen A :=
  match r with
  | inl e => raise e
  | inr a => ret a
  end.

(** ** The incremental update: generating the operations *)

(** [for rev in page["revisions"]: new_revids.add(rev["revid"])] *)
Definition add_revids (new_revids : gset Z) (revs : list revision) : gset Z :=
  foldl (λ s rev, s ∪ {[rv_revid rev]}) new_revids revs.

(** New live revisions since the last sync. *)
Definition gen_new_revisions (g : Grabber) (since : Z) : Gen (gset Z) :=
  for_fold (api_list g (Allrevisions (with_content g) (Some since)))
    (λ new_revids page,
       gen_revisions g page ;;;
       ret (add_revids new_revids (pg_revisions page)))
    ∅.

(** "handle undelete": three operations per restored title. *)
Definition gen_undelete (g : Grabber) (undeleted_pages : list (string * Z)) :
    Gen unit :=
  for_each undeleted_pages (λ '(_title, pageid),
    let title := Title g _title in
    let ns := namespacenumber title in
    (* [dbtitle = title.dbtitle(ns),] with its trailing comma: a 1-tuple *)
    let dbtitle := [dbtitle title ns] in
    yield (UpdateArchiveArPageId ns dbtitle pageid) ;;;
    yield (MoveTaggedArchivedRevision pageid) ;;;
    yield (MoveRevision pageid)).

Definition NotImplemented_drvcontinue : error :=
  NotImplementedError
    "Handling of the 'drvcontinue' parameter is not implemented.".

Definition NotImplemented_rvcontinue : error :=
  NotImplementedError
    "Handling of the 'rvcontinue' and 'drvcontinue' parameters is not implemented.".

Definition NotImplemented_merge : error :=
  NotImplementedError
    "Cannot merge revisions from [[{}]] to [[{}]]: target page has been moved.".

(** [if "deletedrevisions" in page: ...] of both chunk loops. *)
Definition gen_page_deletedrevisions (g : Grabber) (new_revids : gset Z)
    (p : qpage) : Gen (gset Z) :=
  match qp_deletedrevisions p with
  | Some drv =>
      let page := pop_deletedrevisions p drv in
      gen_deletedrevisions g page ;;;
      ret (add_revids new_revids (pg_revisions page))
  | None => ret new_revids
  end.

(** Body of the loop over the chunks of deleted titles: one query, the
    check of its continuation key, then its pages. *)
Definition gen_new_deleted_chunk (g : Grabber) (since : Z)
    (new_revids : gset Z) (chunk : list string) : Gen (gset Z) :=
  let result :=
    api_call_api g (QueryDeletedrevisions chunk (with_content g) since) in
  if has_drvcontinue result then raise NotImplemented_drvcontinue
  else for_fold (query_pages result) (gen_page_deletedrevisions g) new_revids.

(** Deleted revisions of the pages deleted in the window. *)
Definition gen_new_deleted (g : Grabber) (since : Z)
    (deleted_pages : gset string) (new_revids : gset Z) : Gen (gset Z) :=
  for_fold (iter_chunks g _ (elements deleted_pages) (api_max_ids_per_query g))
    (gen_new_deleted_chunk g since) new_revids.

(** [if "revisions" in page: ...] of the loop over imported pages. *)
Definition gen_page_revisions (g : Grabber) (new_revids : gset Z)
    (p : qpage) : Gen (gset Z) :=
  match qp_revisions p with
  | Some rvs =>
      let page := with_revisions p rvs in
      gen_revisions g page ;;;
      ret (add_revids new_revids (pg_revisions page))
  | None => ret new_revids
  end.

(** Body of the loop over the chunks of imported page ids. *)
Definition gen_imported_chunk (g : Grabber) (new_revids : gset Z)
    (chunk : list Z) : Gen (gset Z) :=
  let result := api_call_api g (QueryImported chunk (with_content g)) in
  if (has_rvcontinue result || has_drvcontinue result)%bool
  then raise NotImplemented_rvcontinue
  else for_fold (query_pages result)
         (λ new_revids p,
            new_revids <- gen_page_revisions g new_revids p ;;
            gen_page_deletedrevisions g new_revids p)
         new_revids.

(** All revisions of the pages imported in the window. *)
Definition gen_imported (g : Grabber) (imported_pages : gset Z)
    (new_revids : gset Z) : Gen (gset Z) :=
  for_fold (iter_chunks g _ (elements imported_pages) (api_max_ids_per_query g))
    (gen_imported_chunk g) new_revids.

(** "handle merge" *)
Definition gen_merge (merged_pages : list (Z * merge_params))
    (moved_pages : gset Z) : Gen unit :=
  for_each merged_pages (λ '(pageid, params),
    if bool_decide (pageid ∈ moved_pages) then raise NotImplemented_merge
    else yield (MergeRevision pageid (dest_ns params) (dest_title params)
                              (mergepoint params))).

(** "update rev_deleted and ar_deleted" *)
Definition gen_deleted (deleted_revisions : list (Z * Z)) : Gen unit :=
  for_each deleted_revisions (λ '(revid, bitmask),
    yield (UpdateRevDeleted revid bitmask) ;;;
    yield (UpdateArDeleted revid bitmask)).

(** "update tags" *)
Definition gen_added_tags (g : Grabber) (added_tags : list (Z * gset string)) :
    Gen unit :=
  for_each added_tags (λ '(revid, added),
    for_each (elements added) (λ tag,
      if db_revision_exists g revid
      then yield (InsertTaggedRevision revid tag)
      else yield (InsertTaggedArchivedRevision revid tag))).

Definition gen_removed_tags (removed_tags : list (Z * gset string)) : Gen unit :=
  for_each removed_tags (λ '(revid, removed),
    for_each (elements removed) (λ tag,
      yield (DeleteTaggedRevision revid tag) ;;;
      yield (DeleteTaggedArchivedRevision revid tag))).

(** The operations that follow the loop over the log events. *)
Definition gen_update_from_log (g : Grabber) (since : Z) (new_revids : gset Z)
    (st : log_state) : Gen unit :=
  gen_undelete g (undeleted_pages st) ;;;
  new_revids <- gen_new_deleted g since (deleted_pages st) new_revids ;;
  new_revids <- gen_imported g (imported_pages st) new_revids ;;
  gen_merge (merged_pages st) (moved_pages st) ;;;
  gen_deleted (deleted_revisions st) ;;;
  gen_added_tags g (added_tags st) ;;;
  gen_removed_tags (removed_tags st).

Definition gen_update (g : Grabber) (since : Z) : Gen unit :=
  _get_text_id_gen ;;;
  new_revids <- gen_new_revisions g since ;;
  let new_deleted_revids : gset Z := ∅ in
  st <- lift (process_log new_revids new_deleted_revids
                          (logevents_list g since) init_log_state) ;;
  gen_update_from_log g since new_revids st.

(** ** The replica and the statements of [self.sql]

    The relations the statements of [__init__] read and write.  The schema
    itself ([ws.db.schema]) is not part of the sources at hand; the columns
    are those the statements name.  A relation with a key the statements
    conflict on is a finite map from that key: [revision] from [rev_id]
    (its primary key), [archive] from [ar_rev_id] (the index the upsert
    names), [text] from [old_id].  The tag links are sets of pairs
    (revision, tag id); [tag] and [page] are only read. *)
Record text_row := {
  col_old_text : string;
  col_old_flags : string;
}.

Record revision_row := {
  col_rev_page : option Z;
  col_rev_text_id : option Z;
  col_rev_comment : string;
  col_rev_user : Z;
  col_rev_user_text : string;
  col_rev_timestamp : Z;
  col_rev_minor_edit : bool;
  col_rev_deleted : Z;
  col_rev_len : Z;
  col_rev_parent_id : option Z;
  col_rev_sha1 : string;
  col_rev_content_model : string;
  col_rev_content_format : option string;
}.

Record archive_row := {
  col_ar_namespace : Z;
  col_ar_title : string;
  col_ar_page_id : option Z;
  col_ar_text_id : option Z;
  col_ar_comment : string;
  col_ar_user : Z;
  col_ar_user_text : string;
  col_ar_timestamp : Z;
  col_ar_minor_edit : bool;
  col_ar_deleted : Z;
  col_ar_len : Z;
  col_ar_parent_id : option Z;
  col_ar_sha1 : string;
  col_ar_content_model : string;
  col_ar_content_format : option string;
}.

Record db := {
  db_text : gmap Z text_row;
  db_revision : gmap Z revision_row;
  db_archive : gmap Z archive_row;
  db_tagged_revision : gset (Z * Z);
  db_tagged_archived_revision : gset (Z * Z);
  db_tag : gmap string Z;                 (* tag_name ↦ tag_id *)
  db_page : gmap (Z * string) Z;          (* (page_namespace, page_title) ↦ page_id *)
}.

#[global] Instance text_row_eq_dec : EqDecision text_row.
Proof. solve_decision. Defined.
#[global] Instance revision_row_eq_dec : EqDecision revision_row.
Proof. solve_decision. Defined.
#[global] Instance archive_row_eq_dec : EqDecision archive_row.
Proof. solve_decision. Defined.

(** Modelled from the spec: the column default of the deletion bitmask, which
    the insert statements leave to the schema (not among the sources); the
    specification reads the bitmask 0 as "visible". *)
Definition deleted_default : Z := 0.

Definition set_rev_text_id (v : option Z) (r : revision_row) : revision_row :=
  {| col_rev_page := col_rev_page r; col_rev_text_id := v;
     col_rev_comment := col_rev_comment r; col_rev_user := col_rev_user r;
     col_rev_user_text := col_rev_user_text r;
     col_rev_timestamp := col_rev_timestamp r;
     col_rev_minor_edit := col_rev_minor_edit r;
     col_rev_deleted := col_rev_deleted r; col_rev_len := col_rev_len r;
     col_rev_parent_id := col_rev_parent_id r; col_rev_sha1 := col_rev_sha1 r;
     col_rev_content_model := col_rev_content_model r;
     col_rev_content_format := col_rev_content_format r |}.

Definition set_rev_page (v : option Z) (r : revision_row) : revision_row :=
  {| col_rev_page := v; col_rev_text_id := col_rev_text_id r;
     col_rev_comment := col_rev_comment r; col_rev_user := col_rev_user r;
     col_rev_user_text := col_rev_user_text r;
     col_rev_timestamp := col_rev_timestamp r;
     col_rev_minor_edit := col_rev_minor_edit r;
     col_rev_deleted := col_rev_deleted r; col_rev_len := col_rev_len r;
     col_rev_parent_id := col_rev_parent_id r; col_rev_sha1 := col_rev_sha1 r;
     col_rev_content_model := col_rev_content_model r;
     col_rev_content_format := col_rev_content_format r |}.

Definition set_rev_deleted (v : Z) (r : revision_row) : revision_row :=
  {| col_rev_page := col_rev_page r; col_rev_text_id := col_rev_text_id r;
     col_rev_comment := col_rev_comment r; col_rev_user := col_rev_user r;
     col_rev_user_text := col_rev_user_text r;
     col_rev_timestamp := col_rev_timestamp r;
     col_rev_minor_edit := col_rev_minor_edit r;
     col_rev_deleted := v; col_rev_len := col_rev_len r;
     col_rev_parent_id := col_rev_parent_id r; col_rev_sha1 := col_rev_sha1 r;
     col_rev_content_model := col_rev_content_model r;
     col_rev_content_format := col_rev_content_format r |}.

Definition set_ar_text_id (v : option Z) (r : archive_row) : archive_row :=
  {| col_ar_namespace := col_ar_namespace r; col_ar_title := col_ar_title r;
     col_ar_page_id := col_ar_page_id r; col_ar_text_id := v;
     col_ar_comment := col_ar_comment r; col_ar_user := col_ar_user r;
     col_ar_user_text := col_ar_user_text r;
     col_ar_timestamp := col_ar_timestamp r;
     col_ar_minor_edit := col_ar_minor_edit r;
     col_ar_deleted := col_ar_deleted r; col_ar_len := col_ar_len r;
     col_ar_parent_id := col_ar_parent_id r; col_ar_sha1 := col_ar_sha1 r;
     col_ar_content_model := col_ar_content_model r;
     col_ar_content_format := col_ar_content_format r |}.

Definition set_ar_page_id (v : option Z) (r : archive_row) : archive_row :=
  {| col_ar_namespace := col_ar_namespace r; col_ar_title := col_ar_title r;
     col_ar_page_id := v; col_ar_text_id := col_ar_text_id r;
     col_ar_comment := col_ar_comment r; col_ar_user := col_ar_user r;
     col_ar_user_text := col_ar_user_text r;
     col_ar_timestamp := col_ar_timestamp r;
     col_ar_minor_edit := col_ar_minor_edit r;
     col_ar_deleted := col_ar_deleted r; col_ar_len := col_ar_len r;
     col_ar_parent_id := col_ar_parent_id r; col_ar_sha1 := col_ar_sha1 r;
     col_ar_content_model := col_ar_content_model r;
     col_ar_content_format := col_ar_content_format r |}.

Definition set_ar_deleted (v : Z) (r : archive_row) : archive_row :=
  {| col_ar_namespace := col_ar_namespace r; col_ar_title := col_ar_title r;
     col_ar_page_id := col_ar_page_id r; col_ar_text_id := col_ar_text_id r;
     col_ar_comment := col_ar_comment r; col_ar_user := col_ar_user r;
     col_ar_user_text := col_ar_user_text r;
     col_ar_timestamp := col_ar_timestamp r;
     col_ar_minor_edit := col_ar_minor_edit r;
     col_ar_deleted := v; col_ar_len := col_ar_len r;
     col_ar_parent_id := col_ar_parent_id r; col_ar_sha1 := col_ar_sha1 r;
     col_ar_content_model := col_ar_content_model r;
     col_ar_content_format := col_ar_content_format r |}.

Definition with_text (t : gmap Z text_row) (d : db) : db :=
  {| db_text := t; db_revision := db_revision d; db_archive := db_archive d;
     db_tagged_revision := db_tagged_revision d;
     db_tagged_archived_revision := db_tagged_archived_revision d;
     db_tag := db_tag d; db_page := db_page d |}.

Definition with_revision (r : gmap Z revision_row) (d : db) : db :=
  {| db_text := db_text d; db_revision := r; db_archive := db_archive d;
     db_tagged_revision := db_tagged_revision d;
     db_tagged_archived_revision := db_tagged_archived_revision d;
     db_tag := db_tag d; db_page := db_page d |}.

Definition with_archive (a : gmap Z archive_row) (d : db) : db :=
  {| db_text := db_text d; db_revision := db_revision d; db_archive := a;
     db_tagged_revision := db_tagged_revision d;
     db_tagged_archived_revision := db_tagged_archived_revision d;
     db_tag := db_tag d; db_page := db_page d |}.

Definition with_tagged_revision (t : gset (Z * Z)) (d : db) : db :=
  {| db_text := db_text d; db_revision := db_revision d;
     db_archive := db_archive d; db_tagged_revision := t;
     db_tagged_archived_revision := db_tagged_archived_revision d;
     db_tag := db_tag d; db_page := db_page d |}.

Definition with_tagged_archived_revision (t : gset (Z * Z)) (d : db) : db :=
  {| db_text := db_text d; db_revision := db_revision d;
     db_archive := db_archive d; db_tagged_revision := db_tagged_revision d;
     db_tagged_archived_revision := t;
     db_tag := db_tag d; db_page := db_page d |}.

(** The row an insert of [e] proposes. *)
Definition revision_row_of (e : revision_entry) : revision_row :=
  {| col_rev_page := rev_page e; col_rev_text_id := rev_text_id e;
     col_rev_comment := rev_comment e; col_rev_user := rev_user e;
     col_rev_user_text := rev_user_text e;
     col_rev_timestamp := rev_timestamp e;
     col_rev_minor_edit := rev_minor_edit e;
     col_rev_deleted := deleted_default; col_rev_len := rev_len e;
     col_rev_parent_id := rev_parent_id e; col_rev_sha1 := rev_sha1 e;
     col_rev_content_model := rev_content_model e;
     col_rev_content_format := rev_content_format e |}.

Definition archive_row_of (e : archive_entry) : archive_row :=
  {| col_ar_namespace := ar_namespace e; col_ar_title := ar_title e;
     col_ar_page_id := ar_page_id e; col_ar_text_id := ar_text_id e;
     col_ar_comment := ar_comment e; col_ar_user := ar_user e;
     col_ar_user_text := ar_user_text e;
     col_ar_timestamp := ar_timestamp e;
     col_ar_minor_edit := ar_minor_edit e;
     col_ar_deleted := deleted_default; col_ar_len := ar_len e;
     col_ar_parent_id := None; col_ar_sha1 := ar_sha1 e;
     col_ar_content_model := ar_content_model e;
     col_ar_content_format := ar_content_format e |}.

(** The column list of the query "move data from the archive table into
    revision", read against the columns of [revision] in the same order. *)
Definition revision_of_archive (r : archive_row) : revision_row :=
  {| col_rev_page := col_ar_page_id r; col_rev_text_id := col_ar_text_id r;
     col_rev_comment := col_ar_comment r; col_rev_user := col_ar_user r;
     col_rev_user_text := col_ar_user_text r;
     col_rev_timestamp := col_ar_timestamp r;
     col_rev_minor_edit := col_ar_minor_edit r;
     col_rev_deleted := col_ar_deleted r; col_rev_len := col_ar_len r;
     col_rev_parent_id := col_ar_parent_id r; col_rev_sha1 := col_ar_sha1 r;
     col_rev_content_model := col_ar_content_model r;
     col_rev_content_format := col_ar_content_format r |}.

(** [archive.ar_title == bindparam("b_title")] with the 1-tuple that
    [gen_update] binds: the driver renders a tuple as a parenthesised list,
    so a 1-tuple compares as its element. *)
Definition title_matches (b_title : list string) (ar_title : string) : bool :=
  match b_title with
  | [t] => bool_decide (t = ar_title)
  | _ => false
  end.

(** ("insert", "revision"): ON CONFLICT on the primary key DO UPDATE SET
    rev_text_id = excluded.rev_text_id *)
Definition insert_revision (e : revision_entry) (d : db) : db :=
  match db_revision d !! rev_id e with
  | Some r =>
      with_revision
        (<[rev_id e := set_rev_text_id (rev_text_id e) r]> (db_revision d)) d
  | None =>
      with_revision (<[rev_id e := revision_row_of e]> (db_revision d)) d
  end.

(** ("insert", "archive"): ON CONFLICT (ar_rev_id) DO UPDATE SET
    ar_text_id = excluded.ar_text_id *)
Definition insert_archive (e : archive_entry) (d : db) : db :=
  match db_archive d !! ar_rev_id e with
  | Some r =>
      with_archive
        (<[ar_rev_id e := set_ar_text_id (ar_text_id e) r]> (db_archive d)) d
  | None =>
      with_archive (<[ar_rev_id e := archive_row_of e]> (db_archive d)) d
  end.

(** ("insert", "text"): ON CONFLICT on the primary key DO UPDATE SET
    old_text, old_flags from the proposed row *)
Definition insert_text (e : text_entry) (d : db) : db :=
  with_text
    (<[old_id e := {| col_old_text := old_text e;
                      col_old_flags := old_flags e |}]> (db_text d)) d.

(** The archived revisions of a page: SELECT ar_rev_id FROM archive WHERE
    ar_page_id = :b_page_id *)
Definition archived_of_page (b_page_id : Z) (d : db) : gmap Z archive_row :=
  filter (λ kr, col_ar_page_id kr.2 = Some b_page_id) (db_archive d).

(** Execution of one operation; [None] is a violated constraint (a
    duplicate key of a plain insert, a tag name without a tag id). *)
Definition execute (d : db) (o : op) : option db :=
  match o with
  | InsertText e => Some (insert_text e d)
  | InsertRevision e => Some (insert_revision e d)
  | InsertArchive e => Some (insert_archive e d)
  | InsertTaggedRevision b_rev_id b_tag_name =>
      tag_id ← db_tag d !! b_tag_name;
      Some (with_tagged_revision
              (db_tagged_revision d ∪ {[(b_rev_id, tag_id)]}) d)
  | InsertTaggedArchivedRevision b_rev_id b_tag_name =>
      tag_id ← db_tag d !! b_tag_name;
      Some (with_tagged_archived_revision
              (db_tagged_archived_revision d ∪ {[(b_rev_id, tag_id)]}) d)
  | DeleteTaggedRevision b_rev_id b_tag_name =>
      match db_tag d !! b_tag_name with
      | Some tag_id =>
          Some (with_tagged_revision
                  (db_tagged_revision d ∖ {[(b_rev_id, tag_id)]}) d)
      | None => Some d
      end
  | DeleteTaggedArchivedRevision b_rev_id b_tag_name =>
      match db_tag d !! b_tag_name with
      | Some tag_id =>
          Some (with_tagged_archived_revision
                  (db_tagged_archived_revision d ∖ {[(b_rev_id, tag_id)]}) d)
      | None => Some d
      end
  | UpdateArchiveArPageId b_namespace b_title new_ar_page_id =>
      Some (with_archive
              ((λ r, if bool_decide (col_ar_namespace r = b_namespace)
                        && title_matches b_title (col_ar_title r)
                     then set_ar_page_id (Some new_ar_page_id) r else r)
                 <$> db_archive d) d)
  | MergeRevision b_src_page_id b_dest_ns b_dest_title b_mergepoint =>
      let dest := db_page d !! (b_dest_ns, b_dest_title) in
      Some (with_revision
              ((λ r, if bool_decide (col_rev_page r = Some b_src_page_id)
                        && bool_decide (col_rev_timestamp r ≤ b_mergepoint)
                     then set_rev_page dest r else r)
                 <$> db_revision d) d)
  | UpdateRevDeleted b_revid new_rev_deleted =>
      Some (with_revision
              (alter (set_rev_deleted new_rev_deleted) b_revid (db_revision d)) d)
  | UpdateArDeleted b_revid new_ar_deleted =>
      Some (with_archive
              (alter (set_ar_deleted new_ar_deleted) b_revid (db_archive d)) d)
  | MoveTaggedArchivedRevision b_page_id =>
      let revs : gset Z := dom (archived_of_page b_page_id d) in
      let moved := filter (λ rt, rt.1 ∈ revs) (db_tagged_archived_revision d) in
      if bool_decide (moved ## db_tagged_revision d) then
        Some (with_tagged_revision (db_tagged_revision d ∪ moved)
                (with_tagged_archived_revision
                   (db_tagged_archived_revision d ∖ moved) d))
      else None
  | MoveRevision b_page_id =>
      let moved := archived_of_page b_page_id d in
      if bool_decide ((dom moved : gset Z) ## dom (db_revision d)) then
        Some (with_revision
                ((revision_of_archive <$> moved) ∪ db_revision d)
                (with_archive
                   (filter (λ kr, col_ar_page_id kr.2 ≠ Some b_page_id)
                           (db_archive d)) d))
      else None
  end.

(** Execution of a list of operations in order. *)
Fixpoint execute_all (d : db) (ops : list op) : option db :=
  match ops with
  | [] => Some d
  | o :: ops' => d' ← execute d o; execute_all d' ops'
  end.

(** * Notions the properties are stated with *)

(** The events on which neither [assert] of the loop can fail. *)
Definition le_ok (le : logevent) : Prop :=
  match le with
  | LeDeleteRevision params_type _ _ => params_type = "revision"
  | LeTagUpdate (Some _) tagsAdded tagsRemoved =>
      (list_to_set tagsAdded : gset string) ∩ list_to_set tagsRemoved = ∅
  | _ => True
  end.

Definition pages_disjoint (st : log_state) : Prop :=
  ∀ t, t ∈ deleted_pages st → dict_get t (undeleted_pages st) = None.

(** The events that delete or restore the title [P]. *)
Definition touches (P : string) (le : logevent) : Prop :=
  match le with
  | LeDelete t => t = P
  | LeRestore t _ => t = P
  | _ => False
  end.

Definition ended_restored (P : string) (pid : Z) (st : log_state) : Prop :=
  (P ∉ deleted_pages st) ∧ dict_get P (undeleted_pages st) = Some pid.

(** The operations of one restored title. *)
Definition undelete_ops (g : Grabber) (e : string * Z) : list op :=
  let title := Title g e.1 in
  let ns := namespacenumber title in
  [UpdateArchiveArPageId ns [dbtitle title ns] e.2;
   MoveTaggedArchivedRevision e.2;
   MoveRevision e.2].

Definition raises_only {A} (E : error → Prop) (m : Gen A) : Prop :=
  ∀ s o e, m s = (o, inl e) → E e.

Definition never : error → Prop := λ _, False.

(** The error of reading a missing key. *)
Definition key_error (e : error) : Prop := ∃ key, e = KeyError key.

(** A revision object that has every key the generators read from it: the
    four suppressible fields of the row and, in a sync with content, the
    text. *)
Definition revision_complete (content : bool) (rev : revision) : Prop :=
  is_Some (rv_comment rev) ∧ is_Some (rv_userid rev) ∧ is_Some (rv_user rev)
  ∧ is_Some (rv_sha1 rev) ∧ (content = true → is_Some (rv_content rev)).

Definition page_complete (content : bool) (p : page) : Prop :=
  Forall (revision_complete content) (pg_revisions p).

(** The pages of a feed, each with complete revisions only. *)
Definition feed_complete (content : bool) (pages : list page) : Prop :=
  Forall (page_complete content) pages.



(** The text IDs a list of operations stores blobs under, in order. *)
Definition text_ids (ops : list op) : list Z :=
  omap (λ o, match o with InsertText e => Some (old_id e) | _ => None end) ops.

(** The variable [value] of the generator: the seed before the first
    [next], the last value yielded afterwards. *)
Definition value_of (g : Grabber) (s : text_id_gen) : Z :=
  match s with
  | NotStarted => default 0 (db_max_old_id g)
  | Suspended value => value
  end.

(** [start, start + 1, ..., start + n - 1] *)
Fixpoint consecutive (start : Z) (n : nat) : list Z :=
  match n with
  | O => []
  | S n' => start :: consecutive (start + 1) n'
  end.

(** SELECT max(old_id) FROM text *)
Definition max_old_id (t : gmap Z text_row) : option Z :=
  foldr (λ k acc, Some (match acc with Some m => Z.max k m | None => k end))
        None (elements (dom t)).

Definition allocates (g : Grabber) {A} (m : Gen A) : Prop :=
  ∀ s o r, m s = (o, r) →
    text_ids o = consecutive (value_of g s + 1) (length (text_ids o))
    ∧ ∀ a s', r = inr (a, s') →
        value_of g s' = value_of g s + Z.of_nat (length (text_ids o)).

(** Two rows that agree on every column but the text ID. *)
Definition revision_rows_agree (r r' : revision_row) : Prop :=
  col_rev_page r' = col_rev_page r
  ∧ col_rev_comment r' = col_rev_comment r
  ∧ col_rev_user r' = col_rev_user r
  ∧ col_rev_user_text r' = col_rev_user_text r
  ∧ col_rev_timestamp r' = col_rev_timestamp r
  ∧ col_rev_minor_edit r' = col_rev_minor_edit r
  ∧ col_rev_deleted r' = col_rev_deleted r
  ∧ col_rev_len r' = col_rev_len r
  ∧ col_rev_parent_id r' = col_rev_parent_id r
  ∧ col_rev_sha1 r' = col_rev_sha1 r
  ∧ col_rev_content_model r' = col_rev_content_model r
  ∧ col_rev_content_format r' = col_rev_content_format r.

Definition archive_rows_agree (r r' : archive_row) : Prop :=
  col_ar_namespace r' = col_ar_namespace r
  ∧ col_ar_title r' = col_ar_title r
  ∧ col_ar_page_id r' = col_ar_page_id r
  ∧ col_ar_comment r' = col_ar_comment r
  ∧ col_ar_user r' = col_ar_user r
  ∧ col_ar_user_text r' = col_ar_user_text r
  ∧ col_ar_timestamp r' = col_ar_timestamp r
  ∧ col_ar_minor_edit r' = col_ar_minor_edit r
  ∧ col_ar_deleted r' = col_ar_deleted r
  ∧ col_ar_len r' = col_ar_len r
  ∧ col_ar_parent_id r' = col_ar_parent_id r
  ∧ col_ar_sha1 r' = col_ar_sha1 r
  ∧ col_ar_content_model r' = col_ar_content_model r
  ∧ col_ar_content_format r' = col_ar_content_format r.

(** The revision is archived under the page: the rows the moves select. *)
Definition archived_under (pid : Z) (d : db) (rev : Z) : Prop :=
  ∃ r, db_archive d !! rev = Some r ∧ col_ar_page_id r = Some pid.

(** The standing of one tag of one revision while the events go by. *)
Inductive pending := Neutral | PendingAdd | PendingRemove.

(** "an add cancels a prior pending remove" *)
Definition spec_add (p : pending) : pending :=
  match p with
  | PendingRemove => Neutral
  | _ => PendingAdd
  end.

(** "and vice versa" *)
Definition spec_remove (p : pending) : pending :=
  match p with
  | PendingAdd => Neutral
  | _ => PendingRemove
  end.

Definition net_effect_le (R : Z) (t : string) (p : pending) (le : logevent) :
    pending :=
  match le with
  | LeTagUpdate (Some r) tagsAdded tagsRemoved =>
      if bool_decide (r = R) then
        if bool_decide (t ∈ tagsAdded) then spec_add p
        else if bool_decide (t ∈ tagsRemoved) then spec_remove p
        else p
      else p
  | _ => p
  end.

Definition net_effect (R : Z) (t : string) (les : list logevent) : pending :=
  foldl (net_effect_le R t) Neutral les.

(** The standing the two dictionaries of the code give a tag. *)
Definition pending_of (a r : list (Z * gset string)) (R : Z) (t : string) :
    pending :=
  if bool_decide (t ∈ tags_get a R) then PendingAdd
  else if bool_decide (t ∈ tags_get r R) then PendingRemove
  else Neutral.

Definition tags_wf (st : log_state) (R : Z) : Prop :=
  (∀ x, x ∈ tags_get (added_tags st) R → x ∉ tags_get (removed_tags st) R)
  ∧ NoDup (added_tags st).*1 ∧ NoDup (removed_tags st).*1.

(** The canonical action [AddTag(R, T)] as an operation: the tag link goes
    to the relation that holds the revision. *)
Definition add_tag_op (g : Grabber) (revid : Z) (tag : string) : op :=
  if db_revision_exists g revid then InsertTaggedRevision revid tag
  else InsertTaggedArchivedRevision revid tag.

(** [RemoveTag(R, T)]: a delete against both relations. *)
Definition remove_tag_ops (revid : Z) (tag : string) : list op :=
  [DeleteTaggedRevision revid tag; DeleteTaggedArchivedRevision revid tag].

Definition added_tag_ops (g : Grabber) (added_tags : list (Z * gset string)) :
    list op :=
  flat_map (λ e, flat_map (λ tag, [add_tag_op g e.1 tag]) (elements e.2))
           added_tags.

Definition removed_tag_ops (removed_tags : list (Z * gset string)) : list op :=
  flat_map (λ e, flat_map (remove_tag_ops e.1) (elements e.2)) removed_tags.

(** The revision an operation on a tag link is about. *)
Definition tag_op_revid (o : op) : option Z :=
  match o with
  | InsertTaggedRevision r _ | InsertTaggedArchivedRevision r _
  | DeleteTaggedRevision r _ | DeleteTaggedArchivedRevision r _ => Some r
  | _ => None
  end.

(** * Collaborators and replicas of the worked examples *)

(** A chunking function for the examples: consecutive chunks of at most [n]
    elements ([ws.utils.iter_chunks] itself is a parameter of the model). *)
Fixpoint chunks_fuel {A} (fuel : nat) (l : list A) (n : nat) : list (list A) :=
  match fuel with
  | O => []
  | S fuel' =>
      match l with
      | [] => []
      | _ => take n l :: chunks_fuel fuel' (drop n l) n
      end
  end.

Definition example_chunks (A : Type) (l : list A) (n : nat) : list (list A) :=
  chunks_fuel (length l) l n.

(** Titles of the main namespace, stored as they are. *)
Definition example_Title (t : string) : title :=
  {| namespacenumber := 0; dbtitle := λ _, t |}.

Definition empty_result : api_result :=
  {| has_drvcontinue := false; has_rvcontinue := false; continue_keys := [];
     query_pages := [] |}.

(** A wiki on which nothing happened: every query is empty. *)
Definition quiet_grabber : Grabber :=
  {| with_content := false;
     api_list := λ _, [];
     api_call_api := λ _, empty_result;
     api_max_ids_per_query := 50%nat;
     logevents_list := λ _, [];
     Title := example_Title;
     value_or_none := λ v, v;
     iter_chunks := example_chunks;
     db_max_old_id := None;
     db_revision_exists := λ _, false |}.

Definition set_logevents (les : Z → list logevent) (g : Grabber) : Grabber :=
  {| with_content := with_content g; api_list := api_list g;
     api_call_api := api_call_api g;
     api_max_ids_per_query := api_max_ids_per_query g;
     logevents_list := les; Title := Title g;
     value_or_none := value_or_none g; iter_chunks := iter_chunks g;
     db_max_old_id := db_max_old_id g;
     db_revision_exists := db_revision_exists g |}.

Definition set_api (l : list_params → list page)
    (c : call_params → api_result) (g : Grabber) : Grabber :=
  {| with_content := with_content g; api_list := l; api_call_api := c;
     api_max_ids_per_query := api_max_ids_per_query g;
     logevents_list := logevents_list g; Title := Title g;
     value_or_none := value_or_none g; iter_chunks := iter_chunks g;
     db_max_old_id := db_max_old_id g;
     db_revision_exists := db_revision_exists g |}.

Definition set_with_content (b : bool) (g : Grabber) : Grabber :=
  {| with_content := b; api_list := api_list g;
     api_call_api := api_call_api g;
     api_max_ids_per_query := api_max_ids_per_query g;
     logevents_list := logevents_list g; Title := Title g;
     value_or_none := value_or_none g; iter_chunks := iter_chunks g;
     db_max_old_id := db_max_old_id g;
     db_revision_exists := db_revision_exists g |}.

Definition set_db_max_old_id (m : option Z) (g : Grabber) : Grabber :=
  {| with_content := with_content g; api_list := api_list g;
     api_call_api := api_call_api g;
     api_max_ids_per_query := api_max_ids_per_query g;
     logevents_list := logevents_list g; Title := Title g;
     value_or_none := value_or_none g; iter_chunks := iter_chunks g;
     db_max_old_id := m;
     db_revision_exists := db_revision_exists g |}.

(** A revision object with the given id, timestamp and tags. *)
Definition example_rev (id ts : Z) (tags : list string) : revision :=
  {| rv_revid := id; rv_comment := Some "c"; rv_userid := Some 1;
     rv_user := Some "u"; rv_timestamp := ts; rv_minor := false; rv_size := 3;
     rv_parentid := None; rv_sha1 := Some "h"; rv_contentmodel := "wikitext";
     rv_contentformat := None; rv_tags := Some tags;
     rv_content := Some "abc" |}.

Definition empty_db : db :=
  {| db_text := ∅; db_revision := ∅; db_archive := ∅;
     db_tagged_revision := ∅; db_tagged_archived_revision := ∅;
     db_tag := ∅; db_page := ∅ |}.

(** A window in which the page "A" was deleted and the deleted-revisions
    query for it comes back with the key "drvcontinue" among its top-level
    keys. *)
Definition continued_grabber : Grabber :=
  set_api (λ _, [])
    (λ q, match q with
          | QueryDeletedrevisions _ _ _ =>
              {| has_drvcontinue := true; has_rvcontinue := false;
                 continue_keys := [];
                 query_pages := [] |}
          | QueryImported _ _ => empty_result
          end)
    (set_logevents (λ _, [LeDelete "A"]) quiet_grabber).

(** A window in which the page "A" was deleted and page 3 imported.  Both
    results were cut short: they hold one revision each and the token to
    resume them, where the raw response has it, under "continue". *)
Definition truncated_grabber : Grabber :=
  set_api (λ _, [])
    (λ q, match q with
          | QueryDeletedrevisions _ _ _ =>
              {| has_drvcontinue := false; has_rvcontinue := false;
                 continue_keys := ["drvcontinue"; "continue"];
                 query_pages :=
                   [ {| qp_title := "A"; qp_ns := 0; qp_pageid := Some 0;
                        qp_revisions := None;
                        qp_deletedrevisions :=
                          Some [example_rev 10 50 []] |} ] |}
          | QueryImported _ _ =>
              {| has_drvcontinue := false; has_rvcontinue := false;
                 continue_keys := ["rvcontinue"; "continue"];
                 query_pages :=
                   [ {| qp_title := "B"; qp_ns := 0; qp_pageid := Some 3;
                        qp_revisions := Some [example_rev 20 60 []];
                        qp_deletedrevisions := None |} ] |}
          end)
    (set_logevents (λ _, [LeDelete "A"; LeImport 3]) quiet_grabber).

(** A window in which page 3 was imported with its new revision 10, tagged
    "t", and the log records that tag being added to revision 10. *)
Definition imported_tagged_grabber : Grabber :=
  set_api (λ _, [])
    (λ q, match q with
          | QueryImported _ _ =>
              {| has_drvcontinue := false; has_rvcontinue := false;
                 continue_keys := [];
                 query_pages :=
                   [ {| qp_title := "A"; qp_ns := 0; qp_pageid := Some 3;
                        qp_revisions := Some [example_rev 10 50 ["t"]];
                        qp_deletedrevisions := None |} ] |}
          | QueryDeletedrevisions _ _ _ => empty_result
          end)
    (set_logevents (λ _, [LeImport 3; LeTagUpdate (Some 10) ["t"] []])
                   quiet_grabber).

(** The same for a page deleted in the window, whose revision 10 comes with
    the deleted-revisions query. *)
Definition deleted_tagged_grabber : Grabber :=
  set_api (λ _, [])
    (λ q, match q with
          | QueryDeletedrevisions _ _ _ =>
              {| has_drvcontinue := false; has_rvcontinue := false;
                 continue_keys := [];
                 query_pages :=
                   [ {| qp_title := "A"; qp_ns := 0; qp_pageid := Some 0;
                        qp_revisions := None;
                        qp_deletedrevisions :=
                          Some [example_rev 10 50 ["t"]] |} ] |}
          | QueryImported _ _ => empty_result
          end)
    (set_logevents (λ _, [LeDelete "A"; LeTagUpdate (Some 10) ["t"] []])
                   quiet_grabber).

(** A full sync with content of one page with two revisions, into a replica
    whose largest blob ID is 4. *)
Definition content_grabber : Grabber :=
  set_db_max_old_id (Some 4)
    (set_with_content true
       (set_api (λ q, match q with
                      | Allrevisions _ _ =>
                          [ {| pg_title := "A"; pg_ns := 0; pg_pageid := Some 3;
                               pg_revisions := [example_rev 100 10 [];
                                                example_rev 101 20 []] |} ]
                      | Alldeletedrevisions _ => []
                      end)
                (λ _, empty_result) quiet_grabber)).

(** A replica that holds revision 10 of page 3 with its content in blob 4
    and a deletion bitmask, and a metadata-only insert of the same revision
    with another comment. *)
Definition stored_revision : revision_row :=
  {| col_rev_page := Some 3; col_rev_text_id := Some 4;
     col_rev_comment := "old"; col_rev_user := 1; col_rev_user_text := "u";
     col_rev_timestamp := 50; col_rev_minor_edit := false;
     col_rev_deleted := 2; col_rev_len := 3; col_rev_parent_id := None;
     col_rev_sha1 := "h"; col_rev_content_model := "wikitext";
     col_rev_content_format := None |}.

Definition stored_archived : archive_row :=
  {| col_ar_namespace := 0; col_ar_title := "A"; col_ar_page_id := Some 3;
     col_ar_text_id := Some 4; col_ar_comment := "old"; col_ar_user := 1;
     col_ar_user_text := "u"; col_ar_timestamp := 50;
     col_ar_minor_edit := false; col_ar_deleted := 2; col_ar_len := 3;
     col_ar_parent_id := Some 9; col_ar_sha1 := "h";
     col_ar_content_model := "wikitext"; col_ar_content_format := None |}.

Definition proposed_revision : revision_entry :=
  {| rev_id := 10; rev_page := Some 8; rev_comment := "new"; rev_user := 1;
     rev_user_text := "u"; rev_timestamp := 50; rev_minor_edit := false;
     rev_len := 3; rev_parent_id := None; rev_sha1 := "h";
     rev_content_model := "wikitext"; rev_content_format := None;
     rev_text_id := Some 7 |}.

Definition proposed_archived : archive_entry :=
  {| ar_namespace := 0; ar_title := "B"; ar_rev_id := 10; ar_page_id := None;
     ar_comment := "new"; ar_user := 1; ar_user_text := "u";
     ar_timestamp := 50; ar_minor_edit := false; ar_len := 3; ar_sha1 := "h";
     ar_content_model := "wikitext"; ar_content_format := None;
     ar_text_id := Some 7 |}.

(** A replica in which revision 10 of the deleted page "A" is archived
    without a page ID and carries tag 1, and the window in which "A" is
    restored as page 7. *)
Definition archived_unknown : archive_row := set_ar_page_id None stored_archived.

Definition archived_replica : db :=
  with_tagged_archived_revision {[ (10, 1) ]}
    (with_archive {[ 10 := archived_unknown ]} empty_db).

Definition restore_grabber : Grabber :=
  set_logevents (λ _, [LeRestore "A" 7]) quiet_grabber.

(** A window in which page 7, titled "A", was imported and some of the
    deleted revisions of its title were restored: the page comes with its
    live revision 5 and its still deleted revision 4. *)
Definition import_restore_grabber : Grabber :=
  set_api (λ _, [])
    (λ q, match q with
          | QueryImported _ _ =>
              {| has_drvcontinue := false; has_rvcontinue := false;
                 continue_keys := [];
                 query_pages :=
                   [ {| qp_title := "A"; qp_ns := 0; qp_pageid := Some 7;
                        qp_revisions := Some [example_rev 5 50 []];
                        qp_deletedrevisions := Some [example_rev 4 40 []] |} ]
              |}
          | QueryDeletedrevisions _ _ _ => empty_result
          end)
    (set_logevents (λ _, [LeImport 7; LeRestore "A" 7]) quiet_grabber).

(** A window in which revision 5 was made on page 1, then page 2 was merged
    into the page titled "C", then page 1 into the page titled "B". *)
Definition merge_chain_grabber : Grabber :=
  set_api (λ q, match q with
                | Allrevisions _ _ =>
                    [ {| pg_title := "A"; pg_ns := 0; pg_pageid := Some 1;
                         pg_revisions := [example_rev 5 10 []] |} ]
                | Alldeletedrevisions _ => []
                end)
          (λ _, empty_result)
    (set_logevents (λ _, [LeMerge 2 0 "C" 20; LeMerge 1 0 "B" 30])
                   quiet_grabber).

(** The pages "A", "B", "C" with the IDs 1, 2, 3 and no revision yet. *)
Definition pages_replica : db :=
  {| db_text := ∅; db_revision := ∅; db_archive := ∅;
     db_tagged_revision := ∅; db_tagged_archived_revision := ∅;
     db_tag := ∅;
     db_page := {[ (0, "A") := 1; (0, "B") := 2; (0, "C") := 3 ]} |}.

(** * Notions and examples of the further properties *)

(** Every operation the computation yields satisfies [P], whether it
    completes or raises. *)
Definition yields_only {A} (P : op → Prop) (m : Gen A) : Prop :=
  ∀ s, Forall P (m s).1.

(** The operations of the live side: a blob, a revision row, a tag link of
    a revision. *)
Definition live_insert (o : op) : Prop :=
  match o with
  | InsertText _ | InsertRevision _ | InsertTaggedRevision _ _ => True
  | _ => False
  end.

(** The operations of the archived side; an archived row is inserted
    without a page ID. *)
Definition archived_insert (o : op) : Prop :=
  match o with
  | InsertText _ | InsertTaggedArchivedRevision _ _ => True
  | InsertArchive e => ar_page_id e = None
  | _ => False
  end.

(** In a list of operations, every revision or archived row that carries a
    text ID directly follows the insert of the blob with that ID, and every
    blob is directly followed by the row that refers to it. *)
Inductive text_refs_ok : list op → Prop :=
  | refs_nil : text_refs_ok []
  | refs_text_revision te e rest :
      rev_text_id e = Some (old_id te) → text_refs_ok rest →
      text_refs_ok (InsertText te :: InsertRevision e :: rest)
  | refs_text_archive te e rest :
      ar_text_id e = Some (old_id te) → text_refs_ok rest →
      text_refs_ok (InsertText te :: InsertArchive e :: rest)
  | refs_revision e rest :
      rev_text_id e = None → text_refs_ok rest →
      text_refs_ok (InsertRevision e :: rest)
  | refs_archive e rest :
      ar_text_id e = None → text_refs_ok rest →
      text_refs_ok (InsertArchive e :: rest)
  | refs_other o rest :
      text_ids [o] = [] →
      (∀ e, o ≠ InsertRevision e) → (∀ e, o ≠ InsertArchive e) →
      text_refs_ok rest → text_refs_ok (o :: rest).

Definition keeps_text_refs {A} (m : Gen A) : Prop :=
  ∀ s, text_refs_ok (m s).1.

(** An operation of a sync without content: no blob, and no text ID on a
    row. *)
Definition without_text (o : op) : Prop :=
  match o with
  | InsertText _ => False
  | InsertRevision e => rev_text_id e = None
  | InsertArchive e => ar_text_id e = None
  | _ => True
  end.

(** The computation yields operations without text only and does not touch
    the generator of text IDs. *)
Definition metadata_only {A} (m : Gen A) : Prop :=
  ∀ s o r, m s = (o, r) →
    Forall without_text o ∧ ∀ a s', r = inr (a, s') → s' = s.

(** An insert that the replica can take: the name of a tag link is the
    name of a stored tag. *)
Definition insert_with_known_tag (tags : gmap string Z) (o : op) : Prop :=
  match o with
  | InsertText _ | InsertRevision _ | InsertArchive _ => True
  | InsertTaggedRevision _ name | InsertTaggedArchivedRevision _ name =>
      is_Some (tags !! name)
  | _ => False
  end.

(** Every tag of the revisions of the pages is a stored tag. *)
Definition tags_known (tags : gmap string Z) (pages : list page) : Prop :=
  ∀ page rev tag,
    page ∈ pages → rev ∈ pg_revisions page → tag ∈ default [] (rv_tags rev) →
    is_Some (tags !! tag).

(** A live page with revision 100 tagged "t" and a deleted page with
    revision 50, and a replica that stores the tag "t". *)
Definition tagged_feed_grabber : Grabber :=
  set_api (λ q, match q with
                | Allrevisions _ _ =>
                    [ {| pg_title := "A"; pg_ns := 0; pg_pageid := Some 3;
                         pg_revisions := [example_rev 100 10 ["t"]] |} ]
                | Alldeletedrevisions _ =>
                    [ {| pg_title := "B"; pg_ns := 0; pg_pageid := Some 0;
                         pg_revisions := [example_rev 50 5 []] |} ]
                end)
          (λ _, empty_result) quiet_grabber.

Definition tag_replica : db :=
  {| db_text := ∅; db_revision := ∅; db_archive := ∅;
     db_tagged_revision := ∅; db_tagged_archived_revision := ∅;
     db_tag := {[ "t" := 1 ]}; db_page := ∅ |}.

(** A live page whose second revision comes without its comment, which is
    suppressed. *)
Definition suppressed_comment_grabber : Grabber :=
  set_api (λ q, match q with
                | Allrevisions _ _ =>
                    [ {| pg_title := "A"; pg_ns := 0; pg_pageid := Some 3;
                         pg_revisions :=
                           [example_rev 100 10 [];
                            {| rv_revid := 101; rv_comment := None;
                               rv_userid := Some 1; rv_user := Some "u";
                               rv_timestamp := 20; rv_minor := false;
                               rv_size := 3; rv_parentid := Some 100;
                               rv_sha1 := Some "h";
                               rv_contentmodel := "wikitext";
                               rv_contentformat := None; rv_tags := None;
                               rv_content := None |}] |} ]
                | Alldeletedrevisions _ => []
                end)
          (λ _, empty_result) quiet_grabber.

(** The bitmask of the last revision-delete event that names the revision. *)
Definition last_bitmask (revid : Z) (les : list logevent) : option Z :=
  foldl (λ acc le,
           match le with
           | LeDeleteRevision _ ids new_bitmask =>
               if bool_decide (revid ∈ ids) then Some new_bitmask else acc
           | _ => acc
           end) None les.

(** The parameters of the last merge event of the page. *)
Definition last_merge (p : Z) (les : list logevent) : option merge_params :=
  foldl (λ acc le,
           match le with
           | LeMerge lp dns dt mp =>
               if bool_decide (lp = p)
               then Some {| dest_ns := dns; dest_title := dt;
                            mergepoint := mp |}
               else acc
           | _ => acc
           end) None les.

(** The dictionaries and sets of the loop, event by event. *)
Record log_summary (st : log_state) (les : list logevent) : Prop := {
  sum_deleted_revisions :
    ∀ revid, dict_get revid (deleted_revisions st) = last_bitmask revid les;
  sum_merged_pages :
    ∀ p, dict_get p (merged_pages st) = last_merge p les;
  sum_moved_pages :
    ∀ p, p ∈ moved_pages st ↔ LeMove p ∈ les;
  sum_imported_pages :
    ∀ p, p ∈ imported_pages st ↔ LeImport p ∈ les;
  sum_deleted_revisions_NoDup : NoDup (deleted_revisions st).*1;
  sum_merged_pages_NoDup : NoDup (merged_pages st).*1;
}.


(** An event that fails its assertion in a window whose new live revisions
    are [nr]. *)
Definition le_fails (nr : gset Z) (le : logevent) : Prop :=
  match le with
  | LeDeleteRevision params_type _ _ => params_type ≠ "revision"
  | LeTagUpdate (Some revid) tagsAdded tagsRemoved =>
      (revid ∉ nr)
      ∧ (list_to_set tagsAdded : gset string) ∩ list_to_set tagsRemoved ≠ ∅
  | _ => False
  end.

(** A window with revision 5 in the live feed and a revision-delete event
    of log entries. *)
Definition failing_log_grabber : Grabber :=
  set_logevents (λ _, [LeMove 1; LeDeleteRevision "logging" [3] 1; LeMove 2])
                merge_chain_grabber.

(** A window with revision 5 in the live feed and two tag events, for
    revision 5 and for revision 6. *)
Definition live_tagged_grabber : Grabber :=
  set_logevents (λ _, [LeTagUpdate (Some 5) ["t"] [];
                       LeTagUpdate (Some 6) ["t"] []])
                merge_chain_grabber.

(** A window whose log holds, latest phase first, a tag event, a
    revision-delete event, a merge, an import, a deletion and a restore,
    next to a live feed of one revision. *)
Definition all_phases_grabber : Grabber :=
  set_api (λ q, match q with
                | Allrevisions _ _ =>
                    [ {| pg_title := "L"; pg_ns := 0; pg_pageid := Some 1;
                         pg_revisions := [example_rev 5 10 []] |} ]
                | Alldeletedrevisions _ => []
                end)
    (λ q, match q with
          | QueryDeletedrevisions _ _ _ =>
              {| has_drvcontinue := false; has_rvcontinue := false;
                 continue_keys := [];
                 query_pages :=
                   [ {| qp_title := "A"; qp_ns := 0; qp_pageid := Some 0;
                        qp_revisions := None;
                        qp_deletedrevisions :=
                          Some [example_rev 10 50 []] |} ] |}
          | QueryImported _ _ =>
              {| has_drvcontinue := false; has_rvcontinue := false;
                 continue_keys := [];
                 query_pages :=
                   [ {| qp_title := "B"; qp_ns := 0; qp_pageid := Some 3;
                        qp_revisions := Some [example_rev 20 60 []];
                        qp_deletedrevisions := None |} ] |}
          end)
    (set_logevents (λ _, [LeTagUpdate (Some 7) ["t"] ["u"];
                          LeDeleteRevision "revision" [8] 1;
                          LeMerge 2 0 "C" 20;
                          LeImport 3;
                          LeDelete "A";
                          LeRestore "R" 4])
                   quiet_grabber).

(** A list of operations that falls into consecutive segments, one for each
    of the given kinds, in their order; a segment may be empty. *)
Fixpoint in_phases (kinds : list (op → Prop)) (ops : list op) : Prop :=
  match kinds with
  | [] => ops = []
  | P :: kinds' =>
      ∃ l1 l2, ops = l1 ++ l2 ∧ Forall P l1 ∧ in_phases kinds' l2
  end.

(** The three operations of a restored page. *)
Definition restore_op (o : op) : Prop :=
  match o with
  | UpdateArchiveArPageId _ _ _ | MoveTaggedArchivedRevision _
  | MoveRevision _ => True
  | _ => False
  end.

Definition merge_op (o : op) : Prop :=
  match o with MergeRevision _ _ _ _ => True | _ => False end.

Definition bitmask_op (o : op) : Prop :=
  match o with UpdateRevDeleted _ _ | UpdateArDeleted _ _ => True | _ => False end.

Definition insert_tag_op (o : op) : Prop :=
  match o with
  | InsertTaggedRevision _ _ | InsertTaggedArchivedRevision _ _ => True
  | _ => False
  end.

Definition delete_tag_op (o : op) : Prop :=
  match o with
  | DeleteTaggedRevision _ _ | DeleteTaggedArchivedRevision _ _ => True
  | _ => False
  end.

(** The kinds of the operations of an update, phase by phase. *)
Definition update_phases : list (op → Prop) :=
  [live_insert; restore_op; archived_insert;
   (λ o, live_insert o ∨ archived_insert o);
   merge_op; bitmask_op; insert_tag_op; delete_tag_op].

(** A replica with revision 10 in [revision] and revision 11 in
    [archive]. *)
Definition two_tables_replica : db :=
  {| db_text := ∅; db_revision := {[ 10 := stored_revision ]};
     db_archive := {[ 11 := stored_archived ]};
     db_tagged_revision := ∅; db_tagged_archived_revision := ∅;
     db_tag := ∅; db_page := ∅ |}.

(** Two computations that yield the same operations and end the same way,
    whatever the values they return. *)
Definition same_run {A B} (m : Gen A) (m' : Gen B) : Prop :=
  ∀ s, (m s).1 = (m' s).1
       ∧ match (m s).2, (m' s).2 with
         | inl e, inl e' => e = e'
         | inr (_, t), inr (_, t') => t = t'
         | _, _ => False
         end.

(** The pairs of a page and one of its revisions, in the order of the two
    nested loops over a feed. *)
Definition feed_pairs (pages : list page) : list (page * revision) :=
  flat_map (λ p, pair p <$> pg_revisions p) pages.

(** The row of the revision in [revision] refers to a blob, allocated no
    later than [v], that holds the content of the revision. *)
Definition live_content_stored (v : Z) (d : db) (rev : revision) : Prop :=
  ∃ row tid,
    db_revision d !! rv_revid rev = Some row
    ∧ col_rev_text_id row = Some tid
    ∧ tid ≤ v
    ∧ (∃ content, rv_content rev = Some content
                  ∧ db_text d !! tid = Some {| col_old_text := content;
                                               col_old_flags := "utf-8" |}).

(** The same for the row of the revision in [archive]. *)
Definition archived_content_stored (v : Z) (d : db) (rev : revision) : Prop :=
  ∃ row tid,
    db_archive d !! rv_revid rev = Some row
    ∧ col_ar_text_id row = Some tid
    ∧ tid ≤ v
    ∧ (∃ content, rv_content rev = Some content
                  ∧ db_text d !! tid = Some {| col_old_text := content;
                                               col_old_flags := "utf-8" |}).

(** The invariant of the loop over the live feed: the tags are those of
    the start, and the content of every revision done is stored. *)
Definition live_feed_invariant (g : Grabber) (d0 : db)
    (done : list (page * revision)) (s : text_id_gen) (d : db) : Prop :=
  db_tag d = db_tag d0
  ∧ ∀ pr, pr ∈ done → live_content_stored (value_of g s) d pr.2.

(** The invariant of the loop over the deleted feed, after the live feed
    [live]. *)
Definition deleted_feed_invariant (g : Grabber) (d0 : db)
    (live done : list (page * revision)) (s : text_id_gen) (d : db) : Prop :=
  db_tag d = db_tag d0
  ∧ (∀ pr, pr ∈ live → live_content_stored (value_of g s) d pr.2)
  ∧ ∀ pr, pr ∈ done → archived_content_stored (value_of g s) d pr.2.

(** A full sync with content of a live page with revisions 100 and 101 and a
    deleted page with revision 50. *)
Definition content_feed_grabber : Grabber :=
  set_with_content true
    (set_api (λ q, match q with
                   | Allrevisions _ _ =>
                       [ {| pg_title := "A"; pg_ns := 0; pg_pageid := Some 3;
                            pg_revisions := [example_rev 100 10 [];
                                             example_rev 101 20 []] |} ]
                   | Alldeletedrevisions _ =>
                       [ {| pg_title := "B"; pg_ns := 0; pg_pageid := Some 0;
                            pg_revisions := [example_rev 50 5 []] |} ]
                   end)
             (λ _, empty_result) quiet_grabber).

(** ** Notions of the replay of a window *)

(** The archived rows a restore operation acts on: those of the namespace
    and title of the update of [ar_page_id], those of the page of a
    move. *)
Definition restore_touches (o : op) (r : archive_row) : Prop :=
  match o with
  | UpdateArchiveArPageId b_namespace b_title _ =>
      col_ar_namespace r = b_namespace
      ∧ title_matches b_title (col_ar_title r) = true
  | MoveTaggedArchivedRevision b_page_id | MoveRevision b_page_id =>
      col_ar_page_id r = Some b_page_id
  | _ => False
  end.

#[global] Instance restore_touches_dec o r : Decision (restore_touches o r).
Proof. destruct o; simpl; apply _. Defined.

(** The row that [o'] archives, if it archives one, is none that [o] acts
    on. *)
Definition archives_clear_of (o o' : op) : Prop :=
  match o' with
  | InsertArchive e => ¬ restore_touches o (archive_row_of e)
  | _ => True
  end.

#[global] Instance archives_clear_of_dec o o' : Decision (archives_clear_of o o').
Proof. destruct o'; simpl; apply _. Defined.

(** No restore operation of the list acts on a row that the replica has
    archived or on a row that the list archives. *)
Definition restores_clear (d : db) (ops : list op) : Prop :=
  Forall (λ o, map_Forall (λ _ r, ¬ restore_touches o r) (db_archive d)
               ∧ Forall (archives_clear_of o) ops) ops.

(** The merge [o] moves revisions to the page that the merge [o'] takes
    revisions from. *)
Definition merge_chains (pages : gmap (Z * string) Z) (o o' : op) : Prop :=
  match o, o' with
  | MergeRevision _ b_dest_ns b_dest_title _, MergeRevision b_src_page_id _ _ _ =>
      pages !! (b_dest_ns, b_dest_title) = Some b_src_page_id
  | _, _ => False
  end.

#[global] Instance merge_chains_dec pages o o' :
  Decision (merge_chains pages o o').
Proof. destruct o, o'; simpl; apply _. Defined.

(** No merge of the list moves revisions to a page that a merge of the list
    takes revisions from. *)
Definition merges_unchained (d : db) (ops : list op) : Prop :=
  Forall (λ o, Forall (λ o', ¬ merge_chains (db_page d) o o') ops) ops.

#[global] Instance restore_op_dec o : Decision (restore_op o).
Proof. destruct o; simpl; apply _. Defined.

(** The list without its restore operations. *)
Definition without_restores (ops : list op) : list op :=
  filter (λ o, ¬ restore_op o) ops.

(** Whether the database accepts an operation that is none of a restore:
    an insert of a tag link needs the id of its tag. *)
Definition accepted (tags : gmap string Z) (o : op) : bool :=
  match o with
  | InsertTaggedRevision _ b_tag_name
  | InsertTaggedArchivedRevision _ b_tag_name =>
      bool_decide (is_Some (tags !! b_tag_name))
  | _ => true
  end.

(** What an operation that is none of a restore does to each relation. *)
Definition text_step (o : op) (m : gmap Z text_row) : gmap Z text_row :=
  match o with
  | InsertText e =>
      <[old_id e := {| col_old_text := old_text e;
                       col_old_flags := old_flags e |}]> m
  | _ => m
  end.

Definition merged_row (pages : gmap (Z * string) Z) (b_src_page_id b_dest_ns : Z)
    (b_dest_title : string) (b_mergepoint : Z) (r : revision_row) :
    revision_row :=
  if bool_decide (col_rev_page r = Some b_src_page_id)
     && bool_decide (col_rev_timestamp r ≤ b_mergepoint)
  then set_rev_page (pages !! (b_dest_ns, b_dest_title)) r else r.

Definition revision_step (pages : gmap (Z * string) Z) (o : op)
    (m : gmap Z revision_row) : gmap Z revision_row :=
  match o with
  | InsertRevision e =>
      match m !! rev_id e with
      | Some r => <[rev_id e := set_rev_text_id (rev_text_id e) r]> m
      | None => <[rev_id e := revision_row_of e]> m
      end
  | MergeRevision b_src_page_id b_dest_ns b_dest_title b_mergepoint =>
      merged_row pages b_src_page_id b_dest_ns b_dest_title b_mergepoint <$> m
  | UpdateRevDeleted b_revid new_rev_deleted =>
      alter (set_rev_deleted new_rev_deleted) b_revid m
  | _ => m
  end.

Definition archive_step (o : op) (m : gmap Z archive_row) :
    gmap Z archive_row :=
  match o with
  | InsertArchive e =>
      match m !! ar_rev_id e with
      | Some r => <[ar_rev_id e := set_ar_text_id (ar_text_id e) r]> m
      | None => <[ar_rev_id e := archive_row_of e]> m
      end
  | UpdateArDeleted b_revid new_ar_deleted =>
      alter (set_ar_deleted new_ar_deleted) b_revid m
  | _ => m
  end.

Definition tagged_revision_step (tags : gmap string Z) (o : op)
    (links : gset (Z * Z)) : gset (Z * Z) :=
  match o with
  | InsertTaggedRevision b_rev_id b_tag_name =>
      match tags !! b_tag_name with
      | Some tag_id => links ∪ {[(b_rev_id, tag_id)]}
      | None => links
      end
  | DeleteTaggedRevision b_rev_id b_tag_name =>
      match tags !! b_tag_name with
      | Some tag_id => links ∖ {[(b_rev_id, tag_id)]}
      | None => links
      end
  | _ => links
  end.

Definition tagged_archived_revision_step (tags : gmap string Z) (o : op)
    (links : gset (Z * Z)) : gset (Z * Z) :=
  match o with
  | InsertTaggedArchivedRevision b_rev_id b_tag_name =>
      match tags !! b_tag_name with
      | Some tag_id => links ∪ {[(b_rev_id, tag_id)]}
      | None => links
      end
  | DeleteTaggedArchivedRevision b_rev_id b_tag_name =>
      match tags !! b_tag_name with
      | Some tag_id => links ∖ {[(b_rev_id, tag_id)]}
      | None => links
      end
  | _ => links
  end.

(** The replica after the operations of a list without restores. *)
Definition steps (ops : list op) (d : db) : db :=
  {| db_text := foldl (λ m o, text_step o m) (db_text d) ops;
     db_revision := foldl (λ m o, revision_step (db_page d) o m)
                          (db_revision d) ops;
     db_archive := foldl (λ m o, archive_step o m) (db_archive d) ops;
     db_tagged_revision :=
       foldl (λ l o, tagged_revision_step (db_tag d) o l)
             (db_tagged_revision d) ops;
     db_tagged_archived_revision :=
       foldl (λ l o, tagged_archived_revision_step (db_tag d) o l)
             (db_tagged_archived_revision d) ops;
     db_tag := db_tag d; db_page := db_page d |}.

(** What the operations of a list do to the row of one revision in
    [revision], and in [archive]. *)
Definition revision_point (pages : gmap (Z * string) Z) (k : Z) (o : op)
    (x : option revision_row) : option revision_row :=
  match o with
  | InsertRevision e =>
      if bool_decide (rev_id e = k)
      then Some (set_rev_text_id (rev_text_id e)
                                 (default (revision_row_of e) x))
      else x
  | MergeRevision b_src_page_id b_dest_ns b_dest_title b_mergepoint =>
      merged_row pages b_src_page_id b_dest_ns b_dest_title b_mergepoint <$> x
  | UpdateRevDeleted b_revid new_rev_deleted =>
      if bool_decide (b_revid = k) then set_rev_deleted new_rev_deleted <$> x
      else x
  | _ => x
  end.

Definition archive_point (k : Z) (o : op) (x : option archive_row) :
    option archive_row :=
  match o with
  | InsertArchive e =>
      if bool_decide (ar_rev_id e = k)
      then Some (set_ar_text_id (ar_text_id e) (default (archive_row_of e) x))
      else x
  | UpdateArDeleted b_revid new_ar_deleted =>
      if bool_decide (b_revid = k) then set_ar_deleted new_ar_deleted <$> x
      else x
  | _ => x
  end.

(** The page that the merges of a list leave a revision of page [p] and
    timestamp [ts] on. *)
Definition merged_page (pages : gmap (Z * string) Z) (ts : Z) (o : op)
    (p : option Z) : option Z :=
  match o with
  | MergeRevision b_src_page_id b_dest_ns b_dest_title b_mergepoint =>
      if bool_decide (p = Some b_src_page_id)
         && bool_decide (ts ≤ b_mergepoint)
      then pages !! (b_dest_ns, b_dest_title) else p
  | _ => p
  end.

(** A replica with the tags and the page that the window of
    [all_phases_grabber] names, and nothing else. *)
Definition tags_replica : db :=
  {| db_text := ∅; db_revision := ∅; db_archive := ∅;
     db_tagged_revision := ∅; db_tagged_archived_revision := ∅;
     db_tag := {[ "t" := 1; "u" := 2 ]};
     db_page := {[ (0, "C") := 9 ]} |}.

(** The insert of revision 10 by a sync without content: no text id. *)
Definition metadata_revision : revision_entry :=
  {| rev_id := 10; rev_page := Some 3; rev_comment := "old"; rev_user := 1;
     rev_user_text := "u"; rev_timestamp := 50; rev_minor_edit := false;
     rev_len := 3; rev_parent_id := None; rev_sha1 := "h";
     rev_content_model := "wikitext"; rev_content_format := None;
     rev_text_id := None |}.

(** * Properties *)

(** ** Python dictionaries *)

Module PyFacts.
Section dict_facts.
Context {K V : Type} `{EqDecision K}.

Lemma dict_get_set_eq (k : K) (v : V) (d : list (K * V)) :
  dict_get k (dict_set k v d) = Some v.
Proof.
  induction d as [|[k' v'] d IH]; simpl.
  - by rewrite decide_True.
  - destruct (decide (k = k')); simpl.
    + by rewrite decide_True.
    + by rewrite decide_False.
Qed.

Lemma dict_get_set_ne (k : K) (k' : K) (v : V) (d : list (K * V)) :
  k ≠ k' → dict_get k' (dict_set k v d) = dict_get k' d.
Proof.
  intros Hne. induction d as [|[k0 v0] d IH]; simpl.
  - by rewrite decide_False.
  - destruct (decide (k = k0)) as [->|]; simpl.
    + by rewrite !decide_False.
    + destruct (decide (k' = k0)); auto.
Qed.

Lemma dict_get_del_eq (k : K) (d : list (K * V)) :
  dict_get k (dict_del k d) = None.
Proof.
  induction d as [|[k' v'] d IH]; simpl; [done|].
  destruct (decide (k = k')); simpl; [done|]. by rewrite decide_False.
Qed.

Lemma dict_get_del_ne (k : K) (k' : K) (d : list (K * V)) :
  k ≠ k' → dict_get k' (dict_del k d) = dict_get k' d.
Proof.
  intros Hne. induction d as [|[k0 v0] d IH]; simpl; [done|].
  destruct (decide (k = k0)) as [->|]; simpl.
  - by rewrite decide_False.
  - destruct (decide (k' = k0)); auto.
Qed.

Lemma dict_set_keys_in (k : K) (v : V) (d : list (K * V)) (x : K) :
  x ∈ (dict_set k v d).*1 ↔ x = k ∨ x ∈ d.*1.
Proof.
  induction d as [|[k' v'] d IH]; simpl.
  - set_solver.
  - destruct (decide (k = k')) as [->|]; simpl; set_solver.
Qed.

Lemma dict_set_NoDup (k : K) (v : V) (d : list (K * V)) :
  NoDup d.*1 → NoDup (dict_set k v d).*1.
Proof.
  induction d as [|[k' v'] d IH]; simpl; intros Hnd.
  - apply NoDup_singleton.
  - apply NoDup_cons in Hnd as [Hni Hnd].
    destruct (decide (k = k')) as [->|]; simpl.
    + by apply NoDup_cons.
    + apply NoDup_cons. split; [|by apply IH].
      rewrite dict_set_keys_in. intros [->|]; done.
Qed.

Lemma dict_del_keys_in (k : K) (d : list (K * V)) (x : K) : x ∈ (dict_del k d).*1 → x ∈ d.*1.
Proof.
  induction d as [|[k' v'] d IH]; simpl; [done|].
  destruct (decide (k = k')); simpl; set_solver.
Qed.

Lemma dict_del_NoDup (k : K) (d : list (K * V)) :
  NoDup d.*1 → NoDup (dict_del k d).*1.
Proof.
  induction d as [|[k' v'] d IH]; simpl; intros Hnd; [done|].
  apply NoDup_cons in Hnd as [Hni Hnd].
  destruct (decide (k = k')); simpl; [by apply IH|].
  apply NoDup_cons. split; [|by apply IH].
  intros Hin. by apply Hni, (dict_del_keys_in k).
Qed.

Lemma dict_get_Some_in (k : K) (v : V) (d : list (K * V)) :
  dict_get k d = Some v → (k, v) ∈ d.
Proof.
  induction d as [|[k' v'] d IH]; simpl; [done|].
  destruct (decide (k = k')) as [->|]; [intros [= ->]|]; set_solver.
Qed.

Lemma dict_in_get_Some (k : K) (v : V) (d : list (K * V)) :
  NoDup d.*1 → (k, v) ∈ d → dict_get k d = Some v.
Proof.
  induction d as [|[k' v'] d IH]; simpl; intros Hnd Hin.
  - by apply elem_of_nil in Hin.
  - apply NoDup_cons in Hnd as [Hni Hnd].
    apply elem_of_cons in Hin as [[= -> ->]|Hin].
    + by rewrite decide_True.
    + destruct (decide (k = k')) as [->|]; [|by apply IH].
      exfalso. apply Hni. apply list_elem_of_fmap. by exists (k', v).
Qed.

Lemma dict_get_None_keys (k : K) (d : list (K * V)) :
  dict_get k d = None ↔ k ∉ d.*1.
Proof.
  induction d as [|[k' v'] d IH]; simpl.
  - set_solver.
  - destruct (decide (k = k')) as [->|]; [set_solver|].
    rewrite IH. set_solver.
Qed.

Lemma dict_filter_absent (k : K) (d : list (K * V)) :
  k ∉ d.*1 → filter (λ kv, kv.1 = k) d = [].
Proof.
  induction d as [|[k' v'] d IH]; simpl; intros Hni; [done|].
  apply not_elem_of_cons in Hni as [Hne Hni].
  rewrite filter_cons_False by (simpl; congruence). by apply IH.
Qed.

Lemma dict_filter_key (k : K) v (d : list (K * V)) :
  NoDup d.*1 → dict_get k d = Some v → filter (λ kv, kv.1 = k) d = [(k, v)].
Proof.
  induction d as [|[k' v'] d IH]; simpl; intros Hnd Hget; [done|].
  apply NoDup_cons in Hnd as [Hni Hnd].
  destruct (decide (k = k')) as [->|Hne].
  - injection Hget as ->. rewrite filter_cons_True by done. f_equal.
    by apply dict_filter_absent.
  - rewrite filter_cons_False by (simpl; congruence). by apply IH.
Qed.

End dict_facts.
End PyFacts.
Import PyFacts.

(** ** Laws of the generator monad *)

Lemma bind_ret_l {A B} (a : A) (k : A → Gen B) s : bind (ret a) k s = k a s.
Proof. unfold bind, ret. simpl. by destruct (k a s). Qed.

Lemma bind_raise {A B} (e : error) (k : A → Gen B) s :
  bind (raise e) k s = ([], inl e).
Proof. done. Qed.

Lemma bind_ok {A B} (m : Gen A) (k : A → Gen B) s o a s' :
  m s = (o, inr (a, s')) → bind m k s = (o ++ (k a s').1, (k a s').2).
Proof. unfold bind. intros ->. by destruct (k a s'). Qed.

Lemma bind_err {A B} (m : Gen A) (k : A → Gen B) s o e :
  m s = (o, inl e) → bind m k s = (o, inl e).
Proof. unfold bind. by intros ->. Qed.

Lemma bind_assoc {A B C} (m : Gen A) (k : A → Gen B) (k' : B → Gen C) s :
  bind (bind m k) k' s = bind m (λ a, bind (k a) k') s.
Proof.
  unfold bind. destruct (m s) as [o [e|[a s1]]]; [done|].
  destruct (k a s1) as [o1 [e1|[b s2]]]; [done|].
  destruct (k' b s2) as [o2 r2]. by rewrite app_assoc.
Qed.

Lemma bind_ext {A B} (m : Gen A) (k k' : A → Gen B) s :
  (∀ a s', k a s' = k' a s') → bind m k s = bind m k' s.
Proof.
  intros Hk. unfold bind. destruct (m s) as [o [e|[a s1]]]; [done|].
  by rewrite Hk.
Qed.

Lemma for_each_app {A} (l1 l2 : list A) (body : A → Gen unit) s :
  for_each (l1 ++ l2) body s = bind (for_each l1 body) (λ _, for_each l2 body) s.
Proof.
  revert s. induction l1 as [|x l1 IH]; intros s; simpl.
  - by rewrite bind_ret_l.
  - rewrite bind_assoc. apply bind_ext. intros _ s'. apply IH.
Qed.

Lemma for_fold_app {A S} (l1 l2 : list A) (body : S → A → Gen S) s0 s :
  for_fold (l1 ++ l2) body s0 s
  = bind (for_fold l1 body s0) (λ s1, for_fold l2 body s1) s.
Proof.
  revert s0 s. induction l1 as [|x l1 IH]; intros s0 s; simpl.
  - by rewrite bind_ret_l.
  - rewrite bind_assoc. apply bind_ext. intros s1 s'. apply IH.
Qed.

(** A loop whose body only yields: it yields the bodies' operations in
    order, finishes, and leaves the generator object alone. *)
Lemma for_each_pure {A} (l : list A) (body : A → Gen unit) (f : A → list op) s :
  (∀ x s, body x s = (f x, inr (tt, s))) →
  for_each l body s = (flat_map f l, inr (tt, s)).
Proof.
  intros Hb. induction l as [|x l IH]; simpl; [done|].
  unfold bind. by rewrite Hb, IH.
Qed.

(** ** The loop over the log events *)

Lemma process_log_app nr ndr l1 l2 st :
  process_log nr ndr (l1 ++ l2) st =
  match process_log nr ndr l1 st with
  | inl e => inl e
  | inr st' => process_log nr ndr l2 st'
  end.
Proof.
  revert st. induction l1 as [|le l1 IH]; intros st; simpl; [done|].
  destruct (process_le nr ndr st le); [done|]. apply IH.
Qed.

Lemma process_le_ok nr ndr st le :
  le_ok le → ∃ st', process_le nr ndr st le = inr st'.
Proof.
  destruct le as [| | | | | | |[r|] a b|]; simpl; intros Hok; eauto.
  - rewrite bool_decide_eq_true_2 by done. eauto.
  - case_bool_decide; eauto. rewrite bool_decide_eq_true_2 by done. eauto.
Qed.

Lemma process_log_ok nr ndr les st :
  Forall le_ok les → ∃ st', process_log nr ndr les st = inr st'.
Proof.
  revert st. induction les as [|le les IH]; intros st Hok; simpl; eauto.
  apply Forall_cons in Hok as [Hle Hles].
  destruct (process_le_ok nr ndr st le Hle) as [st1 ->]. by apply IH.
Qed.

(** ** Deleted and restored pages *)

Lemma process_le_delete nr ndr st t :
  ∃ st', process_le nr ndr st (LeDelete t) = inr st'
         ∧ t ∈ deleted_pages st' ∧ dict_get t (undeleted_pages st') = None.
Proof.
  eexists. split; [done|]. simpl. split; [set_solver|].
  unfold dict_in. case_bool_decide as Hin.
  - apply dict_get_del_eq.
  - by apply eq_None_not_Some.
Qed.

Lemma process_le_restore nr ndr st t pid :
  ∃ st', process_le nr ndr st (LeRestore t pid) = inr st'
         ∧ (t ∉ deleted_pages st')
         ∧ dict_get t (undeleted_pages st') = Some pid.
Proof.
  eexists. split; [done|]. simpl. split; [|apply dict_get_set_eq].
  case_bool_decide; set_solver.
Qed.

Lemma process_le_disjoint nr ndr st le st' :
  process_le nr ndr st le = inr st' → pages_disjoint st → pages_disjoint st'.
Proof.
  unfold pages_disjoint.
  destruct le as [t|t pid|pt ids bm| |lp|lp dns dt mp|lp|[r|] a b|]; simpl;
    intros Heq Hdis; try (by injection Heq as <-).
  - injection Heq as <-. simpl. intros t' Hin.
    destruct (decide (t = t')) as [<-|Hne].
    + unfold dict_in. case_bool_decide as Hd; [apply dict_get_del_eq|].
      by apply eq_None_not_Some.
    + assert (dict_get t' (undeleted_pages st) = None) as Hn
        by (apply Hdis; set_solver).
      destruct (dict_in t (undeleted_pages st)); [|done].
      by rewrite dict_get_del_ne.
  - injection Heq as <-. simpl. intros t' Hin.
    assert (t ≠ t' ∧ t' ∈ deleted_pages st) as [Hne Hin'].
    { case_bool_decide; [set_solver|]. split; [|done]. by intros ->. }
    rewrite dict_get_set_ne by done. by apply Hdis.
  - case_bool_decide; [|done]. by injection Heq as <-.
  - case_bool_decide; [|by injection Heq as <-].
    case_bool_decide; [|done]. by injection Heq as <-.
Qed.

Lemma process_log_disjoint nr ndr les st st' :
  process_log nr ndr les st = inr st' → pages_disjoint st → pages_disjoint st'.
Proof.
  revert st. induction les as [|le les IH]; intros st; simpl.
  - by intros [= <-].
  - destruct (process_le nr ndr st le) as [|st1] eqn:Hle; [done|].
    intros Hlog Hdis. eapply IH; [done|]. by eapply process_le_disjoint.
Qed.

Lemma process_le_undeleted_NoDup nr ndr st le st' :
  process_le nr ndr st le = inr st' →
  NoDup (undeleted_pages st).*1 → NoDup (undeleted_pages st').*1.
Proof.
  destruct le as [t|t pid|pt ids bm| |lp|lp dns dt mp|lp|[r|] a b|]; simpl;
    intros Heq Hnd; try (by injection Heq as <-).
  - injection Heq as <-. simpl.
    destruct (dict_in t (undeleted_pages st)); [|done]. by apply dict_del_NoDup.
  - injection Heq as <-. simpl. by apply dict_set_NoDup.
  - case_bool_decide; [|done]. by injection Heq as <-.
  - case_bool_decide; [|by injection Heq as <-].
    case_bool_decide; [|done]. by injection Heq as <-.
Qed.

Lemma process_log_undeleted_NoDup nr ndr les st st' :
  process_log nr ndr les st = inr st' →
  NoDup (undeleted_pages st).*1 → NoDup (undeleted_pages st').*1.
Proof.
  revert st. induction les as [|le les IH]; intros st; simpl.
  - by intros [= <-].
  - destruct (process_le nr ndr st le) as [|st1] eqn:Hle; [done|].
    intros Hlog Hnd. eapply IH; [done|].
    by eapply process_le_undeleted_NoDup.
Qed.

Lemma process_le_untouched nr ndr st le st' P pid :
  process_le nr ndr st le = inr st' → ¬ touches P le →
  ended_restored P pid st → ended_restored P pid st'.
Proof.
  unfold ended_restored.
  destruct le as [t|t p|pt ids bm| |lp|lp dns dt mp|lp|[r|] a b|]; simpl;
    intros Heq Hnt [Hnd Hget]; try (by injection Heq as <-).
  - injection Heq as <-. simpl. split; [set_solver|].
    destruct (dict_in t (undeleted_pages st)); [|done].
    by rewrite dict_get_del_ne.
  - injection Heq as <-. simpl. split.
    + case_bool_decide; set_solver.
    + by rewrite dict_get_set_ne.
  - case_bool_decide; [|done]. by injection Heq as <-.
  - case_bool_decide; [|by injection Heq as <-].
    case_bool_decide; [|done]. by injection Heq as <-.
Qed.

Lemma process_log_untouched nr ndr les st st' P pid :
  process_log nr ndr les st = inr st' → Forall (λ le, ¬ touches P le) les →
  ended_restored P pid st → ended_restored P pid st'.
Proof.
  revert st. induction les as [|le les IH]; intros st; simpl.
  - by intros [= <-].
  - destruct (process_le nr ndr st le) as [|st1] eqn:Hle; [done|].
    intros Hlog [Hnt Hall]%Forall_cons Hr. eapply IH; [done..|].
    by eapply process_le_untouched.
Qed.

(** C5.  While the log events of a window are processed in their order, the
    titles that ended deleted and the titles that ended restored stay
    disjoint after every prefix: a delete event puts its title among the
    deleted ones and evicts it from the restored ones, a restore event does
    the opposite.  Hence a delete followed later in the window by a restore
    of the same title, with no later delete or restore of it, leaves the
    title out of the deleted set and exactly once, with the page of that
    restore, among the restored ones. *)
Theorem delete_restore_collapse nr ndr (les : list logevent) :
  Forall le_ok les →
  (∀ pre suf, les = pre ++ suf →
     ∃ st, process_log nr ndr pre init_log_state = inr st ∧
           ∀ t, ¬ (t ∈ deleted_pages st ∧
                   is_Some (dict_get t (undeleted_pages st))))
  ∧ (∀ st t, ∃ st', process_le nr ndr st (LeDelete t) = inr st' ∧
                    t ∈ deleted_pages st' ∧
                    dict_get t (undeleted_pages st') = None)
  ∧ (∀ st t pid, ∃ st', process_le nr ndr st (LeRestore t pid) = inr st' ∧
                        (t ∉ deleted_pages st') ∧
                        dict_get t (undeleted_pages st') = Some pid)
  ∧ (∀ P pid l1 l2 l3,
       les = l1 ++ LeDelete P :: l2 ++ LeRestore P pid :: l3 →
       Forall (λ le, ¬ touches P le) l3 →
       ∃ st, process_log nr ndr les init_log_state = inr st ∧
             (P ∉ deleted_pages st) ∧
             filter (λ kv, kv.1 = P) (undeleted_pages st) = [(P, pid)]).
Proof.
  intros Hok. split; [|split; [|split]].
  - intros pre suf ->. apply Forall_app in Hok as [Hpre _].
    destruct (process_log_ok nr ndr pre init_log_state Hpre) as [st Hst].
    exists st. split; [done|]. intros t [Hin [v Hv]].
    assert (pages_disjoint st) as Hdis.
    { eapply process_log_disjoint; [done|]. intros t'. set_solver. }
    rewrite (Hdis t Hin) in Hv. done.
  - intros st t. apply process_le_delete.
  - intros st t pid. apply process_le_restore.
  - intros P pid l1 l2 l3 Hles Hl3.
    destruct (process_log_ok nr ndr les init_log_state Hok) as [st Hst].
    exists st. split; [done|].
    assert (NoDup (undeleted_pages st).*1) as Hnd.
    { eapply process_log_undeleted_NoDup; [done|]. simpl. constructor. }
    rewrite Hles in Hst.
    rewrite (process_log_app _ _ l1) in Hst.
    destruct (process_log nr ndr l1 init_log_state) as [|st1]; [done|].
    simpl in Hst.
    rewrite (process_log_app _ _ l2) in Hst.
    destruct (process_log nr ndr l2 _) as [|st2]; [done|].
    simpl in Hst.
    destruct (process_le_restore nr ndr st2 P pid) as (st3 & Hst3 & Hr).
    simpl in Hst3. injection Hst3 as Hst3. rewrite Hst3 in Hst.
    destruct (process_log_untouched _ _ _ _ _ P pid Hst Hl3 Hr) as [Hd Hg].
    split; [done|]. by apply dict_filter_key.
Qed.

Lemma delete_restore_collapse_witness :
  ∃ st, process_log ∅ ∅ [LeDelete "A"; LeRestore "A" 9] init_log_state = inr st
        ∧ ("A" ∉ deleted_pages st)
        ∧ filter (λ kv, kv.1 = "A") (undeleted_pages st) = [("A", 9)].
Proof.
  assert (Forall le_ok [LeDelete "A"; LeRestore "A" 9]) as Hok
    by (repeat constructor).
  destruct (delete_restore_collapse ∅ ∅ _ Hok) as (_ & _ & _ & H).
  apply (H "A" 9 [] [] []); [reflexivity|constructor].
Defined.

Lemma gen_undelete_run g up s :
  gen_undelete g up s = (flat_map (undelete_ops g) up, inr (tt, s)).
Proof. apply for_each_pure. by intros [t pid] s'. Qed.

(** C10.  A tag-update log event without a revision id leaves every local
    variable of the loop as it was, and the run on a log with such an event
    is the run on the log without it: the event adds nothing to the added or
    removed tags and yields no operation. *)
Theorem tag_update_without_revid_skipped :
  (∀ nr ndr st tagsAdded tagsRemoved,
     process_le nr ndr st (LeTagUpdate None tagsAdded tagsRemoved) = inr st)
  ∧ (∀ g since l1 l2 tagsAdded tagsRemoved s,
       gen_update
         (set_logevents
            (λ _, l1 ++ LeTagUpdate None tagsAdded tagsRemoved :: l2) g)
         since s
       = gen_update (set_logevents (λ _, l1 ++ l2) g) since s).
Proof.
  split; [done|].
  intros g since l1 l2 a r s. unfold gen_update.
  apply bind_ext. intros _ s1. apply bind_ext. intros nrv s2. simpl.
  rewrite !process_log_app. simpl. reflexivity.
Qed.

(** ** Which exceptions a computation can raise *)


Lemma raises_only_ret {A} E (a : A) : raises_only E (ret a).
Proof. by intros s o e. Qed.

Lemma raises_only_yield E o : raises_only E (yield o).
Proof. by intros s o' e. Qed.

Lemma raises_only_raise {A} (E : error → Prop) e : E e → raises_only E (@raise A e).
Proof. intros He s o e'. by intros [= _ <-]. Qed.

Lemma raises_only_bind {A B} E (m : Gen A) (k : A → Gen B) :
  raises_only E m → (∀ a, raises_only E (k a)) → raises_only E (bind m k).
Proof.
  intros Hm Hk s o e. unfold bind.
  destruct (m s) as [o1 [e1|[a s1]]] eqn:Hms.
  - intros [= _ <-]. by eapply Hm.
  - destruct (k a s1) as [o2 r2] eqn:Hks. intros [= _ ->]. by eapply Hk.
Qed.

Lemma raises_only_for_each {A} E (l : list A) (body : A → Gen unit) :
  (∀ x, raises_only E (body x)) → raises_only E (for_each l body).
Proof.
  intros Hb. induction l as [|x l IH]; simpl.
  - apply raises_only_ret.
  - apply raises_only_bind; auto.
Qed.


Lemma never_raises_total {A} (m : Gen A) s :
  raises_only never m → ∃ o a s', m s = (o, inr (a, s')).
Proof.
  intros Hm. destruct (m s) as [o [e|[a s']]] eqn:Hms; [|by eauto].
  by destruct (Hm s o e Hms).
Qed.

Lemma raises_only_for_each_in {A} E (l : list A) (body : A → Gen unit) :
  (∀ x, x ∈ l → raises_only E (body x)) → raises_only E (for_each l body).
Proof.
  induction l as [|x l IH]; intros Hb; simpl.
  - apply raises_only_ret.
  - apply raises_only_bind; [apply Hb; by left|intros _].
    apply IH. intros y Hy. apply Hb. by right.
Qed.

Lemma raises_only_for_fold_in {A S} E (l : list A) (body : S → A → Gen S) s0 :
  (∀ st x, x ∈ l → raises_only E (body st x)) →
  raises_only E (for_fold l body s0).
Proof.
  revert s0. induction l as [|x l IH]; intros s0 Hb; simpl.
  - apply raises_only_ret.
  - apply raises_only_bind; [apply Hb; by left|intros s1].
    apply IH. intros st y Hy. apply Hb. by right.
Qed.

Lemma getitem_raises {A} (E : error → Prop) key (value : option A) :
  (∀ k, E (KeyError k)) → raises_only E (getitem key value).
Proof.
  intros HE. destruct value; [apply raises_only_ret|by apply raises_only_raise].
Qed.

Lemma gen_content_raises E g rev :
  (∀ k, E (KeyError k)) → raises_only E (gen_content g rev).
Proof.
  intros HE. unfold gen_content.
  destruct (with_content g); [|apply raises_only_ret].
  apply raises_only_bind; [by intros s o e|]. intros tid.
  apply raises_only_bind; [|intros _; apply raises_only_ret].
  unfold gen_text.
  apply raises_only_bind; [by apply getitem_raises|].
  intros c. apply raises_only_yield.
Qed.

Lemma gen_revisions_body_raises E g page rev :
  (∀ k, E (KeyError k)) → raises_only E (gen_revisions_body g page rev).
Proof.
  intros HE. unfold gen_revisions_body.
  repeat (apply raises_only_bind; [by apply getitem_raises|intros ?]).
  apply raises_only_bind; [by apply gen_content_raises|intros ?].
  apply raises_only_bind; [apply raises_only_yield|intros _].
  apply raises_only_for_each. intros tag. apply raises_only_yield.
Qed.

Lemma gen_deletedrevisions_body_raises E g page rev :
  (∀ k, E (KeyError k)) → raises_only E (gen_deletedrevisions_body g page rev).
Proof.
  intros HE. unfold gen_deletedrevisions_body. cbv zeta.
  repeat (apply raises_only_bind; [by apply getitem_raises|intros ?]).
  apply raises_only_bind; [by apply gen_content_raises|intros ?].
  apply raises_only_bind; [apply raises_only_yield|intros _].
  apply raises_only_for_each. intros tag. apply raises_only_yield.
Qed.

Lemma gen_revisions_raises E g page :
  (∀ k, E (KeyError k)) → raises_only E (gen_revisions g page).
Proof.
  intros HE. apply raises_only_for_each. intros rev.
  by apply gen_revisions_body_raises.
Qed.

Lemma gen_deletedrevisions_raises E g page :
  (∀ k, E (KeyError k)) → raises_only E (gen_deletedrevisions g page).
Proof.
  intros HE. apply raises_only_for_each. intros rev.
  by apply gen_deletedrevisions_body_raises.
Qed.









(** ** Unsupported continuations *)

Lemma gen_new_deleted_chunk_continue g since nr chunk s :
  has_drvcontinue
    (api_call_api g (QueryDeletedrevisions chunk (with_content g) since)) = true →
  gen_new_deleted_chunk g since nr chunk s = ([], inl NotImplemented_drvcontinue).
Proof. unfold gen_new_deleted_chunk. by intros ->. Qed.

Lemma gen_imported_chunk_continue g nr chunk s :
  has_rvcontinue (api_call_api g (QueryImported chunk (with_content g))) = true
  ∨ has_drvcontinue (api_call_api g (QueryImported chunk (with_content g))) = true →
  gen_imported_chunk g nr chunk s = ([], inl NotImplemented_rvcontinue).
Proof.
  unfold gen_imported_chunk. intros [->| ->]; [done|].
  by rewrite orb_true_r.
Qed.

(** C4 (what the code does).  The grabber looks for the continuation key
    among the top-level keys of the result: with "drvcontinue" there, the
    chunk raises [NotImplementedError] at once.  But the result is the raw
    response, which carries the tokens inside the object under its key
    "continue".  For a window in which the page "A" was deleted and page 3
    imported, and both results were cut short and carry their token there,
    neither test fires: the update yields the revisions of the truncated
    results and completes. *)
Theorem nested_continuation_token_not_detected :
  gen_new_deleted_chunk continued_grabber 0 ∅ ["A"] NotStarted
    = ([], inl NotImplemented_drvcontinue)
  ∧ "drvcontinue"
    ∈ continue_keys (api_call_api truncated_grabber
                                  (QueryDeletedrevisions ["A"] false 0))
  ∧ "rvcontinue"
    ∈ continue_keys (api_call_api truncated_grabber (QueryImported [3] false))
  ∧ gen_update truncated_grabber 0 NotStarted
    = ([InsertArchive
          {| ar_namespace := 0; ar_title := "A"; ar_rev_id := 10;
             ar_page_id := None; ar_comment := "c"; ar_user := 1;
             ar_user_text := "u"; ar_timestamp := 50; ar_minor_edit := false;
             ar_len := 3; ar_sha1 := "h"; ar_content_model := "wikitext";
             ar_content_format := None; ar_text_id := None |};
        InsertRevision
          {| rev_id := 20; rev_page := Some 3; rev_comment := "c";
             rev_user := 1; rev_user_text := "u"; rev_timestamp := 60;
             rev_minor_edit := false; rev_len := 3; rev_parent_id := None;
             rev_sha1 := "h"; rev_content_model := "wikitext";
             rev_content_format := None; rev_text_id := None |}],
       inr (tt, NotStarted)).
Proof.
  split; [reflexivity|]. split; [by left|]. split; [by left|].
  vm_compute. reflexivity.
Qed.

(** ** The merge safeguard *)

(** A merged page that was also moved stops the loop of the merges with
    [NotImplementedError], and no merge of that page is yielded. *)
Lemma gen_merge_conflict merged moved pageid s :
  pageid ∈ merged.*1 → pageid ∈ moved →
  (gen_merge merged moved s).2 = inl NotImplemented_merge
  ∧ ∀ dns dt mp, MergeRevision pageid dns dt mp ∉ (gen_merge merged moved s).1.
Proof.
  intros Hin Hmv. unfold gen_merge.
  induction merged as [|[p params] merged IH]; simpl in *.
  - by apply elem_of_nil in Hin.
  - unfold bind. case_bool_decide as Hp; simpl.
    + split; [done|]. intros dns dt mp. apply not_elem_of_nil.
    + apply elem_of_cons in Hin as [->|Hin]; [done|].
      destruct (IH Hin) as [Hout Hops].
      destruct (for_each merged _ s) as [o r]. simpl in *. split; [done|].
      intros dns dt mp [[= -> _ _ _]|Hin']%elem_of_cons; [done|].
      by eapply Hops.
Qed.

(** C2 (the error as the code raises it).  In a window whose log holds a
    merge of page [p] and a move of the same page, the update ends with
    [NotImplementedError] before it yields anything; the message is the
    format string itself, with both placeholders unfilled, whatever [p]
    is. *)
Theorem merge_conflict_error_names_no_page (p : Z) :
  gen_update
    (set_logevents (λ _, [LeMerge p 0 "Target" 100; LeMove p]) quiet_grabber)
    0 NotStarted
  = ([], inl (NotImplementedError
       "Cannot merge revisions from [[{}]] to [[{}]]: target page has been moved.")).
Proof.
  unfold gen_update, gen_update_from_log, bind, gen_merge. simpl.
  unfold bind. simpl. rewrite bool_decide_eq_true_2 by set_solver. done.
Qed.

(** ** New revisions and the tag events *)

(** A tag event for a revision of the live feed is skipped. *)
Lemma tag_update_new_live_revision_skipped nr ndr st revid a r :
  revid ∈ nr → process_le nr ndr st (LeTagUpdate (Some revid) a r) = inr st.
Proof.
  intros Hin. simpl. rewrite bool_decide_eq_false_2; [done|]. by intros [? _].
Qed.

(** C3 (what the code does).  The tag event of a revision that arrives with
    the imported pages, or with the deleted revisions, is not skipped: after
    the insert of the revision and of its tag, the update of the tags yields
    the tag once more, for the imported live revision into the archived tag
    links. *)
Theorem tag_event_of_new_revision_not_skipped :
  emitted (gen_update imported_tagged_grabber 0) NotStarted
  = [InsertRevision
       {| rev_id := 10; rev_page := Some 3; rev_comment := "c"; rev_user := 1;
          rev_user_text := "u"; rev_timestamp := 50; rev_minor_edit := false;
          rev_len := 3; rev_parent_id := None; rev_sha1 := "h";
          rev_content_model := "wikitext"; rev_content_format := None;
          rev_text_id := None |};
     InsertTaggedRevision 10 "t";
     InsertTaggedArchivedRevision 10 "t"]
  ∧ emitted (gen_update deleted_tagged_grabber 0) NotStarted
    = [InsertArchive
         {| ar_namespace := 0; ar_title := "A"; ar_rev_id := 10;
            ar_page_id := None; ar_comment := "c"; ar_user := 1;
            ar_user_text := "u"; ar_timestamp := 50; ar_minor_edit := false;
            ar_len := 3; ar_sha1 := "h"; ar_content_model := "wikitext";
            ar_content_format := None; ar_text_id := None |};
       InsertTaggedArchivedRevision 10 "t";
       InsertTaggedArchivedRevision 10 "t"].
Proof. split; vm_compute; reflexivity. Qed.

(** ** The text-ID generator within a run *)

Lemma consecutive_app a n m :
  consecutive a (n + m) = consecutive a n ++ consecutive (a + Z.of_nat n) m.
Proof.
  revert a. induction n as [|n IH]; intros a; simpl.
  - by rewrite Z.add_0_r.
  - rewrite IH. do 3 f_equal. lia.
Qed.

Lemma consecutive_lookup a n (i : nat) x :
  consecutive a n !! i = Some x → x = a + Z.of_nat i ∧ (i < n)%nat.
Proof.
  revert a i. induction n as [|n IH]; intros a i; simpl; [done|].
  destruct i as [|i]; simpl.
  - intros [= <-]. lia.
  - intros Hl. apply IH in Hl. lia.
Qed.

Lemma consecutive_NoDup a n : NoDup (consecutive a n).
Proof.
  apply NoDup_alt. intros i j x Hi Hj.
  apply consecutive_lookup in Hi, Hj. lia.
Qed.

Lemma max_old_id_bound (t : gmap Z text_row) k :
  k ∈ dom t → ∃ m, max_old_id t = Some m ∧ k ≤ m.
Proof.
  unfold max_old_id. rewrite <-elem_of_elements.
  induction (elements (dom t)) as [|k' l IH]; simpl.
  - by intros ?%elem_of_nil.
  - intros [->|Hin]%elem_of_cons.
    + destruct (foldr _ _ l); eexists; (split; [done|lia]).
    + destruct (IH Hin) as (m & -> & Hle). eexists. split; [done|lia].
Qed.

Lemma allocates_ret g {A} (a : A) : allocates g (ret a).
Proof. intros s o r [= <- <-]. split; [done|]. intros ? ? [= _ <-]. simpl. lia. Qed.

Lemma allocates_raise g {A} e : allocates g (@raise A e).
Proof. intros s o r [= <- <-]. split; [done|]. done. Qed.

Lemma allocates_yield g o : text_ids [o] = [] → allocates g (yield o).
Proof.
  intros Ho s o' r [= <- <-]. rewrite Ho. split; [done|].
  intros ? ? [= _ <-]. simpl. lia.
Qed.

Lemma allocates_bind g {A B} (m : Gen A) (k : A → Gen B) :
  allocates g m → (∀ a, allocates g (k a)) → allocates g (bind m k).
Proof.
  intros Hm Hk s o r. unfold bind.
  destruct (m s) as [o1 [e1|[a s1]]] eqn:Hms.
  - intros [= <- <-]. destruct (Hm _ _ _ Hms) as [H1 _]. by split.
  - destruct (k a s1) as [o2 r2] eqn:Hks. intros [= <- <-].
    destruct (Hm _ _ _ Hms) as [H1 H1'].
    destruct (Hk a _ _ _ Hks) as [H2 H2'].
    specialize (H1' _ _ eq_refl). rewrite H1' in H2.
    unfold text_ids in *. rewrite omap_app, length_app, consecutive_app.
    split.
    + rewrite <-H1. f_equal. rewrite H2 at 1. f_equal. lia.
    + intros b s' ->. rewrite (H2' _ _ eq_refl), H1'. lia.
Qed.

Lemma allocates_for_each g {A} (l : list A) (body : A → Gen unit) :
  (∀ x, allocates g (body x)) → allocates g (for_each l body).
Proof.
  intros Hb. induction l as [|x l IH]; simpl.
  - apply allocates_ret.
  - apply allocates_bind; auto.
Qed.

Lemma allocates_for_fold g {A S} (l : list A) (body : S → A → Gen S) s0 :
  (∀ st x, allocates g (body st x)) → allocates g (for_fold l body s0).
Proof.
  intros Hb. revert s0. induction l as [|x l IH]; intros s0; simpl.
  - apply allocates_ret.
  - apply allocates_bind; auto.
Qed.

Lemma allocates_lift g {A} (r : error + A) : allocates g (lift r).
Proof. destruct r; [apply allocates_raise|apply allocates_ret]. Qed.

Lemma allocates_getitem g {A} key (value : option A) :
  allocates g (getitem key value).
Proof. destruct value; [apply allocates_ret|apply allocates_raise]. Qed.

(** One allocation together with the blob it is used for; when the text of
    the revision is missing, the run ends there and no blob follows. *)
Lemma allocates_gen_content g rev : allocates g (gen_content g rev).
Proof.
  unfold gen_content. destruct (with_content g); [|apply allocates_ret].
  intros s o r. unfold bind, next_text_id, gen_text, getitem.
  destruct (rv_content rev) as [content|]; simpl; intros [= <- <-].
  - split; [by destruct s|]. intros ? ? [= _ <-]. destruct s; simpl; lia.
  - split; [done|]. done.
Qed.

Create HintDb alloc.
#[local] Hint Resolve allocates_ret allocates_raise allocates_bind
  allocates_for_each allocates_for_fold allocates_lift allocates_getitem
  allocates_gen_content : alloc.
#[local] Hint Extern 1 (allocates _ (yield _)) =>
  apply allocates_yield; reflexivity : alloc.

Lemma allocates_gen_revisions g page : allocates g (gen_revisions g page).
Proof. unfold gen_revisions, gen_revisions_body. auto 20 with alloc. Qed.

Lemma allocates_gen_deletedrevisions g page :
  allocates g (gen_deletedrevisions g page).
Proof.
  unfold gen_deletedrevisions, gen_deletedrevisions_body. auto 20 with alloc.
Qed.
#[local] Hint Resolve allocates_gen_revisions allocates_gen_deletedrevisions
  : alloc.

Lemma allocates_gen_page_deletedrevisions g nr p :
  allocates g (gen_page_deletedrevisions g nr p).
Proof.
  unfold gen_page_deletedrevisions. destruct (qp_deletedrevisions p);
    auto 10 with alloc.
Qed.

Lemma allocates_gen_page_revisions g nr p :
  allocates g (gen_page_revisions g nr p).
Proof.
  unfold gen_page_revisions. destruct (qp_revisions p); auto 10 with alloc.
Qed.
#[local] Hint Resolve allocates_gen_page_deletedrevisions
  allocates_gen_page_revisions : alloc.

Lemma allocates_gen_update_from_log g since nr st :
  allocates g (gen_update_from_log g since nr st).
Proof.
  unfold gen_update_from_log, gen_undelete, gen_new_deleted, gen_imported,
    gen_new_deleted_chunk, gen_imported_chunk, gen_merge, gen_deleted,
    gen_added_tags, gen_removed_tags.
  repeat (apply allocates_bind; [|intros ?]);
    try (apply allocates_for_each; intros []);
    try (apply allocates_for_fold; intros ? ?);
    repeat match goal with
           | |- allocates _ (if ?b then _ else _) => destruct b
           | |- allocates _ (for_each _ _) => apply allocates_for_each; intros ?
           end;
    auto 10 with alloc.
Qed.

Lemma allocates_run g since :
  allocates g (new_revids <- gen_new_revisions g since ;;
               st <- lift (process_log new_revids ∅ (logevents_list g since)
                                       init_log_state) ;;
               gen_update_from_log g since new_revids st).
Proof.
  apply allocates_bind.
  - apply allocates_for_fold. intros nr page. simpl. auto with alloc.
  - intros nr. apply allocates_bind; [apply allocates_lift|].
    intros st. apply allocates_gen_update_from_log.
Qed.

Lemma allocates_after_reset g {A} (m : Gen A) s :
  allocates g m →
  text_ids (emitted (_get_text_id_gen ;;; m) s)
  = consecutive (default 0 (db_max_old_id g) + 1)
                (length (text_ids (emitted (_get_text_id_gen ;;; m) s))).
Proof.
  intros Ha. unfold emitted, bind, _get_text_id_gen.
  destruct (m NotStarted) as [o r] eqn:Hrun. simpl.
  by destruct (Ha _ _ _ Hrun) as [H _].
Qed.

Lemma gen_update_text_ids g since s :
  text_ids (emitted (gen_update g since) s)
  = consecutive (default 0 (db_max_old_id g) + 1)
                (length (text_ids (emitted (gen_update g since) s))).
Proof. apply allocates_after_reset, allocates_run. Qed.

Lemma gen_insert_text_ids g s :
  text_ids (emitted (gen_insert g) s)
  = consecutive (default 0 (db_max_old_id g) + 1)
                (length (text_ids (emitted (gen_insert g) s))).
Proof. apply allocates_after_reset. auto 10 with alloc. Qed.

(** C7.  The generator of a run starts from the maximum stored blob ID, or
    from 0 when there is none, and each [next] returns the previous value
    plus one.  Hence the IDs that a run (an update or a full insert) stores
    blobs under are the consecutive integers after the seed: each is greater
    than the IDs allocated before it and than every blob ID stored when the
    seed was read, and none occurs twice. *)
Theorem text_id_allocation g :
  value_of g NotStarted = default 0 (db_max_old_id g)
  ∧ (∀ s, next_text_id g s
          = ([], inr (value_of g s + 1, Suspended (value_of g s + 1))))
  ∧ (∀ since s ids,
       ids = text_ids (emitted (gen_update g since) s)
       ∨ ids = text_ids (emitted (gen_insert g) s) →
       ids = consecutive (default 0 (db_max_old_id g) + 1) (length ids)
       ∧ (∀ (i j : nat) x y,
            ids !! i = Some x → ids !! j = Some y → (i < j)%nat → x < y)
       ∧ NoDup ids
       ∧ (∀ (t : gmap Z text_row) k x,
            db_max_old_id g = max_old_id t → k ∈ dom t → x ∈ ids → k < x)).
Proof.
  split; [done|]. split; [by intros []|].
  intros since s ids Hids.
  assert (ids = consecutive (default 0 (db_max_old_id g) + 1) (length ids))
    as Hc.
  { destruct Hids as [-> | ->];
      [apply gen_update_text_ids|apply gen_insert_text_ids]. }
  split; [done|]. split; [|split].
  - intros i j x y Hi Hj Hlt. rewrite Hc in Hi, Hj.
    apply consecutive_lookup in Hi, Hj. lia.
  - rewrite Hc. apply consecutive_NoDup.
  - intros t k x Hmax Hk Hx.
    destruct (max_old_id_bound t k Hk) as (m & Hm & Hle).
    rewrite Hc in Hx. apply list_elem_of_lookup in Hx as [i Hi].
    apply consecutive_lookup in Hi. rewrite Hmax, Hm in Hi. simpl in Hi. lia.
Qed.

Lemma text_id_allocation_witness :
  text_ids (emitted (gen_insert content_grabber) NotStarted) = [5; 6]
  ∧ ∀ x, x ∈ text_ids (emitted (gen_insert content_grabber) NotStarted) → 4 < x.
Proof.
  destruct (text_id_allocation content_grabber) as (_ & _ & H).
  destruct (H 0 NotStarted _ (or_intror eq_refl)) as (Hc & _ & _ & Hmax).
  split.
  - rewrite Hc. reflexivity.
  - intros x Hx.
    apply (Hmax {[ 4 := {| col_old_text := "x"; col_old_flags := "utf-8" |} ]}
                4 x); [reflexivity| |done].
    rewrite dom_singleton_L. by apply elem_of_singleton.
Defined.

(** ** The upserts of revisions *)

(** C9.  An insert of a revision (of an archived revision) whose revision ID
    is already stored changes the text ID of the stored row to the proposed
    one and nothing else: the other columns of that row, every other row,
    and every other relation stay as they were. *)
Theorem upsert_conflict_updates_only_text_id :
  (∀ d e r,
     db_revision d !! rev_id e = Some r →
     ∃ d' r',
       execute d (InsertRevision e) = Some d'
       ∧ db_revision d' !! rev_id e = Some r'
       ∧ col_rev_text_id r' = rev_text_id e
       ∧ revision_rows_agree r r'
       ∧ (∀ k, k ≠ rev_id e → db_revision d' !! k = db_revision d !! k)
       ∧ with_revision (db_revision d) d' = d)
  ∧ (∀ d e r,
       db_archive d !! ar_rev_id e = Some r →
       ∃ d' r',
         execute d (InsertArchive e) = Some d'
         ∧ db_archive d' !! ar_rev_id e = Some r'
         ∧ col_ar_text_id r' = ar_text_id e
         ∧ archive_rows_agree r r'
         ∧ (∀ k, k ≠ ar_rev_id e → db_archive d' !! k = db_archive d !! k)
         ∧ with_archive (db_archive d) d' = d).
Proof.
  split.
  - intros d e r Hr. eexists _, (set_rev_text_id (rev_text_id e) r).
    simpl. unfold insert_revision. rewrite Hr. simpl.
    split; [done|]. split; [apply lookup_insert_eq|]. split; [done|].
    split; [by repeat split|]. split.
    + intros k Hk. by apply lookup_insert_ne.
    + by destruct d.
  - intros d e r Hr. eexists _, (set_ar_text_id (ar_text_id e) r).
    simpl. unfold insert_archive. rewrite Hr. simpl.
    split; [done|]. split; [apply lookup_insert_eq|]. split; [done|].
    split; [by repeat split|]. split.
    + intros k Hk. by apply lookup_insert_ne.
    + by destruct d.
Qed.

Lemma upsert_conflict_updates_only_text_id_witness :
  (∃ d' r', execute (with_revision {[ 10 := stored_revision ]} empty_db)
                    (InsertRevision proposed_revision) = Some d'
            ∧ db_revision d' !! 10 = Some r'
            ∧ col_rev_text_id r' = Some 7
            ∧ col_rev_comment r' = "old" ∧ col_rev_page r' = Some 3)
  ∧ (∃ d' r', execute (with_archive {[ 10 := stored_archived ]} empty_db)
                      (InsertArchive proposed_archived) = Some d'
              ∧ db_archive d' !! 10 = Some r'
              ∧ col_ar_text_id r' = Some 7
              ∧ col_ar_title r' = "A" ∧ col_ar_page_id r' = Some 3).
Proof.
  destruct upsert_conflict_updates_only_text_id as [Hrev Har].
  split.
  - destruct (Hrev (with_revision {[ 10 := stored_revision ]} empty_db)
                   proposed_revision stored_revision)
      as (d' & r' & Hex & Hl & Ht & Hagree & _); [by vm_compute|].
    exists d', r'. destruct Hagree as (Hp & Hc & _). by repeat split.
  - destruct (Har (with_archive {[ 10 := stored_archived ]} empty_db)
                  proposed_archived stored_archived)
      as (d' & r' & Hex & Hl & Ht & Hagree & _); [by vm_compute|].
    exists d', r'. destruct Hagree as (_ & Hti & Hp & _). by repeat split.
Defined.

(** ** Restoring a page *)

Lemma archived_of_page_lookup pid d k :
  archived_of_page pid d !! k
  = match db_archive d !! k with
    | Some r => if bool_decide (col_ar_page_id r = Some pid) then Some r else None
    | None => None
    end.
Proof.
  unfold archived_of_page. rewrite map_lookup_filter.
  destruct (db_archive d !! k) as [r|]; simpl; [|done].
  case_bool_decide.
  - by rewrite option_guard_True.
  - by rewrite option_guard_False.
Qed.

Lemma archived_of_page_dom pid d k :
  k ∈ dom (archived_of_page pid d) ↔ archived_under pid d k.
Proof.
  rewrite elem_of_dom, archived_of_page_lookup. unfold archived_under.
  destruct (db_archive d !! k) as [r|]; simpl.
  - case_bool_decide; split.
    + intros _. by exists r.
    + by eauto.
    + by intros [? ?].
    + intros (r' & [= <-] & ?). done.
  - split; [by intros [? ?]|by intros (? & ? & ?)].
Qed.

Lemma execute_update_ar_page_id d ns t pid :
  ∃ d', execute d (UpdateArchiveArPageId ns [t] pid) = Some d'
        ∧ (∀ k, db_archive d' !! k
                = (λ r, if bool_decide (col_ar_namespace r = ns ∧
                                        col_ar_title r = t)
                        then set_ar_page_id (Some pid) r else r)
                    <$> db_archive d !! k)
        ∧ with_archive (db_archive d) d' = d.
Proof.
  eexists. split; [done|]. simpl. split; [|by destruct d].
  intros k. rewrite lookup_fmap. destruct (db_archive d !! k) as [r|]; [|done].
  simpl. f_equal. repeat case_bool_decide; simpl; try done; naive_solver.
Qed.

Lemma execute_move_tags d pid :
  filter (λ rt, rt.1 ∈ dom (archived_of_page pid d))
         (db_tagged_archived_revision d) ## db_tagged_revision d →
  ∃ d', execute d (MoveTaggedArchivedRevision pid) = Some d'
        ∧ (∀ rev tag,
             (rev, tag) ∈ db_tagged_archived_revision d' ↔
             (rev, tag) ∈ db_tagged_archived_revision d
             ∧ ¬ archived_under pid d rev)
        ∧ (∀ rev tag,
             (rev, tag) ∈ db_tagged_revision d' ↔
             (rev, tag) ∈ db_tagged_revision d
             ∨ ((rev, tag) ∈ db_tagged_archived_revision d
                ∧ archived_under pid d rev))
        ∧ with_tagged_revision (db_tagged_revision d)
            (with_tagged_archived_revision (db_tagged_archived_revision d) d')
          = d.
Proof.
  intros Hdis. eexists. simpl. rewrite bool_decide_eq_true_2 by done.
  split; [done|]. simpl. split; [|split; [|by destruct d]].
  - intros rev tag. rewrite elem_of_difference, elem_of_filter. simpl.
    rewrite archived_of_page_dom. tauto.
  - intros rev tag. rewrite elem_of_union, elem_of_filter. simpl.
    rewrite archived_of_page_dom. tauto.
Qed.

Lemma execute_move_revision d pid :
  dom (archived_of_page pid d) ## dom (db_revision d) →
  ∃ d', execute d (MoveRevision pid) = Some d'
        ∧ (∀ k, db_archive d' !! k
                = match db_archive d !! k with
                  | Some r => if bool_decide (col_ar_page_id r = Some pid)
                              then None else Some r
                  | None => None
                  end)
        ∧ (∀ k, db_revision d' !! k
                = match db_archive d !! k with
                  | Some r => if bool_decide (col_ar_page_id r = Some pid)
                              then Some (revision_of_archive r)
                              else db_revision d !! k
                  | None => db_revision d !! k
                  end)
        ∧ with_revision (db_revision d) (with_archive (db_archive d) d') = d.
Proof.
  intros Hdis. eexists. unfold execute.
  rewrite bool_decide_eq_true_2 by exact Hdis.
  split; [done|]. simpl. split; [|split; [|by destruct d]].
  - intros k. rewrite map_lookup_filter.
    destruct (db_archive d !! k) as [r|]; simpl; [|done].
    case_bool_decide.
    + rewrite option_guard_False; [done|]. simpl. by intros Hn.
    + by rewrite option_guard_True.
  - intros k. rewrite lookup_union, lookup_fmap, archived_of_page_lookup.
    destruct (db_archive d !! k) as [r|] eqn:Hk; simpl.
    + case_bool_decide as Hp; simpl.
      * assert (db_revision d !! k = None) as ->; [|done].
        apply not_elem_of_dom. intros Hin. apply (Hdis k); [|done].
        apply archived_of_page_dom. by exists r.
      * by rewrite (left_id_L None _).
    + by rewrite (left_id_L None _).
Qed.

(** C8 as the code has it.  For every restored title the update yields three
    operations in this order: the update of [archive.ar_page_id], the move of
    the tag links, the move of the revisions; they are the first operations
    after those of the live revisions.  The update sets the page ID of every
    archived row with the namespace and the title of the page, whatever page
    ID the row had; each move takes the rows archived under the page ID out
    of the archived relation and puts them into the live one.  A title is
    restored at most once per window, so these are the only three. *)
Theorem restore_page_operations :
  (∀ g up s,
     gen_undelete g up s
     = (flat_map (λ '(t, pid),
          [UpdateArchiveArPageId (namespacenumber (Title g t))
             [dbtitle (Title g t) (namespacenumber (Title g t))] pid;
           MoveTaggedArchivedRevision pid;
           MoveRevision pid]) up,
        inr (tt, s)))
  ∧ (∀ g since nr st s,
       ∃ rest, emitted (gen_update_from_log g since nr st) s
               = emitted (gen_undelete g (undeleted_pages st)) s ++ rest)
  ∧ (∀ d ns t pid,
       ∃ d', execute d (UpdateArchiveArPageId ns [t] pid) = Some d'
             ∧ (∀ k, db_archive d' !! k
                     = (λ r, if bool_decide (col_ar_namespace r = ns ∧
                                             col_ar_title r = t)
                             then set_ar_page_id (Some pid) r else r)
                         <$> db_archive d !! k)
             ∧ with_archive (db_archive d) d' = d)
  ∧ (∀ d pid,
       filter (λ rt, rt.1 ∈ dom (archived_of_page pid d))
              (db_tagged_archived_revision d) ## db_tagged_revision d →
       ∃ d', execute d (MoveTaggedArchivedRevision pid) = Some d'
             ∧ (∀ rev tag,
                  (rev, tag) ∈ db_tagged_archived_revision d' ↔
                  (rev, tag) ∈ db_tagged_archived_revision d
                  ∧ ¬ archived_under pid d rev)
             ∧ (∀ rev tag,
                  (rev, tag) ∈ db_tagged_revision d' ↔
                  (rev, tag) ∈ db_tagged_revision d
                  ∨ ((rev, tag) ∈ db_tagged_archived_revision d
                     ∧ archived_under pid d rev))
             ∧ with_tagged_revision (db_tagged_revision d)
                 (with_tagged_archived_revision
                    (db_tagged_archived_revision d) d') = d)
  ∧ (∀ d pid,
       dom (archived_of_page pid d) ## dom (db_revision d) →
       ∃ d', execute d (MoveRevision pid) = Some d'
             ∧ (∀ k, db_archive d' !! k
                     = match db_archive d !! k with
                       | Some r => if bool_decide (col_ar_page_id r = Some pid)
                                   then None else Some r
                       | None => None
                       end)
             ∧ (∀ k, db_revision d' !! k
                     = match db_archive d !! k with
                       | Some r => if bool_decide (col_ar_page_id r = Some pid)
                                   then Some (revision_of_archive r)
                                   else db_revision d !! k
                       | None => db_revision d !! k
                       end)
             ∧ with_revision (db_revision d)
                 (with_archive (db_archive d) d') = d)
  ∧ (∀ nr ndr les st,
       process_log nr ndr les init_log_state = inr st →
       NoDup (undeleted_pages st).*1).
Proof.
  split; [|split; [|split; [|split; [|split]]]]; cycle 5.
  { intros nr ndr les st Hst.
    eapply process_log_undeleted_NoDup; [done|]. simpl. constructor. }
  - intros g up s. rewrite gen_undelete_run. f_equal.
    induction up as [|[t pid] up IH]; simpl; [done|]. by rewrite IH.
  - intros g since nr st s. unfold emitted, gen_update_from_log.
    rewrite (bind_ok _ _ _ _ _ _ (gen_undelete_run g _ s)).
    rewrite gen_undelete_run. simpl. eauto.
  - apply execute_update_ar_page_id.
  - apply execute_move_tags.
  - apply execute_move_revision.
Qed.

Lemma restore_page_operations_witness :
  emitted (gen_update restore_grabber 0) NotStarted
  = [UpdateArchiveArPageId 0 ["A"] 7; MoveTaggedArchivedRevision 7;
     MoveRevision 7]
  ∧ ∃ d1 d2 d3,
      execute archived_replica (UpdateArchiveArPageId 0 ["A"] 7) = Some d1
      ∧ execute d1 (MoveTaggedArchivedRevision 7) = Some d2
      ∧ execute d2 (MoveRevision 7) = Some d3
      ∧ db_archive d3 !! 10 = None
      ∧ db_revision d3 !! 10
        = Some (revision_of_archive (set_ar_page_id (Some 7) archived_unknown))
      ∧ (10, 1) ∈ db_tagged_revision d3
      ∧ (10, 1) ∉ db_tagged_archived_revision d3.
Proof.
  destruct restore_page_operations as (Hops & _ & Hupd & Htags & Hrevs & _).
  split; [reflexivity|].
  destruct (Hupd archived_replica 0 "A" 7) as (d1 & Hd1 & Har1 & Hrest1).
  assert (d1 = with_archive
                 {[ 10 := set_ar_page_id (Some 7) archived_unknown ]}
                 archived_replica) as Hd1eq.
  { vm_compute in Hd1. injection Hd1 as <-. vm_compute. reflexivity. }
  destruct (Htags d1 7) as (d2 & Hd2 & Htg2 & Htr2 & Hrest2).
  { rewrite Hd1eq. apply (bool_decide_unpack _). vm_compute. exact I. }
  assert (d2 = with_tagged_revision {[ (10, 1) ]}
                 (with_tagged_archived_revision ∅ d1)) as Hd2eq.
  { rewrite Hd1eq in Hd2 |- *. vm_compute in Hd2. injection Hd2 as <-.
    vm_compute. reflexivity. }
  destruct (Hrevs d2 7) as (d3 & Hd3 & Har3 & Hrev3 & Hrest3).
  { rewrite Hd2eq, Hd1eq. apply (bool_decide_unpack _). vm_compute. exact I. }
  exists d1, d2, d3. split; [done|]. split; [done|]. split; [done|].
  rewrite Har3, Hrev3. rewrite Hd2eq, Hd1eq. simpl.
  rewrite lookup_singleton_eq. simpl.
  split; [done|]. split; [done|].
  assert (db_tagged_revision d3 = db_tagged_revision d2
          ∧ db_tagged_archived_revision d3 = db_tagged_archived_revision d2)
    as [-> ->].
  { rewrite <-Hrest3. by destruct d3. }
  rewrite Hd2eq. simpl. split; [by apply elem_of_singleton|].
  apply not_elem_of_empty.
Defined.

(** C8 as stated fails.  An archived row of the restored title that already
    has a page ID (3, of an earlier life of the title) is not left alone by
    the first operation of the restore: its page ID becomes 7. *)
Lemma restore_update_overwrites_known_page_id :
  ∃ o ops d',
    emitted (gen_update restore_grabber 0) NotStarted = o :: ops
    ∧ execute (with_archive {[ 10 := stored_archived ]} empty_db) o = Some d'
    ∧ col_ar_page_id stored_archived = Some 3
    ∧ col_ar_page_id <$> db_archive d' !! 10 = Some (Some 7).
Proof.
  eexists _, _, _. split; [reflexivity|]. split; [reflexivity|].
  split; [reflexivity|]. vm_compute. reflexivity.
Qed.

(** ** Executing an operation again *)

Lemma moved_again_empty pid d d' :
  db_archive d' = filter (λ kr, col_ar_page_id kr.2 ≠ Some pid) (db_archive d) →
  archived_of_page pid d' = ∅.
Proof.
  intros Hd'. apply map_eq. intros k. rewrite archived_of_page_lookup, Hd'.
  rewrite lookup_empty, map_lookup_filter.
  destruct (db_archive d !! k) as [r|]; simpl; [|done].
  destruct (decide (col_ar_page_id r = Some pid)) as [Hp|Hp].
  - rewrite option_guard_False; [done|]. simpl. by intros Hn.
  - rewrite option_guard_True by done. simpl. by rewrite bool_decide_eq_false_2.
Qed.

Lemma db_eq (d d' : db) :
  db_text d = db_text d' → db_revision d = db_revision d' →
  db_archive d = db_archive d' →
  db_tagged_revision d = db_tagged_revision d' →
  db_tagged_archived_revision d = db_tagged_archived_revision d' →
  db_tag d = db_tag d' → db_page d = db_page d' → d = d'.
Proof. destruct d, d'; simpl; by intros -> -> -> -> -> -> ->. Qed.

Lemma execute_idempotent d o d' :
  execute d o = Some d' → execute d' o = Some d'.
Proof.
  destruct o; unfold execute.
  - intros [= <-]. f_equal. unfold insert_text, with_text. simpl.
    by rewrite insert_insert_eq.
  - intros [= <-]. f_equal. unfold insert_revision.
    destruct (db_revision d !! rev_id e) as [r|] eqn:Hr; simpl;
      rewrite lookup_insert_eq; unfold with_revision; simpl;
      by rewrite insert_insert_eq.
  - intros [= <-]. f_equal. unfold insert_archive.
    destruct (db_archive d !! ar_rev_id e) as [r|] eqn:Hr; simpl;
      rewrite lookup_insert_eq; unfold with_archive; simpl;
      by rewrite insert_insert_eq.
  - destruct (db_tag d !! b_tag_name) as [tid|] eqn:Ht; simpl; [|done].
    intros [= <-]. simpl. rewrite Ht. simpl. f_equal.
    apply db_eq; simpl; try done. set_solver.
  - destruct (db_tag d !! b_tag_name) as [tid|] eqn:Ht; simpl; [|done].
    intros [= <-]. simpl. rewrite Ht. simpl. f_equal.
    apply db_eq; simpl; try done. set_solver.
  - destruct (db_tag d !! b_tag_name) as [tid|] eqn:Ht; simpl.
    + intros [= <-]. simpl. rewrite Ht. f_equal.
      apply db_eq; simpl; try done. set_solver.
    + intros [= <-]. by rewrite Ht.
  - destruct (db_tag d !! b_tag_name) as [tid|] eqn:Ht; simpl.
    + intros [= <-]. simpl. rewrite Ht. f_equal.
      apply db_eq; simpl; try done. set_solver.
    + intros [= <-]. by rewrite Ht.
  - intros [= <-]. f_equal. apply db_eq; simpl; try done.
    rewrite <-map_fmap_compose. apply map_fmap_ext. intros k r _. simpl.
    destruct (bool_decide (col_ar_namespace r = b_namespace)
              && title_matches b_title (col_ar_title r)) eqn:Hc;
      simpl; by rewrite Hc.
  - intros [= <-]. f_equal. apply db_eq; simpl; try done.
    rewrite <-map_fmap_compose. apply map_fmap_ext. intros k r _. simpl.
    destruct (bool_decide (col_rev_page r = Some b_src_page_id)
              && bool_decide (col_rev_timestamp r ≤ b_mergepoint)) eqn:Hc;
      simpl; [|by rewrite Hc].
    by case_match.
  - intros [= <-]. f_equal. apply db_eq; simpl; try done.
    apply map_eq. intros k. destruct (decide (b_revid = k)) as [<-|Hne].
    + rewrite !lookup_alter_eq. by destruct (db_revision d !! b_revid).
    + by rewrite !lookup_alter_ne.
  - intros [= <-]. f_equal. apply db_eq; simpl; try done.
    apply map_eq. intros k. destruct (decide (b_revid = k)) as [<-|Hne].
    + rewrite !lookup_alter_eq. by destruct (db_archive d !! b_revid).
    + by rewrite !lookup_alter_ne.
  - case_bool_decide as Hdis; [|done]. intros [= <-].
    assert (archived_of_page b_page_id
              (with_tagged_revision
                 (db_tagged_revision d
                  ∪ filter (λ rt, rt.1 ∈ dom (archived_of_page b_page_id d))
                      (db_tagged_archived_revision d))
                 (with_tagged_archived_revision
                    (db_tagged_archived_revision d
                     ∖ filter (λ rt, rt.1 ∈ dom (archived_of_page b_page_id d))
                         (db_tagged_archived_revision d)) d))
            = archived_of_page b_page_id d) as -> by done.
    simpl.
    assert (filter (λ rt : Z * Z, rt.1 ∈ dom (archived_of_page b_page_id d))
              (db_tagged_archived_revision d
               ∖ filter (λ rt, rt.1 ∈ dom (archived_of_page b_page_id d))
                   (db_tagged_archived_revision d)) = ∅) as ->
      by set_solver.
    rewrite bool_decide_eq_true_2 by set_solver.
    f_equal. apply db_eq; simpl; try done; set_solver.
  - case_bool_decide as Hdis; [|done]. intros [= <-].
    rewrite (moved_again_empty b_page_id d) by done.
    rewrite bool_decide_eq_true_2 by set_solver.
    f_equal. apply db_eq; simpl; try done.
    + by rewrite fmap_empty, (left_id_L ∅ _).
    + apply map_filter_id. intros k r Hk. by apply map_lookup_filter_Some in Hk as [_ ?].
Qed.

(** ** The net effect of the tag events *)

Lemma tags_get_set_eq R s d : tags_get (dict_set R s d) R = s.
Proof. unfold tags_get. by rewrite dict_get_set_eq. Qed.

Lemma tags_get_set_ne R R' s d :
  R ≠ R' → tags_get (dict_set R s d) R' = tags_get d R'.
Proof. intros Hne. unfold tags_get. by rewrite dict_get_set_ne. Qed.

Lemma tags_get_setdefault R R' d :
  tags_get (tags_setdefault R d) R' = tags_get d R'.
Proof.
  unfold tags_setdefault. destruct (dict_get R d) eqn:Hd; [done|].
  destruct (decide (R = R')) as [<-|Hne].
  - rewrite tags_get_set_eq. unfold tags_get. by rewrite Hd.
  - by apply tags_get_set_ne.
Qed.

Lemma tags_setdefault_NoDup R d : NoDup d.*1 → NoDup (tags_setdefault R d).*1.
Proof.
  unfold tags_setdefault. destruct (dict_get R d); [done|].
  apply dict_set_NoDup.
Qed.

(** What one tag of an event does to the tags of revision [R'], when the
    event is about revision [R]. *)
Lemma tag_added_spec R a r t :
  let ar' := tag_added R (a, r) t in
  (∀ x, x ∈ tags_get ar'.1 R ↔
        x ∈ tags_get a R ∨ (x = t ∧ t ∉ tags_get r R))
  ∧ (∀ x, x ∈ tags_get ar'.2 R ↔ x ∈ tags_get r R ∧ x ≠ t)
  ∧ (∀ R', R' ≠ R →
       tags_get ar'.1 R' = tags_get a R' ∧ tags_get ar'.2 R' = tags_get r R')
  ∧ (NoDup a.*1 → NoDup ar'.1.*1)
  ∧ (NoDup r.*1 → NoDup ar'.2.*1).
Proof.
  simpl. case_bool_decide as Hin; simpl.
  - split; [intros x; naive_solver|]. split.
    { intros x. rewrite tags_get_set_eq. set_solver. }
    split; [|split; [done|apply dict_set_NoDup]].
    intros R' Hne. split; [done|]. by apply tags_get_set_ne.
  - split.
    { intros x. rewrite tags_get_set_eq, tags_get_setdefault. set_solver. }
    split; [intros x; set_solver|].
    split; [|split; [|done]].
    + intros R' Hne. split; [|done].
      rewrite tags_get_set_ne by done. apply tags_get_setdefault.
    + intros Hnd. by apply dict_set_NoDup, tags_setdefault_NoDup.
Qed.

Lemma foldl_tag_added R l a r :
  NoDup l →
  let ar' := foldl (tag_added R) (a, r) l in
  (∀ x, x ∈ tags_get ar'.1 R ↔
        x ∈ tags_get a R ∨ (x ∈ l ∧ x ∉ tags_get r R))
  ∧ (∀ x, x ∈ tags_get ar'.2 R ↔ x ∈ tags_get r R ∧ x ∉ l)
  ∧ (∀ R', R' ≠ R →
       tags_get ar'.1 R' = tags_get a R' ∧ tags_get ar'.2 R' = tags_get r R')
  ∧ (NoDup a.*1 → NoDup ar'.1.*1)
  ∧ (NoDup r.*1 → NoDup ar'.2.*1).
Proof.
  revert a r. induction l as [|t l IH]; intros a r Hnd.
  - simpl. repeat split; try done; set_solver.
  - apply NoDup_cons in Hnd as [Hni Hnd].
    change (foldl (tag_added R) (a, r) (t :: l))
      with (foldl (tag_added R) (tag_added R (a, r) t) l).
    destruct (tag_added_spec R a r t) as (Ha & Hr & Ho & Hna & Hnr).
    destruct (tag_added R (a, r) t) as [a1 r1]. cbn [fst snd] in *.
    destruct (IH a1 r1 Hnd) as (Ha' & Hr' & Ho' & Hna' & Hnr').
    cbv zeta. split; [|split; [|split; [|split]]].
    + intros x. rewrite Ha', Ha, Hr, elem_of_cons. clear -Hni.
      destruct (decide (x = t)) as [->|Hxt];
        destruct (decide (t ∈ tags_get r R)); tauto.
    + intros x. rewrite Hr', Hr, not_elem_of_cons. tauto.
    + intros R' Hne. destruct (Ho' R' Hne) as [-> ->]. by apply Ho.
    + auto.
    + auto.
Qed.

(** The loop over the removed tags is the loop over the added tags with the
    two dictionaries swapped. *)
Lemma tag_removed_swap R a r t :
  tag_removed R (a, r) t = prod_swap (tag_added R (r, a) t).
Proof. unfold tag_removed, tag_added. by case_bool_decide. Qed.

Lemma foldl_tag_removed_swap R l a r :
  foldl (tag_removed R) (a, r) l = prod_swap (foldl (tag_added R) (r, a) l).
Proof.
  revert a r. induction l as [|t l IH]; intros a r; [done|].
  change (foldl (tag_removed R) (a, r) (t :: l))
    with (foldl (tag_removed R) (tag_removed R (a, r) t) l).
  change (foldl (tag_added R) (r, a) (t :: l))
    with (foldl (tag_added R) (tag_added R (r, a) t) l).
  rewrite tag_removed_swap.
  destruct (tag_added R (r, a) t) as [r1 a1]. apply IH.
Qed.

Lemma foldl_tag_removed R l a r :
  NoDup l →
  let ar' := foldl (tag_removed R) (a, r) l in
  (∀ x, x ∈ tags_get ar'.2 R ↔
        x ∈ tags_get r R ∨ (x ∈ l ∧ x ∉ tags_get a R))
  ∧ (∀ x, x ∈ tags_get ar'.1 R ↔ x ∈ tags_get a R ∧ x ∉ l)
  ∧ (∀ R', R' ≠ R →
       tags_get ar'.1 R' = tags_get a R' ∧ tags_get ar'.2 R' = tags_get r R')
  ∧ (NoDup a.*1 → NoDup ar'.1.*1)
  ∧ (NoDup r.*1 → NoDup ar'.2.*1).
Proof.
  intros Hnd. cbv zeta. rewrite foldl_tag_removed_swap.
  destruct (foldl_tag_added R l r a Hnd) as (H1 & H2 & H3 & H4 & H5).
  destruct (foldl (tag_added R) (r, a) l) as [r1 a1]. simpl in *.
  split; [done|]. split; [done|]. split; [|by split].
  intros R' Hne. by destruct (H3 R' Hne).
Qed.

Lemma pending_of_cases a r R t :
  (∀ x, x ∈ tags_get a R → x ∉ tags_get r R) →
  (pending_of a r R t = PendingAdd ↔ t ∈ tags_get a R)
  ∧ (pending_of a r R t = PendingRemove ↔ t ∈ tags_get r R).
Proof.
  intros Hdis. unfold pending_of. repeat case_bool_decide; naive_solver.
Qed.

Lemma process_le_net nr ndr st le st' R t :
  process_le nr ndr st le = inr st' → R ∉ nr → R ∉ ndr → tags_wf st R →
  tags_wf st' R
  ∧ pending_of (added_tags st') (removed_tags st') R t
    = net_effect_le R t (pending_of (added_tags st) (removed_tags st) R t) le.
Proof.
  intros Hle Hnr Hndr (Hdis & Hna & Hnr').
  destruct le as [tt'|tt' pid|pt ids bm| |lp|lp dns dt mp|lp|[r|] a b|];
    simpl in Hle; try (injection Hle as <-; by split).
  { case_bool_decide; [|done]. injection Hle as <-. by split. }
  case_bool_decide as Hnew; [|injection Hle as <-; split; [done|]]; cycle 1.
  { simpl. rewrite bool_decide_eq_false_2; [done|]. intros ->. naive_solver. }
  case_bool_decide as Hassert; [|done]. injection Hle as <-.
  pose proof (NoDup_elements (list_to_set a : gset string)) as Hnda.
  pose proof (NoDup_elements (list_to_set b : gset string)) as Hndb.
  destruct (foldl_tag_added r (elements (list_to_set a : gset string))
              (added_tags st) (removed_tags st) Hnda)
    as (A1 & A2 & A3 & A4 & A5).
  destruct (foldl (tag_added r) _ _) as [a1 r1]. cbn [fst snd] in *.
  destruct (foldl_tag_removed r (elements (list_to_set b : gset string))
              a1 r1 Hndb) as (B1 & B2 & B3 & B4 & B5).
  destruct (foldl (tag_removed r) _ _) as [a2 r2]. cbn [fst snd] in *.
  unfold tags_wf. simpl.
  destruct (decide (r = R)) as [->|Hne].
  - assert (∀ x, x ∈ tags_get a2 R → x ∉ tags_get r2 R) as Hdis2.
    { intros x. rewrite B1, B2, A1, A2. set_solver. }
    split; [by auto|].
    rewrite bool_decide_eq_true_2 by done.
    destruct (pending_of_cases (added_tags st) (removed_tags st) R t Hdis)
      as [Hpa Hpr].
    destruct (pending_of_cases a2 r2 R t Hdis2) as [Hpa2 Hpr2].
    rewrite B2, A1 in Hpa2. rewrite B1, A2, A1 in Hpr2.
    setoid_rewrite elem_of_elements in Hpa2.
    setoid_rewrite elem_of_elements in Hpr2.
    setoid_rewrite elem_of_list_to_set in Hpa2.
    setoid_rewrite elem_of_list_to_set in Hpr2.
    assert (t ∈ a → t ∉ b) as Hab by set_solver.
    destruct (pending_of a2 r2 R t) eqn:Hp2;
      destruct (pending_of (added_tags st) (removed_tags st) R t) eqn:Hp;
      repeat case_bool_decide; simpl; try done; exfalso; naive_solver.
  - destruct (A3 R) as [Ea Er]; [done|]. destruct (B3 R) as [Ea' Er']; [done|].
    split.
    + split; [|by auto]. intros x. rewrite Ea', Er', Ea, Er. apply Hdis.
    + rewrite bool_decide_eq_false_2 by done.
      unfold pending_of. by rewrite Ea', Er', Ea, Er.
Qed.

Lemma process_log_net nr ndr les st st' R t :
  process_log nr ndr les st = inr st' → R ∉ nr → R ∉ ndr → tags_wf st R →
  tags_wf st' R
  ∧ pending_of (added_tags st') (removed_tags st') R t
    = foldl (net_effect_le R t)
            (pending_of (added_tags st) (removed_tags st) R t) les.
Proof.
  revert st. induction les as [|le les IH]; intros st; simpl.
  - intros [= <-]. by split.
  - destruct (process_le nr ndr st le) as [|st1] eqn:Hle; [done|].
    intros Hlog Hnr Hndr Hwf.
    destruct (process_le_net _ _ _ _ _ R t Hle Hnr Hndr Hwf) as [Hwf1 <-].
    by apply IH.
Qed.

Lemma gen_added_tags_run g a s :
  gen_added_tags g a s = (added_tag_ops g a, inr (tt, s)).
Proof.
  apply for_each_pure. intros [revid added] s'. simpl.
  apply for_each_pure. intros tag s''. unfold add_tag_op.
  by destruct (db_revision_exists g revid).
Qed.

Lemma gen_removed_tags_run r s :
  gen_removed_tags r s = (removed_tag_ops r, inr (tt, s)).
Proof.
  apply for_each_pure. intros [revid removed] s'. simpl.
  by apply for_each_pure.
Qed.

Lemma elem_of_flat_map {A B} (f : A → list B) (l : list A) (y : B) :
  y ∈ flat_map f l ↔ ∃ x, x ∈ l ∧ y ∈ f x.
Proof.
  rewrite list_elem_of_In, in_flat_map.
  split; intros (x & Hx & Hy); exists x; by rewrite ?list_elem_of_In in *.
Qed.

Lemma added_tag_ops_in g a o :
  NoDup a.*1 →
  o ∈ added_tag_ops g a ↔ ∃ R t, t ∈ tags_get a R ∧ o = add_tag_op g R t.
Proof.
  intros Hnd. unfold added_tag_ops. rewrite elem_of_flat_map. split.
  - intros ([R s] & Hin & Ho). apply elem_of_flat_map in Ho as (t & Ht & Ho).
    simpl in *. apply list_elem_of_singleton in Ho as ->.
    exists R, t. split; [|done]. unfold tags_get.
    rewrite (dict_in_get_Some R s a Hnd Hin). simpl.
    by apply elem_of_elements.
  - intros (R & t & Ht & ->). unfold tags_get in Ht.
    destruct (dict_get R a) as [s|] eqn:Hget; simpl in Ht; [|set_solver].
    exists (R, s). split; [by apply dict_get_Some_in|].
    apply elem_of_flat_map. exists t. simpl.
    split; [by apply elem_of_elements|]. by apply list_elem_of_singleton.
Qed.

Lemma removed_tag_ops_in r o :
  NoDup r.*1 →
  o ∈ removed_tag_ops r ↔
  ∃ R t, t ∈ tags_get r R ∧
         (o = DeleteTaggedRevision R t ∨ o = DeleteTaggedArchivedRevision R t).
Proof.
  intros Hnd. unfold removed_tag_ops. rewrite elem_of_flat_map. split.
  - intros ([R s] & Hin & Ho). apply elem_of_flat_map in Ho as (t & Ht & Ho).
    simpl in *. exists R, t. split.
    + unfold tags_get. rewrite (dict_in_get_Some R s r Hnd Hin). simpl.
      by apply elem_of_elements.
    + apply elem_of_cons in Ho as [->|Ho]; [by left|].
      apply list_elem_of_singleton in Ho as ->. by right.
  - intros (R & t & Ht & Ho). unfold tags_get in Ht.
    destruct (dict_get R r) as [s|] eqn:Hget; simpl in Ht; [|set_solver].
    exists (R, s). split; [by apply dict_get_Some_in|].
    apply elem_of_flat_map. exists t. simpl.
    split; [by apply elem_of_elements|].
    destruct Ho as [-> | ->]; [left|right; left].
Qed.

Lemma gen_tags_run g a r s :
  (gen_added_tags g a ;;; gen_removed_tags r) s
  = (added_tag_ops g a ++ removed_tag_ops r, inr (tt, s)).
Proof.
  rewrite (bind_ok _ _ _ _ _ _ (gen_added_tags_run g a s)).
  by rewrite gen_removed_tags_run.
Qed.

Lemma add_tag_op_inj g R t R' t' :
  add_tag_op g R t = add_tag_op g R' t' → R = R' ∧ t = t'.
Proof.
  unfold add_tag_op.
  destruct (db_revision_exists g R), (db_revision_exists g R');
    intros [=]; by subst.
Qed.

Lemma add_tag_op_revid g R t : tag_op_revid (add_tag_op g R t) = Some R.
Proof. unfold add_tag_op. by destruct (db_revision_exists g R). Qed.

(** One event that adds, or removes, a single tag of a revision that is not
    new. *)
Lemma process_le_add_one nr st R T :
  R ∉ nr →
  process_le nr ∅ st (LeTagUpdate (Some R) [T] [])
  = inr (set_tags (tag_added R (added_tags st, removed_tags st) T).1
                  (tag_added R (added_tags st, removed_tags st) T).2 st).
Proof.
  intros Hnr. cbn [process_le].
  rewrite bool_decide_eq_true_2 by set_solver.
  rewrite bool_decide_eq_true_2 by set_solver.
  cbn [list_to_set foldr]. rewrite (right_id_L ∅ (∪)).
  by rewrite elements_singleton, elements_empty.
Qed.

Lemma process_le_remove_one nr st R T :
  R ∉ nr →
  process_le nr ∅ st (LeTagUpdate (Some R) [] [T])
  = inr (set_tags (tag_removed R (added_tags st, removed_tags st) T).1
                  (tag_removed R (added_tags st, removed_tags st) T).2 st).
Proof.
  intros Hnr. cbn [process_le].
  rewrite bool_decide_eq_true_2 by set_solver.
  rewrite bool_decide_eq_true_2 by set_solver.
  cbn [list_to_set foldr]. rewrite (right_id_L ∅ (∪)).
  by rewrite elements_singleton, elements_empty.
Qed.

Lemma tag_added_first R T :
  tag_added R ([], []) T = ([(R, ∅ ∪ {[T]})], []).
Proof.
  unfold tag_added, tags_get, tags_setdefault. cbn [dict_get default].
  rewrite bool_decide_eq_false_2 by set_solver.
  cbn [dict_set dict_get]. rewrite !decide_True by done. done.
Qed.

Lemma tag_added_again R S T :
  tag_added R ([(R, S)], []) T = ([(R, S ∪ {[T]})], []).
Proof.
  unfold tag_added, tags_get, tags_setdefault. cbn [dict_get default].
  rewrite bool_decide_eq_false_2 by set_solver.
  cbn [dict_set dict_get]. rewrite !decide_True by done.
  cbn [dict_set dict_get default]. by rewrite !decide_True by done.
Qed.

Lemma tag_removed_pending R S T :
  T ∈ S → tag_removed R ([(R, S)], []) T = ([(R, S ∖ {[T]})], []).
Proof.
  intros Hin. unfold tag_removed, tags_get. cbn [dict_get].
  rewrite !decide_True by done. cbn [default].
  rewrite bool_decide_eq_true_2 by done.
  cbn [dict_set]. by rewrite !decide_True by done.
Qed.

Lemma tag_sequence_state nr R T1 T2 :
  R ∉ nr →
  ∃ st, process_log nr ∅
          [LeTagUpdate (Some R) [T1] []; LeTagUpdate (Some R) [] [T1];
           LeTagUpdate (Some R) [T2] []] init_log_state = inr st
        ∧ added_tags st = [(R, {[T2]})] ∧ removed_tags st = [].
Proof.
  intros Hnr. eexists. split.
  - cbn [process_log]. rewrite process_le_add_one by done.
    rewrite process_le_remove_one by done.
    rewrite process_le_add_one by done. reflexivity.
  - cbn [added_tags removed_tags set_tags init_log_state].
    rewrite tag_added_first. cbn [fst snd].
    rewrite tag_removed_pending by set_solver. cbn [fst snd].
    rewrite tag_added_again. cbn [fst snd].
    split; [|done]. do 2 f_equal. set_solver.
Qed.

Lemma bind_inr {A B} (m : Gen A) (k : A → Gen B) s b s' :
  (bind m k s).2 = inr (b, s') →
  ∃ o1 a s1, m s = (o1, inr (a, s1))
             ∧ (k a s1).2 = inr (b, s')
             ∧ (bind m k s).1 = o1 ++ (k a s1).1.
Proof.
  unfold bind. destruct (m s) as [o1 [e|[a s1]]]; [done|].
  destruct (k a s1) as [o2 r2] eqn:Hk. simpl. intros ->.
  exists o1, a, s1. by rewrite Hk.
Qed.

(** A completed update ends with the operations of the tag update. *)
Lemma gen_update_ends_with_tags g since s s' :
  outcome (gen_update g since) s = inr (tt, s') →
  ∃ o nr s1 st prefix,
    gen_new_revisions g since NotStarted = (o, inr (nr, s1))
    ∧ process_log nr ∅ (logevents_list g since) init_log_state = inr st
    ∧ emitted (gen_update g since) s
      = prefix ++ added_tag_ops g (added_tags st)
               ++ removed_tag_ops (removed_tags st).
Proof.
  unfold outcome, emitted, gen_update. intros Hrun.
  apply bind_inr in Hrun as (o0 & [] & s0 & H0 & Hrun & ->).
  injection H0 as <- <-.
  apply bind_inr in Hrun as (o1 & nr & s1 & Hnew & Hrun & ->).
  apply bind_inr in Hrun as (o2 & st & s2 & Hlog & Hrun & ->).
  destruct (process_log nr ∅ (logevents_list g since) init_log_state)
    as [e|st0] eqn:Hst; [done|]. injection Hlog as <- <- <-.
  unfold gen_update_from_log in *.
  apply bind_inr in Hrun as (o3 & [] & s3 & _ & Hrun & ->).
  apply bind_inr in Hrun as (o4 & nr4 & s4 & _ & Hrun & ->).
  apply bind_inr in Hrun as (o5 & nr5 & s5 & _ & Hrun & ->).
  apply bind_inr in Hrun as (o6 & [] & s6 & _ & Hrun & ->).
  apply bind_inr in Hrun as (o7 & [] & s7 & _ & Hrun & ->).
  rewrite gen_tags_run. simpl.
  exists o1, nr, s1, st0, (o1 ++ o3 ++ o4 ++ o5 ++ o6 ++ o7).
  split; [done|]. split; [done|]. by rewrite <-!(assoc_L (++)).
Qed.

(** C1.  For a revision [R] that is not among the new revisions, the tag
    operations of the update are the net effect of the tag events of [R],
    tag by tag, with an add cancelling a pending remove and a remove a
    pending add: an added tag is inserted where the revision is, a removed
    tag is deleted from both relations, and nothing else about [R] is
    yielded.  For the events add(T1), remove(T1), add(T2) the tag operations
    are the one insert of T2.  An update that completes ends with these
    operations, for the new revisions of its live feed. *)
Theorem tag_net_effect g nr (R : Z) :
  R ∉ nr →
  (∀ les, Forall le_ok les →
     ∃ st, process_log nr ∅ les init_log_state = inr st ∧
       ∀ s,
         let ops := emitted (gen_added_tags g (added_tags st) ;;;
                             gen_removed_tags (removed_tags st)) s in
         (∀ t, net_effect R t les = PendingAdd ↔ add_tag_op g R t ∈ ops)
         ∧ (∀ t, net_effect R t les = PendingRemove ↔
                 DeleteTaggedRevision R t ∈ ops)
         ∧ (∀ t, net_effect R t les = PendingRemove ↔
                 DeleteTaggedArchivedRevision R t ∈ ops)
         ∧ (∀ o, o ∈ ops → tag_op_revid o = Some R →
              ∃ t, (o = add_tag_op g R t ∧ net_effect R t les = PendingAdd)
                   ∨ (o ∈ remove_tag_ops R t
                      ∧ net_effect R t les = PendingRemove)))
  ∧ (∀ T1 T2 s,
       ∃ st, process_log nr ∅
               [LeTagUpdate (Some R) [T1] []; LeTagUpdate (Some R) [] [T1];
                LeTagUpdate (Some R) [T2] []] init_log_state = inr st
             ∧ emitted (gen_added_tags g (added_tags st) ;;;
                        gen_removed_tags (removed_tags st)) s
               = [add_tag_op g R T2])
  ∧ (∀ since s s' o s1,
       gen_new_revisions g since NotStarted = (o, inr (nr, s1)) →
       outcome (gen_update g since) s = inr (tt, s') →
       ∃ st prefix,
         process_log nr ∅ (logevents_list g since) init_log_state = inr st
         ∧ emitted (gen_update g since) s
           = prefix ++ emitted (gen_added_tags g (added_tags st) ;;;
                                gen_removed_tags (removed_tags st)) s').
Proof.
  intros Hnr. split; [|split]; cycle 2.
  { intros since s s' o s1 Hnew Hrun.
    destruct (gen_update_ends_with_tags g since s s' Hrun)
      as (o' & nr' & s1' & st & prefix & Hnew' & Hlog & Hops).
    rewrite Hnew in Hnew'. injection Hnew' as <- <- <-.
    exists st, prefix. split; [done|]. unfold emitted at 2.
    by rewrite gen_tags_run. }
  - intros les Hok.
    destruct (process_log_ok nr ∅ les init_log_state Hok) as [st Hst].
    exists st. split; [done|]. intros s. cbv zeta. unfold emitted.
    rewrite gen_tags_run. cbn [fst].
    assert (tags_wf init_log_state R) as Hwf0.
    { split; [|split; simpl; constructor]. intros x. simpl. set_solver. }
    assert (∀ t, tags_wf st R ∧
                 pending_of (added_tags st) (removed_tags st) R t
                 = net_effect R t les) as Hnet.
    { intros t. by apply (process_log_net nr ∅ les init_log_state st R t). }
    destruct (Hnet "") as [(Hdis & Hna & Hnrm) _].
    assert (∀ t, (net_effect R t les = PendingAdd ↔
                  t ∈ tags_get (added_tags st) R)
                 ∧ (net_effect R t les = PendingRemove ↔
                    t ∈ tags_get (removed_tags st) R)) as Hcases.
    { intros t. destruct (Hnet t) as [_ <-]. by apply pending_of_cases. }
    split; [|split; [|split]].
    + intros t. destruct (Hcases t) as [-> _].
      rewrite elem_of_app, added_tag_ops_in, removed_tag_ops_in by done.
      split.
      * intros Ht. left. by exists R, t.
      * intros [(R' & t' & Ht' & Heq)|(R' & t' & _ & Heq)].
        -- apply add_tag_op_inj in Heq as [-> ->]. done.
        -- unfold add_tag_op in Heq.
           destruct (db_revision_exists g R); by destruct Heq.
    + intros t. destruct (Hcases t) as [_ ->].
      rewrite elem_of_app, added_tag_ops_in, removed_tag_ops_in by done.
      split.
      * intros Ht. right. exists R, t. auto.
      * intros [(R' & t' & _ & Heq)|(R' & t' & Ht' & Heq)].
        -- unfold add_tag_op in Heq.
           by destruct (db_revision_exists g R').
        -- destruct Heq as [[= -> ->]|[=]]. done.
    + intros t. destruct (Hcases t) as [_ ->].
      rewrite elem_of_app, added_tag_ops_in, removed_tag_ops_in by done.
      split.
      * intros Ht. right. exists R, t. auto.
      * intros [(R' & t' & _ & Heq)|(R' & t' & Ht' & Heq)].
        -- unfold add_tag_op in Heq.
           by destruct (db_revision_exists g R').
        -- destruct Heq as [[=]|[= -> ->]]. done.
    + intros o. rewrite elem_of_app, added_tag_ops_in, removed_tag_ops_in by done.
      intros [(R' & t' & Ht' & ->)|(R' & t' & Ht' & Ho)] Hrev.
      * rewrite add_tag_op_revid in Hrev. injection Hrev as ->.
        exists t'. left. split; [done|]. by apply Hcases.
      * assert (R' = R) as -> by (destruct Ho as [-> | ->]; by injection Hrev).
        exists t'. right. split; [|by apply Hcases].
        unfold remove_tag_ops. destruct Ho as [-> | ->]; set_solver.
  - intros T1 T2 s.
    destruct (tag_sequence_state nr R T1 T2 Hnr) as (st & Hst & Ha & Hr).
    exists st. split; [done|]. unfold emitted. rewrite gen_tags_run, Ha, Hr.
    cbn [fst]. unfold added_tag_ops, removed_tag_ops. cbn [flat_map fst snd].
    rewrite elements_singleton. done.
Qed.

Lemma tag_net_effect_witness :
  (∃ st, process_log {[ 1 ]} ∅
           [LeTagUpdate (Some 7) ["a"; "b"] []; LeTagUpdate (Some 1) ["x"] [];
            LeTagUpdate (Some 7) ["c"] ["a"]] init_log_state = inr st
         ∧ add_tag_op quiet_grabber 7 "b"
           ∈ emitted (gen_added_tags quiet_grabber (added_tags st) ;;;
                      gen_removed_tags (removed_tags st)) NotStarted)
  ∧ (∃ st, process_log {[ 1 ]} ∅
             [LeTagUpdate (Some 7) ["T1"] []; LeTagUpdate (Some 7) [] ["T1"];
              LeTagUpdate (Some 7) ["T2"] []] init_log_state = inr st
           ∧ emitted (gen_added_tags quiet_grabber (added_tags st) ;;;
                      gen_removed_tags (removed_tags st)) NotStarted
             = [InsertTaggedArchivedRevision 7 "T2"]).
Proof.
  assert (7 ∉ ({[ 1 ]} : gset Z)) as Hnr by (by intros ?%elem_of_singleton).
  destruct (tag_net_effect quiet_grabber {[ 1 ]} 7 Hnr) as (Hgen & Hex & _).
  split.
  - destruct (Hgen [LeTagUpdate (Some 7) ["a"; "b"] [];
                    LeTagUpdate (Some 1) ["x"] [];
                    LeTagUpdate (Some 7) ["c"] ["a"]]) as (st & Hst & Hops).
    { repeat constructor; by vm_compute. }
    exists st. split; [done|].
    destruct (Hops NotStarted) as (Hadd & _). apply Hadd. reflexivity.
  - destruct (Hex "T1" "T2" NotStarted) as (st & Hst & Hops).
    exists st. by split.
Defined.

(** * Further properties of the code *)

(** ** The kinds of operations a full insert yields *)

Lemma yields_only_ret {A} P (a : A) : yields_only P (ret a).
Proof. intros s. constructor. Qed.

Lemma yields_only_raise {A} P e : yields_only P (@raise A e).
Proof. intros s. constructor. Qed.

Lemma yields_only_yield (P : op → Prop) o : P o → yields_only P (yield o).
Proof. intros Ho s. simpl. by repeat constructor. Qed.

Lemma yields_only_bind {A B} P (m : Gen A) (k : A → Gen B) :
  yields_only P m → (∀ a, yields_only P (k a)) → yields_only P (bind m k).
Proof.
  intros Hm Hk s. unfold bind. specialize (Hm s).
  destruct (m s) as [o1 [e|[a s1]]]; [done|].
  specialize (Hk a s1). destruct (k a s1) as [o2 r2]. simpl in *.
  by apply Forall_app.
Qed.

Lemma yields_only_for_each {A} P (l : list A) (body : A → Gen unit) :
  (∀ x, yields_only P (body x)) → yields_only P (for_each l body).
Proof.
  intros Hb. induction l as [|x l IH]; simpl.
  - apply yields_only_ret.
  - apply yields_only_bind; auto.
Qed.

Lemma yields_only_for_fold {A S} P (l : list A) (body : S → A → Gen S) s0 :
  (∀ st x, yields_only P (body st x)) → yields_only P (for_fold l body s0).
Proof.
  intros Hb. revert s0. induction l as [|x l IH]; intros s0; simpl.
  - apply yields_only_ret.
  - apply yields_only_bind; auto.
Qed.

Lemma yields_only_lift {A} P (r : error + A) : yields_only P (lift r).
Proof. destruct r; [apply yields_only_raise|apply yields_only_ret]. Qed.

Lemma yields_only_mono {A} (P Q : op → Prop) (m : Gen A) :
  (∀ o, P o → Q o) → yields_only P m → yields_only Q m.
Proof. intros HPQ Hm s. eapply Forall_impl; [apply Hm|done]. Qed.

Lemma yields_only_getitem {A} P key (value : option A) :
  yields_only P (getitem key value).
Proof. destruct value; [apply yields_only_ret|apply yields_only_raise]. Qed.

Ltac yields :=
  repeat first
    [ apply yields_only_ret
    | apply yields_only_raise
    | apply yields_only_lift
    | apply yields_only_getitem
    | apply yields_only_bind; [|intros ?]
    | apply yields_only_for_each; intros ?
    | apply yields_only_for_fold; intros ? ?
    | apply yields_only_yield ].

Lemma gen_content_yields P g rev :
  (∀ e, P (InsertText e)) → yields_only P (gen_content g rev).
Proof.
  intros HP. unfold gen_content, gen_text. destruct (with_content g); yields.
  - by intros s.
  - apply HP.
Qed.

Lemma gen_revisions_live g page : yields_only live_insert (gen_revisions g page).
Proof.
  unfold gen_revisions, gen_revisions_body. yields; try done.
  by apply gen_content_yields.
Qed.

Lemma gen_deletedrevisions_archived g page :
  yields_only archived_insert (gen_deletedrevisions g page).
Proof.
  unfold gen_deletedrevisions, gen_deletedrevisions_body. cbv zeta.
  yields; try done. by apply gen_content_yields.
Qed.

(** *** Complete revisions and the end of the generators *)

Lemma gen_content_never g rev :
  (with_content g = true → is_Some (rv_content rev)) →
  raises_only never (gen_content g rev).
Proof.
  intros Hc. unfold gen_content.
  destruct (with_content g); [|apply raises_only_ret].
  destruct Hc as [content Hcontent]; [done|].
  apply raises_only_bind; [by intros s o e|]. intros tid.
  apply raises_only_bind; [|intros _; apply raises_only_ret].
  unfold gen_text. rewrite Hcontent.
  apply raises_only_bind; [apply raises_only_ret|].
  intros c. apply raises_only_yield.
Qed.

Lemma gen_revisions_body_never g page rev :
  revision_complete (with_content g) rev →
  raises_only never (gen_revisions_body g page rev).
Proof.
  intros ([c Hc] & [i Hi] & [u Hu] & [h Hh] & Hcontent).
  unfold gen_revisions_body. rewrite Hc, Hi, Hu, Hh.
  repeat (apply raises_only_bind; [apply raises_only_ret|intros ?]).
  apply raises_only_bind; [by apply gen_content_never|intros ?].
  apply raises_only_bind; [apply raises_only_yield|intros _].
  apply raises_only_for_each. intros tag. apply raises_only_yield.
Qed.

Lemma gen_deletedrevisions_body_never g page rev :
  revision_complete (with_content g) rev →
  raises_only never (gen_deletedrevisions_body g page rev).
Proof.
  intros ([c Hc] & [i Hi] & [u Hu] & [h Hh] & Hcontent).
  unfold gen_deletedrevisions_body. cbv zeta. rewrite Hc, Hi, Hu, Hh.
  repeat (apply raises_only_bind; [apply raises_only_ret|intros ?]).
  apply raises_only_bind; [by apply gen_content_never|intros ?].
  apply raises_only_bind; [apply raises_only_yield|intros _].
  apply raises_only_for_each. intros tag. apply raises_only_yield.
Qed.

Lemma feed_complete_page content (pages : list page) p :
  feed_complete content pages → p ∈ pages → page_complete content p.
Proof. intros Hf Hp. exact (proj1 (Forall_forall _ _) Hf p Hp). Qed.

Lemma page_complete_revision content (p : page) rev :
  page_complete content p → rev ∈ pg_revisions p →
  revision_complete content rev.
Proof. intros Hc Hrev. exact (proj1 (Forall_forall _ _) Hc rev Hrev). Qed.

Lemma gen_revisions_never g page :
  page_complete (with_content g) page →
  raises_only never (gen_revisions g page).
Proof.
  intros Hp. apply raises_only_for_each_in. intros rev Hrev.
  apply gen_revisions_body_never. by eapply page_complete_revision.
Qed.

Lemma gen_deletedrevisions_never g page :
  page_complete (with_content g) page →
  raises_only never (gen_deletedrevisions g page).
Proof.
  intros Hp. apply raises_only_for_each_in. intros rev Hrev.
  apply gen_deletedrevisions_body_never. by eapply page_complete_revision.
Qed.

(** A loop that completes has run its body to the end for every
    element. *)
Lemma for_each_inr {A} (l : list A) (body : A → Gen unit) s o s' :
  for_each l body s = (o, inr (tt, s')) →
  ∀ x, x ∈ l → ∃ t ox t', body x t = (ox, inr (tt, t')).
Proof.
  revert s o. induction l as [|y l IH]; intros s o Hrun x Hx;
    [by apply elem_of_nil in Hx|].
  cbn [for_each] in Hrun. unfold bind in Hrun.
  destruct (body y s) as [o1 [e|[[] s1]]] eqn:Hy; [done|].
  destruct (for_each l body s1) as [o2 r2] eqn:Hl.
  injection Hrun as <- ->.
  apply elem_of_cons in Hx as [->|Hx]; [by eauto|].
  by eapply IH.
Qed.

Lemma gen_content_inr g rev s o a s' :
  gen_content g rev s = (o, inr (a, s')) →
  with_content g = true → is_Some (rv_content rev).
Proof.
  unfold gen_content, gen_text, getitem. intros Hrun Hwc.
  rewrite Hwc in Hrun.
  destruct (rv_content rev) as [content|]; [by eauto|].
  by destruct s.
Qed.

Lemma gen_revisions_body_inr g page rev s o s' :
  gen_revisions_body g page rev s = (o, inr (tt, s')) →
  revision_complete (with_content g) rev.
Proof.
  unfold gen_revisions_body, revision_complete, getitem. intros Hrun.
  destruct (rv_comment rev) as [c|]; [|done].
  destruct (rv_userid rev) as [i|]; [|done].
  destruct (rv_user rev) as [u|]; [|done].
  destruct (rv_sha1 rev) as [h|]; [|done].
  rewrite !bind_ret_l in Hrun.
  repeat (split; [by eauto|]).
  unfold bind in Hrun.
  destruct (gen_content g rev s) as [o1 [e|[a s1]]] eqn:Hc; [done|].
  by eapply gen_content_inr.
Qed.

Lemma gen_deletedrevisions_body_inr g page rev s o s' :
  gen_deletedrevisions_body g page rev s = (o, inr (tt, s')) →
  revision_complete (with_content g) rev.
Proof.
  unfold gen_deletedrevisions_body, revision_complete, getitem. cbv zeta.
  intros Hrun.
  destruct (rv_comment rev) as [c|]; [|done].
  destruct (rv_userid rev) as [i|]; [|done].
  destruct (rv_user rev) as [u|]; [|done].
  destruct (rv_sha1 rev) as [h|]; [|done].
  rewrite !bind_ret_l in Hrun.
  repeat (split; [by eauto|]).
  unfold bind in Hrun.
  destruct (gen_content g rev s) as [o1 [e|[a s1]]] eqn:Hc; [done|].
  by eapply gen_content_inr.
Qed.

Lemma gen_revisions_inr g (pages : list page) s o s' :
  for_each pages (gen_revisions g) s = (o, inr (tt, s')) →
  feed_complete (with_content g) pages.
Proof.
  intros Hrun. apply Forall_forall. intros p Hp.
  destruct (for_each_inr _ _ _ _ _ Hrun p Hp) as (t & op & t' & Hpage).
  apply Forall_forall. intros rev Hrev.
  destruct (for_each_inr _ _ _ _ _ Hpage rev Hrev) as (t1 & o1 & t1' & Hbody).
  by eapply gen_revisions_body_inr.
Qed.

Lemma gen_deletedrevisions_inr g (pages : list page) s o s' :
  for_each pages (gen_deletedrevisions g) s = (o, inr (tt, s')) →
  feed_complete (with_content g) pages.
Proof.
  intros Hrun. apply Forall_forall. intros p Hp.
  destruct (for_each_inr _ _ _ _ _ Hrun p Hp) as (t & op & t' & Hpage).
  apply Forall_forall. intros rev Hrev.
  destruct (for_each_inr _ _ _ _ _ Hpage rev Hrev) as (t1 & o1 & t1' & Hbody).
  by eapply gen_deletedrevisions_body_inr.
Qed.

(** A full insert of complete feeds runs its two loops to the end. *)
Lemma gen_insert_run g s :
  feed_complete (with_content g)
                (api_list g (Allrevisions (with_content g) None)) →
  feed_complete (with_content g)
                (api_list g (Alldeletedrevisions (with_content g))) →
  ∃ o1 s1 o2 s2,
    for_each (api_list g (Allrevisions (with_content g) None))
             (gen_revisions g) NotStarted = (o1, inr (tt, s1))
    ∧ for_each (api_list g (Alldeletedrevisions (with_content g)))
               (gen_deletedrevisions g) s1 = (o2, inr (tt, s2))
    ∧ gen_insert g s = (o1 ++ o2, inr (tt, s2)).
Proof.
  intros Hlive Hdel.
  assert (raises_only never
            (for_each (api_list g (Allrevisions (with_content g) None))
                      (gen_revisions g))) as H1.
  { apply raises_only_for_each_in. intros p Hp.
    apply gen_revisions_never. by apply (feed_complete_page _ _ _ Hlive). }
  assert (raises_only never
            (for_each (api_list g (Alldeletedrevisions (with_content g)))
                      (gen_deletedrevisions g))) as H2.
  { apply raises_only_for_each_in. intros p Hp.
    apply gen_deletedrevisions_never.
    by apply (feed_complete_page _ _ _ Hdel). }
  destruct (never_raises_total _ NotStarted H1) as (o1 & [] & s1 & Hr1).
  destruct (never_raises_total _ s1 H2) as (o2 & [] & s2 & Hr2).
  exists o1, s1, o2, s2. split; [done|]. split; [done|].
  unfold gen_insert. unfold bind at 1. simpl.
  by rewrite (bind_ok _ _ _ _ _ _ Hr1), Hr2.
Qed.

Lemma gen_insert_yields_split g s :
  ∃ live archived,
    emitted (gen_insert g) s = live ++ archived
    ∧ Forall live_insert live ∧ Forall archived_insert archived.
Proof.
  unfold emitted, gen_insert.
  rewrite (bind_ok _get_text_id_gen _ s [] tt NotStarted eq_refl).
  cbn [app fst].
  pose proof (yields_only_for_each live_insert
                (api_list g (Allrevisions (with_content g) None)) _
                (gen_revisions_live g) NotStarted) as H1.
  unfold bind.
  destruct (for_each (api_list g (Allrevisions (with_content g) None))
                     (gen_revisions g) NotStarted) as [o1 [e|[[] s1]]].
  - exists o1, []. by rewrite app_nil_r.
  - pose proof (yields_only_for_each archived_insert
                  (api_list g (Alldeletedrevisions (with_content g))) _
                  (gen_deletedrevisions_archived g) s1) as H2.
    destruct (for_each (api_list g (Alldeletedrevisions (with_content g)))
                       (gen_deletedrevisions g) s1) as [o2 r2].
    by exists o1, o2.
Qed.

(** X1.  How a full insert ends and what it yields.  It raises nothing but
    the [KeyError] of a revision object without one of the keys read from
    it, and it runs to its end exactly when every revision of its two feeds
    is complete.  Whether it completes or not, it yields nothing but
    inserts: first those of the live side, then those of the archived side,
    whose rows carry no page ID. *)
Theorem gen_insert_only_inserts g s :
  raises_only key_error (gen_insert g)
  ∧ ((∃ s', outcome (gen_insert g) s = inr (tt, s'))
     ↔ feed_complete (with_content g)
                     (api_list g (Allrevisions (with_content g) None))
       ∧ feed_complete (with_content g)
                       (api_list g (Alldeletedrevisions (with_content g))))
  ∧ ∃ live archived,
      emitted (gen_insert g) s = live ++ archived
      ∧ Forall live_insert live ∧ Forall archived_insert archived.
Proof.
  split; [|split; [split|apply gen_insert_yields_split]].
  - unfold gen_insert.
    apply raises_only_bind; [by intros s0 o e|intros _].
    apply raises_only_bind.
    + apply raises_only_for_each. intros p.
      apply gen_revisions_raises. intros k. by exists k.
    + intros _. apply raises_only_for_each. intros p.
      apply gen_deletedrevisions_raises. intros k. by exists k.
  - intros [s' Hrun]. unfold outcome, gen_insert in Hrun.
    apply bind_inr in Hrun as (o0 & [] & s0 & H0 & Hrun & _).
    injection H0 as <- <-.
    apply bind_inr in Hrun as (o1 & [] & s1 & Hlive & Hrun & _).
    destruct (for_each (api_list g (Alldeletedrevisions (with_content g)))
                       (gen_deletedrevisions g) s1) as [o2 r2] eqn:Hdel.
    simpl in Hrun. subst r2.
    split; [by eapply gen_revisions_inr|by eapply gen_deletedrevisions_inr].
  - intros [Hlive Hdel].
    destruct (gen_insert_run g s Hlive Hdel)
      as (o1 & s1 & o2 & s2 & _ & _ & Hrun).
    exists s2. unfold outcome. by rewrite Hrun.
Qed.

Lemma gen_insert_only_inserts_witness :
  (∃ s', outcome (gen_insert tagged_feed_grabber) NotStarted = inr (tt, s'))
  ∧ outcome (gen_insert suppressed_comment_grabber) NotStarted
    = inl (KeyError "comment")
  ∧ emitted (gen_insert suppressed_comment_grabber) NotStarted
    = [InsertRevision
         {| rev_id := 100; rev_page := Some 3; rev_comment := "c";
            rev_user := 1; rev_user_text := "u"; rev_timestamp := 10;
            rev_minor_edit := false; rev_len := 3; rev_parent_id := None;
            rev_sha1 := "h"; rev_content_model := "wikitext";
            rev_content_format := None; rev_text_id := None |}].
Proof.
  destruct (gen_insert_only_inserts tagged_feed_grabber NotStarted)
    as (_ & Hends & _).
  split; [|split; reflexivity].
  apply Hends. split; apply (bool_decide_unpack _); by vm_compute.
Defined.

(** ** Blobs and the rows that refer to them *)

Lemma text_refs_ok_app l1 l2 :
  text_refs_ok l1 → text_refs_ok l2 → text_refs_ok (l1 ++ l2).
Proof.
  intros H1 H2. induction H1; simpl; try done; by constructor.
Qed.

Lemma text_refs_ok_revision ops l1 e l2 :
  text_refs_ok ops → ops = l1 ++ InsertRevision e :: l2 →
  match rev_text_id e with
  | Some i => ∃ l1' te, l1 = l1' ++ [InsertText te] ∧ old_id te = i
  | None => True
  end.
Proof.
  intros Hok. revert l1. induction Hok as
    [|te e' rest Hid Hok IH|te e' rest Hid Hok IH|e' rest Hid Hok IH
     |e' rest Hid Hok IH|o rest Ho Hnr Hna Hok IH]; intros l1 Heq.
  - by destruct l1.
  - destruct l1 as [|o1 [|o2 l1]]; simplify_eq/=.
    + rewrite Hid. by exists [], te.
    + specialize (IH l1 eq_refl). destruct (rev_text_id e); [|done].
      destruct IH as (l1' & te' & -> & Hi).
      by exists (InsertText te :: InsertRevision e' :: l1'), te'.
  - destruct l1 as [|o1 [|o2 l1]]; simplify_eq/=.
    specialize (IH l1 eq_refl). destruct (rev_text_id e); [|done].
    destruct IH as (l1' & te' & -> & Hi).
    by exists (InsertText te :: InsertArchive e' :: l1'), te'.
  - destruct l1 as [|o1 l1]; simplify_eq/=.
    + by rewrite Hid.
    + specialize (IH l1 eq_refl). destruct (rev_text_id e); [|done].
      destruct IH as (l1' & te' & -> & Hi).
      by exists (InsertRevision e' :: l1'), te'.
  - destruct l1 as [|o1 l1]; simplify_eq/=.
    specialize (IH l1 eq_refl). destruct (rev_text_id e); [|done].
    destruct IH as (l1' & te' & -> & Hi).
    by exists (InsertArchive e' :: l1'), te'.
  - destruct l1 as [|o1 l1]; simplify_eq/=.
    + by destruct (Hnr e).
    + specialize (IH l1 eq_refl). destruct (rev_text_id e); [|done].
      destruct IH as (l1' & te' & -> & Hi).
      by exists (o1 :: l1'), te'.
Qed.

Lemma text_refs_ok_archive ops l1 e l2 :
  text_refs_ok ops → ops = l1 ++ InsertArchive e :: l2 →
  match ar_text_id e with
  | Some i => ∃ l1' te, l1 = l1' ++ [InsertText te] ∧ old_id te = i
  | None => True
  end.
Proof.
  intros Hok. revert l1. induction Hok as
    [|te e' rest Hid Hok IH|te e' rest Hid Hok IH|e' rest Hid Hok IH
     |e' rest Hid Hok IH|o rest Ho Hnr Hna Hok IH]; intros l1 Heq.
  - by destruct l1.
  - destruct l1 as [|o1 [|o2 l1]]; simplify_eq/=.
    specialize (IH l1 eq_refl). destruct (ar_text_id e); [|done].
    destruct IH as (l1' & te' & -> & Hi).
    by exists (InsertText te :: InsertRevision e' :: l1'), te'.
  - destruct l1 as [|o1 [|o2 l1]]; simplify_eq/=.
    + rewrite Hid. by exists [], te.
    + specialize (IH l1 eq_refl). destruct (ar_text_id e); [|done].
      destruct IH as (l1' & te' & -> & Hi).
      by exists (InsertText te :: InsertArchive e' :: l1'), te'.
  - destruct l1 as [|o1 l1]; simplify_eq/=.
    specialize (IH l1 eq_refl). destruct (ar_text_id e); [|done].
    destruct IH as (l1' & te' & -> & Hi).
    by exists (InsertRevision e' :: l1'), te'.
  - destruct l1 as [|o1 l1]; simplify_eq/=.
    + by rewrite Hid.
    + specialize (IH l1 eq_refl). destruct (ar_text_id e); [|done].
      destruct IH as (l1' & te' & -> & Hi).
      by exists (InsertArchive e' :: l1'), te'.
  - destruct l1 as [|o1 l1]; simplify_eq/=.
    + by destruct (Hna e).
    + specialize (IH l1 eq_refl). destruct (ar_text_id e); [|done].
      destruct IH as (l1' & te' & -> & Hi).
      by exists (o1 :: l1'), te'.
Qed.

Lemma keeps_text_refs_ret {A} (a : A) : keeps_text_refs (ret a).
Proof. intros s. constructor. Qed.

Lemma keeps_text_refs_raise {A} e : keeps_text_refs (@raise A e).
Proof. intros s. constructor. Qed.

Lemma keeps_text_refs_lift {A} (r : error + A) : keeps_text_refs (lift r).
Proof. destruct r; [apply keeps_text_refs_raise|apply keeps_text_refs_ret]. Qed.

Lemma keeps_text_refs_yield o :
  text_ids [o] = [] → (∀ e, o ≠ InsertRevision e) → (∀ e, o ≠ InsertArchive e) →
  keeps_text_refs (yield o).
Proof. intros H1 H2 H3 s. simpl. apply refs_other; try done. constructor. Qed.

Lemma keeps_text_refs_bind {A B} (m : Gen A) (k : A → Gen B) :
  keeps_text_refs m → (∀ a, keeps_text_refs (k a)) → keeps_text_refs (bind m k).
Proof.
  intros Hm Hk s. unfold bind. specialize (Hm s).
  destruct (m s) as [o1 [e|[a s1]]]; [done|].
  specialize (Hk a s1). destruct (k a s1) as [o2 r2]. simpl in *.
  by apply text_refs_ok_app.
Qed.

Lemma keeps_text_refs_for_each {A} (l : list A) (body : A → Gen unit) :
  (∀ x, keeps_text_refs (body x)) → keeps_text_refs (for_each l body).
Proof.
  intros Hb. induction l as [|x l IH]; simpl.
  - apply keeps_text_refs_ret.
  - apply keeps_text_refs_bind; auto.
Qed.

Lemma keeps_text_refs_for_fold {A S} (l : list A) (body : S → A → Gen S) s0 :
  (∀ st x, keeps_text_refs (body st x)) → keeps_text_refs (for_fold l body s0).
Proof.
  intros Hb. revert s0. induction l as [|x l IH]; intros s0; simpl.
  - apply keeps_text_refs_ret.
  - apply keeps_text_refs_bind; auto.
Qed.

Ltac text_refs :=
  repeat first
    [ apply keeps_text_refs_ret
    | apply keeps_text_refs_raise
    | apply keeps_text_refs_lift
    | apply keeps_text_refs_bind; [|intros ?]
    | apply keeps_text_refs_for_each; intros ?
    | apply keeps_text_refs_for_fold; intros ? ?
    | apply keeps_text_refs_yield; [reflexivity|done|done] ].

Lemma keeps_text_refs_gen_revisions g page :
  keeps_text_refs (gen_revisions g page).
Proof.
  unfold gen_revisions. apply keeps_text_refs_for_each. intros rev s.
  assert (keeps_text_refs
            (for_each (default [] (rv_tags rev))
               (λ tag_name, yield (InsertTaggedRevision (rv_revid rev) tag_name))))
    as Htags by text_refs.
  unfold gen_revisions_body, getitem.
  destruct (rv_comment rev) as [c|], (rv_userid rev) as [i|],
           (rv_user rev) as [u|], (rv_sha1 rev) as [h|];
    try (by constructor).
  rewrite !bind_ret_l. unfold gen_content, gen_text, getitem.
  destruct (with_content g); [destruct (rv_content rev) as [content|]|];
    unfold bind; simpl.
  - specialize (Htags (Suspended (value_of g s + 1))).
    destruct s; simpl in *;
      destruct (for_each _ _ _) as [o r]; simpl in *; by constructor.
  - destruct s; simpl; constructor.
  - specialize (Htags s). destruct (for_each _ _ _) as [o r]; simpl in *.
    by constructor.
Qed.

Lemma keeps_text_refs_gen_deletedrevisions g page :
  keeps_text_refs (gen_deletedrevisions g page).
Proof.
  unfold gen_deletedrevisions. apply keeps_text_refs_for_each. intros rev s.
  assert (keeps_text_refs
            (for_each (default [] (rv_tags rev))
               (λ tag_name,
                  yield (InsertTaggedArchivedRevision (rv_revid rev) tag_name))))
    as Htags by text_refs.
  unfold gen_deletedrevisions_body, getitem. cbv zeta.
  destruct (rv_comment rev) as [c|], (rv_userid rev) as [i|],
           (rv_user rev) as [u|], (rv_sha1 rev) as [h|];
    try (by constructor).
  rewrite !bind_ret_l. unfold gen_content, gen_text, getitem.
  destruct (with_content g); [destruct (rv_content rev) as [content|]|];
    unfold bind; simpl.
  - specialize (Htags (Suspended (value_of g s + 1))).
    destruct s; simpl in *;
      destruct (for_each _ _ _) as [o r]; simpl in *; by constructor.
  - destruct s; simpl; constructor.
  - specialize (Htags s). destruct (for_each _ _ _) as [o r]; simpl in *.
    by constructor.
Qed.

Ltac text_refs_run :=
  repeat first
    [ apply keeps_text_refs_gen_revisions
    | apply keeps_text_refs_gen_deletedrevisions
    | apply keeps_text_refs_ret
    | apply keeps_text_refs_raise
    | apply keeps_text_refs_lift
    | apply keeps_text_refs_bind; [|intros ?]
    | apply keeps_text_refs_for_each; intros ?
    | apply keeps_text_refs_for_fold; intros ? ?
    | apply keeps_text_refs_yield; [reflexivity|done|done] ].

Lemma keeps_text_refs_gen_update_from_log g since nr st :
  keeps_text_refs (gen_update_from_log g since nr st).
Proof.
  unfold gen_update_from_log, gen_undelete, gen_new_deleted, gen_imported,
    gen_merge, gen_deleted, gen_added_tags, gen_removed_tags.
  apply keeps_text_refs_bind; [|intros _].
  { apply keeps_text_refs_for_each. intros [t pid]. text_refs_run. }
  apply keeps_text_refs_bind; [|intros nr1].
  { apply keeps_text_refs_for_fold. intros nr' chunk.
    unfold gen_new_deleted_chunk. destruct (has_drvcontinue _); text_refs_run.
    unfold gen_page_deletedrevisions. destruct (qp_deletedrevisions _);
      text_refs_run. }
  apply keeps_text_refs_bind; [|intros nr2].
  { apply keeps_text_refs_for_fold. intros nr' chunk.
    unfold gen_imported_chunk. destruct (_ || _)%bool; text_refs_run.
    - unfold gen_page_revisions. destruct (qp_revisions _); text_refs_run.
    - unfold gen_page_deletedrevisions. destruct (qp_deletedrevisions _);
        text_refs_run. }
  apply keeps_text_refs_bind; [|intros _].
  { apply keeps_text_refs_for_each. intros [p params].
    destruct (bool_decide _); text_refs_run. }
  apply keeps_text_refs_bind; [|intros _].
  { apply keeps_text_refs_for_each. intros [r b]. text_refs_run. }
  apply keeps_text_refs_bind; [|intros _].
  { apply keeps_text_refs_for_each. intros [r a]. text_refs_run.
    destruct (db_revision_exists g r); text_refs_run. }
  apply keeps_text_refs_for_each. intros [r a]. text_refs_run.
Qed.

Lemma keeps_text_refs_gen_update g since : keeps_text_refs (gen_update g since).
Proof.
  unfold gen_update. apply keeps_text_refs_bind; [intros s; constructor|intros _].
  apply keeps_text_refs_bind; [|intros nr].
  { unfold gen_new_revisions. text_refs_run. }
  apply keeps_text_refs_bind; [apply keeps_text_refs_lift|intros st].
  apply keeps_text_refs_gen_update_from_log.
Qed.

Lemma keeps_text_refs_gen_insert g : keeps_text_refs (gen_insert g).
Proof.
  unfold gen_insert. apply keeps_text_refs_bind; [intros s; constructor|intros _].
  apply keeps_text_refs_bind; [|intros _].
  - apply keeps_text_refs_for_each, keeps_text_refs_gen_revisions.
  - apply keeps_text_refs_for_each, keeps_text_refs_gen_deletedrevisions.
Qed.

(** X2.  In the operations of a run, of an update or of a full insert, also
    of one that ends with an exception, a blob and the row that refers to it
    go together: every insert of a revision or of an archived revision that
    carries a text ID directly follows the insert of the blob with that ID;
    a row without text ID follows no blob, and no blob stays without its
    row. *)
Theorem text_reference_follows_blob g :
  (∀ since s, text_refs_ok (emitted (gen_update g since) s))
  ∧ (∀ s, text_refs_ok (emitted (gen_insert g) s))
  ∧ (∀ ops l1 e l2,
       text_refs_ok ops → ops = l1 ++ InsertRevision e :: l2 →
       match rev_text_id e with
       | Some i => ∃ l1' te, l1 = l1' ++ [InsertText te] ∧ old_id te = i
       | None => True
       end)
  ∧ (∀ ops l1 e l2,
       text_refs_ok ops → ops = l1 ++ InsertArchive e :: l2 →
       match ar_text_id e with
       | Some i => ∃ l1' te, l1 = l1' ++ [InsertText te] ∧ old_id te = i
       | None => True
       end).
Proof.
  split; [intros; apply keeps_text_refs_gen_update|].
  split; [intros; apply keeps_text_refs_gen_insert|].
  split; [apply text_refs_ok_revision|apply text_refs_ok_archive].
Qed.

Lemma text_reference_follows_blob_witness :
  emitted (gen_insert content_grabber) NotStarted
  = [InsertText {| old_id := 5; old_text := "abc"; old_flags := "utf-8" |}]
    ++ InsertRevision
         {| rev_id := 100; rev_page := Some 3; rev_comment := "c";
            rev_user := 1; rev_user_text := "u"; rev_timestamp := 10;
            rev_minor_edit := false; rev_len := 3; rev_parent_id := None;
            rev_sha1 := "h"; rev_content_model := "wikitext";
            rev_content_format := None; rev_text_id := Some 5 |}
       :: [InsertText {| old_id := 6; old_text := "abc"; old_flags := "utf-8" |};
           InsertRevision
             {| rev_id := 101; rev_page := Some 3; rev_comment := "c";
                rev_user := 1; rev_user_text := "u"; rev_timestamp := 20;
                rev_minor_edit := false; rev_len := 3; rev_parent_id := None;
                rev_sha1 := "h"; rev_content_model := "wikitext";
                rev_content_format := None; rev_text_id := Some 6 |}]
  ∧ ∃ l1' te,
      [InsertText {| old_id := 5; old_text := "abc"; old_flags := "utf-8" |}]
      = l1' ++ [InsertText te] ∧ old_id te = 5.
Proof.
  destruct (text_reference_follows_blob content_grabber)
    as (_ & Hins & Hrev & _).
  assert (emitted (gen_insert content_grabber) NotStarted
          = [InsertText {| old_id := 5; old_text := "abc";
                           old_flags := "utf-8" |}]
            ++ InsertRevision
                 {| rev_id := 100; rev_page := Some 3; rev_comment := "c";
                    rev_user := 1; rev_user_text := "u"; rev_timestamp := 10;
                    rev_minor_edit := false; rev_len := 3;
                    rev_parent_id := None; rev_sha1 := "h";
                    rev_content_model := "wikitext";
                    rev_content_format := None; rev_text_id := Some 5 |}
               :: [InsertText {| old_id := 6; old_text := "abc";
                                 old_flags := "utf-8" |};
                   InsertRevision
                     {| rev_id := 101; rev_page := Some 3; rev_comment := "c";
                        rev_user := 1; rev_user_text := "u";
                        rev_timestamp := 20; rev_minor_edit := false;
                        rev_len := 3; rev_parent_id := None; rev_sha1 := "h";
                        rev_content_model := "wikitext";
                        rev_content_format := None; rev_text_id := Some 6 |}])
    as Heq by reflexivity.
  split; [exact Heq|].
  exact (Hrev _ _ _ _ (Hins NotStarted) Heq).
Defined.

(** ** A sync without content *)

Lemma metadata_only_ret {A} (a : A) : metadata_only (ret a).
Proof. intros s o r [= <- <-]. split; [constructor|]. by intros ? ? [= _ <-]. Qed.

Lemma metadata_only_raise {A} e : metadata_only (@raise A e).
Proof. intros s o r [= <- <-]. split; [constructor|done]. Qed.

Lemma metadata_only_lift {A} (r : error + A) : metadata_only (lift r).
Proof. destruct r; [apply metadata_only_raise|apply metadata_only_ret]. Qed.

Lemma metadata_only_yield o : without_text o → metadata_only (yield o).
Proof.
  intros Ho s o' r [= <- <-]. split; [by repeat constructor|].
  by intros ? ? [= _ <-].
Qed.

Lemma metadata_only_bind {A B} (m : Gen A) (k : A → Gen B) :
  metadata_only m → (∀ a, metadata_only (k a)) → metadata_only (bind m k).
Proof.
  intros Hm Hk s o r. unfold bind.
  destruct (m s) as [o1 [e1|[a s1]]] eqn:Hms.
  - intros [= <- <-]. destruct (Hm _ _ _ Hms) as [H1 _]. by split.
  - destruct (k a s1) as [o2 r2] eqn:Hks. intros [= <- <-].
    destruct (Hm _ _ _ Hms) as [H1 H1'].
    destruct (Hk a _ _ _ Hks) as [H2 H2'].
    specialize (H1' _ _ eq_refl) as ->.
    split; [by apply Forall_app|done].
Qed.

Lemma metadata_only_bind_ret {A B} (a : A) (k : A → Gen B) :
  metadata_only (k a) → metadata_only (bind (ret a) k).
Proof. intros Hk s o r. rewrite bind_ret_l. apply Hk. Qed.

Lemma metadata_only_for_each {A} (l : list A) (body : A → Gen unit) :
  (∀ x, metadata_only (body x)) → metadata_only (for_each l body).
Proof.
  intros Hb. induction l as [|x l IH]; simpl.
  - apply metadata_only_ret.
  - apply metadata_only_bind; auto.
Qed.

Lemma metadata_only_for_fold {A S} (l : list A) (body : S → A → Gen S) s0 :
  (∀ st x, metadata_only (body st x)) → metadata_only (for_fold l body s0).
Proof.
  intros Hb. revert s0. induction l as [|x l IH]; intros s0; simpl.
  - apply metadata_only_ret.
  - apply metadata_only_bind; auto.
Qed.

Lemma metadata_only_getitem {A} key (value : option A) :
  metadata_only (getitem key value).
Proof. destruct value; [apply metadata_only_ret|apply metadata_only_raise]. Qed.

Ltac metadata :=
  repeat first
    [ apply metadata_only_ret
    | apply metadata_only_raise
    | apply metadata_only_lift
    | apply metadata_only_getitem
    | apply metadata_only_bind; [|intros ?]
    | apply metadata_only_for_each; intros ?
    | apply metadata_only_for_fold; intros ? ?
    | apply metadata_only_yield; done ].

Lemma metadata_only_gen_revisions g page :
  with_content g = false → metadata_only (gen_revisions g page).
Proof.
  intros Hc. unfold gen_revisions, gen_revisions_body, gen_content.
  rewrite Hc. apply metadata_only_for_each. intros rev.
  do 4 (apply metadata_only_bind; [apply metadata_only_getitem|intros ?]).
  apply metadata_only_bind_ret. metadata.
Qed.

Lemma metadata_only_gen_deletedrevisions g page :
  with_content g = false → metadata_only (gen_deletedrevisions g page).
Proof.
  intros Hc. unfold gen_deletedrevisions, gen_deletedrevisions_body,
    gen_content. cbv zeta.
  rewrite Hc. apply metadata_only_for_each. intros rev.
  do 4 (apply metadata_only_bind; [apply metadata_only_getitem|intros ?]).
  apply metadata_only_bind_ret. metadata.
Qed.

Lemma metadata_only_gen_update_from_log g since nr st :
  with_content g = false → metadata_only (gen_update_from_log g since nr st).
Proof.
  intros Hc.
  pose proof (metadata_only_gen_revisions g) as Hrev.
  pose proof (metadata_only_gen_deletedrevisions g) as Hdel.
  unfold gen_update_from_log, gen_undelete, gen_new_deleted, gen_imported,
    gen_merge, gen_deleted, gen_added_tags, gen_removed_tags.
  apply metadata_only_bind; [|intros _].
  { apply metadata_only_for_each. intros [t pid]. metadata. }
  apply metadata_only_bind; [|intros nr1].
  { apply metadata_only_for_fold. intros nr' chunk.
    unfold gen_new_deleted_chunk. destruct (has_drvcontinue _);
      [metadata|].
    apply metadata_only_for_fold. intros nr'' p.
    unfold gen_page_deletedrevisions. destruct (qp_deletedrevisions _);
      [|metadata].
    apply metadata_only_bind; [by apply Hdel|intros _; metadata]. }
  apply metadata_only_bind; [|intros nr2].
  { apply metadata_only_for_fold. intros nr' chunk.
    unfold gen_imported_chunk. destruct (_ || _)%bool; [metadata|].
    apply metadata_only_for_fold. intros nr'' p.
    apply metadata_only_bind; [|intros nr3].
    - unfold gen_page_revisions. destruct (qp_revisions _); [|metadata].
      apply metadata_only_bind; [by apply Hrev|intros _; metadata].
    - unfold gen_page_deletedrevisions. destruct (qp_deletedrevisions _);
        [|metadata].
      apply metadata_only_bind; [by apply Hdel|intros _; metadata]. }
  apply metadata_only_bind; [|intros _].
  { apply metadata_only_for_each. intros [p params].
    destruct (bool_decide _); metadata. }
  apply metadata_only_bind; [|intros _].
  { apply metadata_only_for_each. intros [r b]. metadata. }
  apply metadata_only_bind; [|intros _].
  { apply metadata_only_for_each. intros [r a]. metadata.
    destruct (db_revision_exists g r); metadata. }
  apply metadata_only_for_each. intros [r a]. metadata.
Qed.

Lemma metadata_only_after_reset {A} (m : Gen A) s :
  metadata_only m →
  Forall without_text (emitted (_get_text_id_gen ;;; m) s)
  ∧ ∀ a s', outcome (_get_text_id_gen ;;; m) s = inr (a, s') → s' = NotStarted.
Proof.
  intros Hm. unfold emitted, outcome, bind, _get_text_id_gen.
  destruct (m NotStarted) as [o r] eqn:Hrun. simpl.
  destruct (Hm _ _ _ Hrun) as [Ho Hs]. split; [done|]. intros a s' ->.
  by apply (Hs a).
Qed.

(** X3.  A sync without content, an update or a full insert, yields no blob
    and no row with a text ID, and it never runs the generator of text IDs:
    the query for the largest blob ID is not sent.  A full insert of feeds
    whose revisions are complete runs to its end that way. *)
Theorem sync_without_content g :
  with_content g = false →
  (∀ since s,
     Forall without_text (emitted (gen_update g since) s)
     ∧ ∀ s', outcome (gen_update g since) s = inr (tt, s') → s' = NotStarted)
  ∧ (∀ s,
       Forall without_text (emitted (gen_insert g) s)
       ∧ (∀ s', outcome (gen_insert g) s = inr (tt, s') → s' = NotStarted)
       ∧ (feed_complete false (api_list g (Allrevisions false None)) →
          feed_complete false (api_list g (Alldeletedrevisions false)) →
          outcome (gen_insert g) s = inr (tt, NotStarted))).
Proof.
  intros Hc. split.
  - intros since s.
    destruct (metadata_only_after_reset
                (new_revids <- gen_new_revisions g since ;;
                 st <- lift (process_log new_revids ∅ (logevents_list g since)
                                         init_log_state) ;;
                 gen_update_from_log g since new_revids st) s) as [Ho Hs].
    { apply metadata_only_bind; [|intros nr].
      - unfold gen_new_revisions. apply metadata_only_for_fold. intros nr page.
        apply metadata_only_bind;
          [by apply metadata_only_gen_revisions|intros _; metadata].
      - apply metadata_only_bind; [apply metadata_only_lift|intros st].
        by apply metadata_only_gen_update_from_log. }
    split; [exact Ho|]. intros s'. apply Hs.
  - intros s.
    destruct (metadata_only_after_reset
                (for_each (api_list g (Allrevisions (with_content g) None))
                          (gen_revisions g) ;;;
                 for_each (api_list g (Alldeletedrevisions (with_content g)))
                          (gen_deletedrevisions g)) s) as [Ho Hs].
    { apply metadata_only_bind; [|intros _].
      - apply metadata_only_for_each. intros page.
        by apply metadata_only_gen_revisions.
      - apply metadata_only_for_each. intros page.
        by apply metadata_only_gen_deletedrevisions. }
    split; [exact Ho|]. split; [intros s'; apply Hs|].
    intros Hlive Hdel. rewrite <-Hc in Hlive, Hdel.
    destruct (gen_insert_run g s Hlive Hdel)
      as (o1 & s1 & o2 & s2 & _ & _ & Hrun).
    assert (outcome (gen_insert g) s = inr (tt, s2)) as Hout
      by (unfold outcome; by rewrite Hrun).
    rewrite Hout. by rewrite (Hs tt s2 Hout).
Qed.

Lemma sync_without_content_witness :
  Forall without_text (emitted (gen_update merge_chain_grabber 0) NotStarted)
  ∧ outcome (gen_insert merge_chain_grabber) (Suspended 9)
    = inr (tt, NotStarted).
Proof.
  destruct (sync_without_content merge_chain_grabber eq_refl) as [Hu Hi].
  split; [apply Hu|].
  apply Hi; apply (bool_decide_unpack _); by vm_compute.
Defined.

(** ** What a full insert stores *)

Lemma yields_only_for_each_in {A} P (l : list A) (body : A → Gen unit) :
  (∀ x, x ∈ l → yields_only P (body x)) → yields_only P (for_each l body).
Proof.
  induction l as [|x l IH]; intros Hb; simpl.
  - apply yields_only_ret.
  - apply yields_only_bind; [apply Hb; by left|intros _].
    apply IH. intros y Hy. apply Hb. by right.
Qed.

Lemma gen_content_run g rev s :
  (with_content g = true → is_Some (rv_content rev)) →
  ∃ o tid s1, gen_content g rev s = (o, inr (tid, s1)).
Proof.
  intros Hc.
  destruct (never_raises_total (gen_content g rev) s
              (gen_content_never g rev Hc)) as (o & tid & s1 & H).
  by eauto.
Qed.

Lemma gen_revisions_unfold g page :
  gen_revisions g page
  = for_each (pg_revisions page) (gen_revisions_body g page).
Proof. reflexivity. Qed.

Lemma gen_deletedrevisions_unfold g page :
  gen_deletedrevisions g page
  = for_each (pg_revisions page) (gen_deletedrevisions_body g page).
Proof. reflexivity. Qed.

Lemma gen_revisions_body_run g page rev s :
  revision_complete (with_content g) rev →
  ∃ o e s1,
    gen_revisions_body g page rev s
    = (o ++ InsertRevision e
         :: flat_map (λ tag, [InsertTaggedRevision (rv_revid rev) tag])
                     (default [] (rv_tags rev)),
       inr (tt, s1))
    ∧ rev_id e = rv_revid rev.
Proof.
  intros ([c Hcm] & [i Hi] & [u Hu] & [h Hh] & Hcontent).
  destruct (gen_content_run g rev s Hcontent) as (o & tid & s1 & Hc).
  eexists o, _, s1. unfold gen_revisions_body. rewrite Hcm, Hi, Hu, Hh.
  cbn [getitem]. rewrite !bind_ret_l.
  rewrite (bind_ok _ _ _ _ _ _ Hc).
  rewrite (bind_ok (yield _) _ s1 _ tt s1 eq_refl).
  rewrite (for_each_pure _ _
             (λ tag, [InsertTaggedRevision (rv_revid rev) tag])) by done.
  split; reflexivity.
Qed.

Lemma gen_deletedrevisions_body_run g page rev s :
  revision_complete (with_content g) rev →
  ∃ o e s1,
    gen_deletedrevisions_body g page rev s
    = (o ++ InsertArchive e
         :: flat_map (λ tag, [InsertTaggedArchivedRevision (rv_revid rev) tag])
                     (default [] (rv_tags rev)),
       inr (tt, s1))
    ∧ ar_rev_id e = rv_revid rev.
Proof.
  intros ([c Hcm] & [i Hi] & [u Hu] & [h Hh] & Hcontent).
  destruct (gen_content_run g rev s Hcontent) as (o & tid & s1 & Hc).
  eexists o, _, s1. unfold gen_deletedrevisions_body. cbv zeta.
  rewrite Hcm, Hi, Hu, Hh. cbn [getitem]. rewrite !bind_ret_l.
  rewrite (bind_ok _ _ _ _ _ _ Hc).
  rewrite (bind_ok (yield _) _ s1 _ tt s1 eq_refl).
  rewrite (for_each_pure _ _
             (λ tag, [InsertTaggedArchivedRevision (rv_revid rev) tag]))
    by done.
  split; reflexivity.
Qed.

(** A loop whose body completes for each of its elements yields, for each
    of them, what the body yields for it. *)
Lemma for_each_emits_all {A} (l : list A) (body : A → Gen unit) x s :
  (∀ y t, y ∈ l → ∃ o t', body y t = (o, inr (tt, t'))) → x ∈ l →
  ∃ t, (body x t).1 ⊆ (for_each l body s).1.
Proof.
  intros Hb Hin. revert s. induction l as [|y l IH]; intros s;
    [by apply elem_of_nil in Hin|].
  simpl. unfold bind.
  destruct (Hb y s) as (o1 & s1 & Hy); [by left|].
  apply elem_of_cons in Hin as [->|Hin].
  - exists s. rewrite Hy. destruct (for_each l body s1) as [o2 r2]. simpl.
    intros o Ho. apply elem_of_app. by left.
  - destruct (IH (λ z t Hz, Hb z t (list_elem_of_further _ _ _ Hz)) Hin s1)
      as (t & Ht).
    exists t. rewrite Hy.
    destruct (for_each l body s1) as [o2 r2]. simpl in *.
    intros o Ho. apply elem_of_app. right. by apply Ht.
Qed.

(** What the generators yield for one revision of a page. *)
Lemma gen_revisions_emits g page rev s :
  page_complete (with_content g) page →
  rev ∈ pg_revisions page →
  (∃ e, rev_id e = rv_revid rev
        ∧ InsertRevision e ∈ (gen_revisions g page s).1)
  ∧ ∀ tag, tag ∈ default [] (rv_tags rev) →
           InsertTaggedRevision (rv_revid rev) tag
           ∈ (gen_revisions g page s).1.
Proof.
  intros Hpc Hin. rewrite gen_revisions_unfold.
  destruct (for_each_emits_all (pg_revisions page)
              (gen_revisions_body g page) rev s) as [t Ht];
    [|done|].
  { intros y t Hy.
    destruct (gen_revisions_body_run g page y t
                (page_complete_revision _ _ _ Hpc Hy))
      as (o & e & t' & -> & _). eauto. }
  destruct (gen_revisions_body_run g page rev t
              (page_complete_revision _ _ _ Hpc Hin))
    as (o & e & t' & Hrun & He).
  rewrite Hrun in Ht. simpl in Ht. split.
  - exists e. split; [done|]. apply Ht, elem_of_app. right. by left.
  - intros tag Htag. apply Ht, elem_of_app. right. right.
    apply elem_of_flat_map. exists tag. split; [done|]. by left.
Qed.

Lemma gen_deletedrevisions_emits g page rev s :
  page_complete (with_content g) page →
  rev ∈ pg_revisions page →
  (∃ e, ar_rev_id e = rv_revid rev
        ∧ InsertArchive e ∈ (gen_deletedrevisions g page s).1)
  ∧ ∀ tag, tag ∈ default [] (rv_tags rev) →
           InsertTaggedArchivedRevision (rv_revid rev) tag
           ∈ (gen_deletedrevisions g page s).1.
Proof.
  intros Hpc Hin. rewrite gen_deletedrevisions_unfold.
  destruct (for_each_emits_all (pg_revisions page)
              (gen_deletedrevisions_body g page) rev s)
    as [t Ht]; [|done|].
  { intros y t Hy.
    destruct (gen_deletedrevisions_body_run g page y t
                (page_complete_revision _ _ _ Hpc Hy))
      as (o & e & t' & -> & _). eauto. }
  destruct (gen_deletedrevisions_body_run g page rev t
              (page_complete_revision _ _ _ Hpc Hin))
    as (o & e & t' & Hrun & He).
  rewrite Hrun in Ht. simpl in Ht. split.
  - exists e. split; [done|]. apply Ht, elem_of_app. right. by left.
  - intros tag Htag. apply Ht, elem_of_app. right. right.
    apply elem_of_flat_map. exists tag. split; [done|]. by left.
Qed.

Lemma gen_revisions_known_tags tags g page :
  tags_known tags [page] →
  yields_only (insert_with_known_tag tags) (gen_revisions g page).
Proof.
  intros Hk. rewrite gen_revisions_unfold.
  apply yields_only_for_each_in. intros rev Hrev.
  unfold gen_revisions_body.
  do 4 (apply yields_only_bind; [apply yields_only_getitem|intros ?]).
  apply yields_only_bind; [by apply gen_content_yields|intros tid].
  apply yields_only_bind; [by apply yields_only_yield|intros _].
  apply yields_only_for_each_in. intros tag Htag.
  apply yields_only_yield. simpl. eapply Hk; [by left|done..].
Qed.

Lemma gen_deletedrevisions_known_tags tags g page :
  tags_known tags [page] →
  yields_only (insert_with_known_tag tags) (gen_deletedrevisions g page).
Proof.
  intros Hk. rewrite gen_deletedrevisions_unfold.
  apply yields_only_for_each_in. intros rev Hrev.
  unfold gen_deletedrevisions_body. cbv zeta.
  do 4 (apply yields_only_bind; [apply yields_only_getitem|intros ?]).
  apply yields_only_bind; [by apply gen_content_yields|intros tid].
  apply yields_only_bind; [by apply yields_only_yield|intros _].
  apply yields_only_for_each_in. intros tag Htag.
  apply yields_only_yield. simpl. eapply Hk; [by left|done..].
Qed.

(** Inserts with known tags all succeed, and what they insert is stored
    afterwards. *)
Lemma execute_all_inserts d ops :
  Forall (insert_with_known_tag (db_tag d)) ops →
  ∃ d', execute_all d ops = Some d'
        ∧ db_tag d' = db_tag d
        ∧ dom (db_text d) ⊆ dom (db_text d')
        ∧ dom (db_revision d) ⊆ dom (db_revision d')
        ∧ dom (db_archive d) ⊆ dom (db_archive d')
        ∧ db_tagged_revision d ⊆ db_tagged_revision d'
        ∧ db_tagged_archived_revision d ⊆ db_tagged_archived_revision d'
        ∧ (∀ e, InsertText e ∈ ops → old_id e ∈ dom (db_text d'))
        ∧ (∀ e, InsertRevision e ∈ ops → rev_id e ∈ dom (db_revision d'))
        ∧ (∀ e, InsertArchive e ∈ ops → ar_rev_id e ∈ dom (db_archive d'))
        ∧ (∀ r name, InsertTaggedRevision r name ∈ ops →
             ∃ tid, db_tag d !! name = Some tid
                    ∧ (r, tid) ∈ db_tagged_revision d')
        ∧ (∀ r name, InsertTaggedArchivedRevision r name ∈ ops →
             ∃ tid, db_tag d !! name = Some tid
                    ∧ (r, tid) ∈ db_tagged_archived_revision d').
Proof.
  revert d. induction ops as [|o ops IH]; intros d Hok.
  - exists d. simpl. repeat split; try done; by intros * ?%elem_of_nil.
  - apply Forall_cons in Hok as [Ho Hok].
    assert (∃ d1, execute d o = Some d1
                  ∧ db_tag d1 = db_tag d
                  ∧ dom (db_text d) ⊆ dom (db_text d1)
                  ∧ dom (db_revision d) ⊆ dom (db_revision d1)
                  ∧ dom (db_archive d) ⊆ dom (db_archive d1)
                  ∧ db_tagged_revision d ⊆ db_tagged_revision d1
                  ∧ db_tagged_archived_revision d
                    ⊆ db_tagged_archived_revision d1
                  ∧ (∀ e, o = InsertText e → old_id e ∈ dom (db_text d1))
                  ∧ (∀ e, o = InsertRevision e →
                          rev_id e ∈ dom (db_revision d1))
                  ∧ (∀ e, o = InsertArchive e →
                          ar_rev_id e ∈ dom (db_archive d1))
                  ∧ (∀ r name, o = InsertTaggedRevision r name →
                       ∃ tid, db_tag d !! name = Some tid
                              ∧ (r, tid) ∈ db_tagged_revision d1)
                  ∧ (∀ r name, o = InsertTaggedArchivedRevision r name →
                       ∃ tid, db_tag d !! name = Some tid
                              ∧ (r, tid) ∈ db_tagged_archived_revision d1))
      as (d1 & Hex & Htag & Ht & Hr & Ha & Htr & Hta & H1 & H2 & H3 & H4 & H5).
    { destruct o; simpl in Ho; try done.
      - eexists. split; [done|]. simpl.
        repeat split; try done; try set_solver.
      - eexists. split; [done|]. unfold insert_revision.
        destruct (db_revision d !! rev_id e) eqn:He; simpl;
          repeat split; try done; try set_solver.
      - eexists. split; [done|]. unfold insert_archive.
        destruct (db_archive d !! ar_rev_id e) eqn:He; simpl;
          repeat split; try done; try set_solver.
      - destruct Ho as [tid Htid]. eexists. simpl. rewrite Htid. simpl.
        split; [done|]. simpl. repeat split; try done; try set_solver.
      - destruct Ho as [tid Htid]. eexists. simpl. rewrite Htid. simpl.
        split; [done|]. simpl. repeat split; try done; try set_solver. }
    rewrite <-Htag in Hok.
    destruct (IH d1 Hok)
      as (d' & Hex' & Htag' & Ht' & Hr' & Ha' & Htr' & Hta'
          & H1' & H2' & H3' & H4' & H5').
    exists d'. simpl. rewrite Hex. simpl. split; [done|].
    split; [congruence|].
    split; [set_solver|]. split; [set_solver|]. split; [set_solver|].
    split; [set_solver|]. split; [set_solver|].
    split; [|split; [|split; [|split]]].
    + intros e [Heq|Hin]%elem_of_cons; [|by auto]. apply Ht'. by apply H1.
    + intros e [Heq|Hin]%elem_of_cons; [|by auto]. apply Hr'. by apply H2.
    + intros e [Heq|Hin]%elem_of_cons; [|by auto]. apply Ha'. by apply H3.
    + intros r name [Heq|Hin]%elem_of_cons.
      * destruct (H4 r name (eq_sym Heq)) as (tid & ? & ?). exists tid.
        split; [done|]. by apply Htr'.
      * rewrite <-Htag. by auto.
    + intros r name [Heq|Hin]%elem_of_cons.
      * destruct (H5 r name (eq_sym Heq)) as (tid & ? & ?). exists tid.
        split; [done|]. by apply Hta'.
      * rewrite <-Htag. by auto.
Qed.

Lemma tags_known_page tags pages page :
  tags_known tags pages → page ∈ pages → tags_known tags [page].
Proof.
  intros Hk Hin p rev tag Hp%list_elem_of_singleton. subst p. by apply Hk.
Qed.

(** X4.  When the revisions of the two feeds are complete, so that the full
    insert runs to its end: into a replica that stores every tag of the two
    feeds, all operations of the full insert execute, and afterwards every
    revision of the live feed has a row in [revision] and its tags in
    [tagged_revision], and every revision of the deleted feed has a row in
    [archive] and its tags in [tagged_archived_revision]. *)
Theorem full_insert_stores_feeds g d s :
  feed_complete (with_content g)
                (api_list g (Allrevisions (with_content g) None)) →
  feed_complete (with_content g)
                (api_list g (Alldeletedrevisions (with_content g))) →
  tags_known (db_tag d) (api_list g (Allrevisions (with_content g) None)) →
  tags_known (db_tag d) (api_list g (Alldeletedrevisions (with_content g))) →
  ∃ d', execute_all d (emitted (gen_insert g) s) = Some d'
        ∧ (∀ page rev,
             page ∈ api_list g (Allrevisions (with_content g) None) →
             rev ∈ pg_revisions page →
             rv_revid rev ∈ dom (db_revision d')
             ∧ ∀ tag, tag ∈ default [] (rv_tags rev) →
                 ∃ tid, db_tag d !! tag = Some tid
                        ∧ (rv_revid rev, tid) ∈ db_tagged_revision d')
        ∧ (∀ page rev,
             page ∈ api_list g (Alldeletedrevisions (with_content g)) →
             rev ∈ pg_revisions page →
             rv_revid rev ∈ dom (db_archive d')
             ∧ ∀ tag, tag ∈ default [] (rv_tags rev) →
                 ∃ tid, db_tag d !! tag = Some tid
                        ∧ (rv_revid rev, tid) ∈ db_tagged_archived_revision d').
Proof.
  intros Hclive Hcdel Hlive Harch.
  destruct (gen_insert_run g s Hclive Hcdel)
    as (o1 & s1 & o2 & s2 & Hr1 & Hr2 & Hrun).
  unfold emitted. rewrite Hrun. cbn [fst].
  assert (Forall (insert_with_known_tag (db_tag d)) (o1 ++ o2)) as Hok.
  { apply Forall_app. split.
    - pose proof (yields_only_for_each_in (insert_with_known_tag (db_tag d))
                    (api_list g (Allrevisions (with_content g) None))
                    (gen_revisions g)) as H.
      specialize (H (λ page Hin, gen_revisions_known_tags _ g page
                                   (tags_known_page _ _ _ Hlive Hin))
                    NotStarted).
      by rewrite Hr1 in H.
    - pose proof (yields_only_for_each_in (insert_with_known_tag (db_tag d))
                    (api_list g (Alldeletedrevisions (with_content g)))
                    (gen_deletedrevisions g)) as H.
      specialize (H (λ page Hin, gen_deletedrevisions_known_tags _ g page
                                   (tags_known_page _ _ _ Harch Hin)) s1).
      by rewrite Hr2 in H. }
  destruct (execute_all_inserts d _ Hok)
    as (d' & Hex & _ & _ & _ & _ & _ & _ & _ & Hrev & Har & Htr & Hta).
  exists d'. split; [done|]. split.
  - intros page rev Hpage Hrv.
    destruct (for_each_emits_all
                (api_list g (Allrevisions (with_content g) None))
                (gen_revisions g) page NotStarted) as [t Ht]; [|done|].
    { intros y t' Hy.
      destruct (never_raises_total (gen_revisions g y) t'
                  (gen_revisions_never g y
                     (feed_complete_page _ _ _ Hclive Hy)))
        as (o & [] & t'' & ->). eauto. }
    rewrite Hr1 in Ht. simpl in Ht.
    destruct (gen_revisions_emits g page rev t
                (feed_complete_page _ _ _ Hclive Hpage) Hrv)
      as [(e & He & Hin) Htags].
    split.
    + rewrite <-He. apply Hrev, elem_of_app. left. by apply Ht.
    + intros tag Htag. apply Htr, elem_of_app. left. by apply Ht, Htags.
  - intros page rev Hpage Hrv.
    destruct (for_each_emits_all
                (api_list g (Alldeletedrevisions (with_content g)))
                (gen_deletedrevisions g) page s1) as [t Ht]; [|done|].
    { intros y t' Hy.
      destruct (never_raises_total (gen_deletedrevisions g y) t'
                  (gen_deletedrevisions_never g y
                     (feed_complete_page _ _ _ Hcdel Hy)))
        as (o & [] & t'' & ->). eauto. }
    rewrite Hr2 in Ht. simpl in Ht.
    destruct (gen_deletedrevisions_emits g page rev t
                (feed_complete_page _ _ _ Hcdel Hpage) Hrv)
      as [(e & He & Hin) Htags].
    split.
    + rewrite <-He. apply Har, elem_of_app. right. by apply Ht.
    + intros tag Htag. apply Hta, elem_of_app. right. by apply Ht, Htags.
Qed.

Lemma full_insert_stores_feeds_witness :
  ∃ d', execute_all tag_replica
          (emitted (gen_insert tagged_feed_grabber) NotStarted) = Some d'
        ∧ 100 ∈ dom (db_revision d')
        ∧ (100, 1) ∈ db_tagged_revision d'
        ∧ 50 ∈ dom (db_archive d').
Proof.
  destruct (full_insert_stores_feeds tagged_feed_grabber tag_replica NotStarted)
    as (d' & Hex & Hlive & Harch).
  - apply (bool_decide_unpack _). by vm_compute.
  - apply (bool_decide_unpack _). by vm_compute.
  - intros page rev tag Hp%list_elem_of_singleton. subst page.
    intros Hr%list_elem_of_singleton. subst rev.
    intros Ht%list_elem_of_singleton. subst tag. by eexists.
  - intros page rev tag Hp%list_elem_of_singleton. subst page.
    intros Hr%list_elem_of_singleton. subst rev.
    by intros Ht%elem_of_nil.
  - exists d'. split; [done|].
    destruct (Hlive _ (example_rev 100 10 ["t"])
                (list_elem_of_here _ _) (list_elem_of_here _ _))
      as [H100 Htags].
    destruct (Htags "t" (list_elem_of_here _ _)) as (tid & Htid & Hlink).
    injection Htid as <-.
    destruct (Harch _ (example_rev 50 5 [])
                (list_elem_of_here _ _) (list_elem_of_here _ _)) as [H50 _].
    done.
Defined.

(** ** What the loop over the log events collects *)

Lemma dict_set_all_get (ids : list Z) (v : Z) (d : list (Z * Z)) k :
  dict_get k (foldl (λ dr revid, dict_set revid v dr) d ids)
  = if bool_decide (k ∈ ids) then Some v else dict_get k d.
Proof.
  revert d. induction ids as [|i ids IH]; intros d.
  - cbn [foldl]. by rewrite bool_decide_eq_false_2 by apply not_elem_of_nil.
  - cbn [foldl]. rewrite IH.
    destruct (decide (k ∈ ids)) as [Hin|Hni].
    + rewrite !bool_decide_eq_true_2; [done|by right|done].
    + rewrite (bool_decide_eq_false_2 (k ∈ ids)) by done.
      destruct (decide (i = k)) as [->|Hne].
      * rewrite bool_decide_eq_true_2 by (by left). apply dict_get_set_eq.
      * rewrite bool_decide_eq_false_2
          by (intros [?|?]%elem_of_cons; congruence).
        by apply dict_get_set_ne.
Qed.

Lemma dict_set_all_NoDup (ids : list Z) (v : Z) (d : list (Z * Z)) :
  NoDup d.*1 → NoDup (foldl (λ dr revid, dict_set revid v dr) d ids).*1.
Proof.
  revert d. induction ids as [|i ids IH]; intros d Hnd; simpl; [done|].
  by apply IH, dict_set_NoDup.
Qed.

Lemma log_summary_init : log_summary init_log_state [].
Proof.
  split; simpl; try done.
  - intros p. split; [set_solver|by intros ?%elem_of_nil].
  - intros p. split; [set_solver|by intros ?%elem_of_nil].
  - constructor.
  - constructor.
Qed.

Lemma process_le_summary nr ndr st le st' les :
  process_le nr ndr st le = inr st' →
  log_summary st les → log_summary st' (les ++ [le]).
Proof.
  intros Hle [Hdr Hmp Hmv Him Hn1 Hn2].
  assert (∀ p, LeMove p ∈ les ++ [le] ↔ LeMove p ∈ les ∨ LeMove p = le) as Emv.
  { intros p. by rewrite elem_of_app, list_elem_of_singleton. }
  assert (∀ p, LeImport p ∈ les ++ [le] ↔ LeImport p ∈ les ∨ LeImport p = le)
    as Eim.
  { intros p. by rewrite elem_of_app, list_elem_of_singleton. }
  assert (∀ revid, last_bitmask revid (les ++ [le])
            = match le with
              | LeDeleteRevision _ ids new_bitmask =>
                  if bool_decide (revid ∈ ids) then Some new_bitmask
                  else last_bitmask revid les
              | _ => last_bitmask revid les
              end) as Ebm.
  { intros revid. unfold last_bitmask. by rewrite foldl_app. }
  assert (∀ p, last_merge p (les ++ [le])
            = match le with
              | LeMerge lp dns dt mp =>
                  if bool_decide (lp = p)
                  then Some {| dest_ns := dns; dest_title := dt;
                               mergepoint := mp |}
                  else last_merge p les
              | _ => last_merge p les
              end) as Emg.
  { intros p. unfold last_merge. by rewrite foldl_app. }
  assert (∀ p, le ≠ LeMove p →
               (p ∈ moved_pages st ↔ LeMove p ∈ les ++ [le])) as Hmv'.
  { intros p Hne. rewrite Emv, Hmv. split; [by left|].
    by intros [?|?]; [|congruence]. }
  assert (∀ p, le ≠ LeImport p →
               (p ∈ imported_pages st ↔ LeImport p ∈ les ++ [le])) as Him'.
  { intros p Hne. rewrite Eim, Him. split; [by left|].
    by intros [?|?]; [|congruence]. }
  destruct le as [t|t pid|pt ids bm| |lp|lp dns dt mp|lp|[r|] a b|];
    simpl in Hle.
  - injection Hle as <-. split; simpl; try done;
      intros p; rewrite ?Ebm, ?Emg; auto.
  - injection Hle as <-. split; simpl; try done;
      intros p; rewrite ?Ebm, ?Emg; auto.
  - case_bool_decide; [|done]. injection Hle as <-. split; simpl; try done.
    + intros revid. rewrite Ebm, dict_set_all_get.
      case_bool_decide; [done|]. apply Hdr.
    + intros p. rewrite Emg. apply Hmp.
    + intros p. by apply Hmv'.
    + intros p. by apply Him'.
    + by apply dict_set_all_NoDup.
  - injection Hle as <-. split; simpl; try done;
      intros p; rewrite ?Ebm, ?Emg; auto.
  - injection Hle as <-. split; simpl; try done.
    + intros p. rewrite Ebm. apply Hdr.
    + intros p. rewrite Emg. apply Hmp.
    + intros p. by apply Hmv'.
    + intros p. rewrite Eim, elem_of_union, elem_of_singleton, Him.
      split; (intros [?|?]; [by left|right; congruence]).
  - injection Hle as <-. split; simpl; try done.
    + intros p. rewrite Ebm. apply Hdr.
    + intros p. rewrite Emg. case_bool_decide as Hp.
      * subst. apply dict_get_set_eq.
      * rewrite dict_get_set_ne by done. apply Hmp.
    + intros p. by apply Hmv'.
    + intros p. by apply Him'.
    + by apply dict_set_NoDup.
  - injection Hle as <-. split; simpl; try done.
    + intros p. rewrite Ebm. apply Hdr.
    + intros p. rewrite Emg. apply Hmp.
    + intros p. rewrite Emv, elem_of_union, elem_of_singleton, Hmv.
      split; (intros [?|?]; [by left|right; congruence]).
    + intros p. by apply Him'.
  - assert (deleted_revisions st' = deleted_revisions st
            ∧ merged_pages st' = merged_pages st
            ∧ moved_pages st' = moved_pages st
            ∧ imported_pages st' = imported_pages st) as (E1 & E2 & E3 & E4).
    { case_bool_decide; [|by injection Hle as <-].
      case_bool_decide; [|done]. by injection Hle as <-. }
    split; rewrite ?E1, ?E2, ?E3, ?E4; try done;
      intros p; rewrite ?Ebm, ?Emg; auto.
  - injection Hle as <-. split; simpl; try done;
      intros p; rewrite ?Ebm, ?Emg; auto.
  - injection Hle as <-. split; simpl; try done;
      intros p; rewrite ?Ebm, ?Emg; auto.
Qed.

Lemma process_log_summary nr ndr les2 st st' les1 :
  process_log nr ndr les2 st = inr st' →
  log_summary st les1 → log_summary st' (les1 ++ les2).
Proof.
  revert st les1. induction les2 as [|le les2 IH]; intros st les1; simpl.
  - intros [= <-]. by rewrite app_nil_r.
  - destruct (process_le nr ndr st le) as [|st1] eqn:Hle; [done|].
    intros Hlog Hsum.
    replace (les1 ++ le :: les2) with ((les1 ++ [le]) ++ les2)
      by (by rewrite <-app_assoc).
    eapply IH; [done|]. by eapply process_le_summary.
Qed.

Lemma process_log_ok_summary nr ndr les :
  Forall le_ok les →
  ∃ st, process_log nr ndr les init_log_state = inr st ∧ log_summary st les.
Proof.
  intros Hok. destruct (process_log_ok nr ndr les init_log_state Hok) as [st Hst].
  exists st. split; [done|].
  by apply (process_log_summary nr ndr les init_log_state st [] Hst),
           log_summary_init.
Qed.

Lemma gen_deleted_run dr s :
  gen_deleted dr s
  = (flat_map (λ e, [UpdateRevDeleted e.1 e.2; UpdateArDeleted e.1 e.2]) dr,
     inr (tt, s)).
Proof. apply for_each_pure. by intros [revid bitmask] s'. Qed.

(** X5.  The deletion bitmask of a revision is that of the last
    revision-delete event of the window that names it; the update sets it
    once, with one operation against [revision] and one against [archive],
    and revisions no such event names get no operation. *)
Theorem deletion_bitmask_last_event_wins nr ndr les :
  Forall le_ok les →
  ∃ st, process_log nr ndr les init_log_state = inr st
        ∧ (∀ revid, dict_get revid (deleted_revisions st)
                    = last_bitmask revid les)
        ∧ NoDup (deleted_revisions st).*1
        ∧ ∀ s,
            gen_deleted (deleted_revisions st) s
            = (flat_map (λ e, [UpdateRevDeleted e.1 e.2;
                               UpdateArDeleted e.1 e.2])
                        (deleted_revisions st), inr (tt, s))
            ∧ ∀ revid bitmask,
                (UpdateRevDeleted revid bitmask
                 ∈ emitted (gen_deleted (deleted_revisions st)) s
                 ↔ last_bitmask revid les = Some bitmask)
                ∧ (UpdateArDeleted revid bitmask
                   ∈ emitted (gen_deleted (deleted_revisions st)) s
                   ↔ last_bitmask revid les = Some bitmask).
Proof.
  intros Hok. destruct (process_log_ok_summary nr ndr les Hok) as (st & Hst & Hsum).
  destruct Hsum as [Hdr _ _ _ Hnd _].
  exists st. split; [done|]. split; [done|]. split; [done|].
  intros s. split; [apply gen_deleted_run|].
  intros revid bitmask. unfold emitted. rewrite gen_deleted_run. cbn [fst].
  rewrite !elem_of_flat_map, <-Hdr. split; split.
  - intros ([r b] & Hin & Ho). simpl in Ho.
    apply elem_of_cons in Ho as [[= -> ->]|Ho];
      [|apply list_elem_of_singleton in Ho; done].
    by apply dict_in_get_Some.
  - intros Hget. exists (revid, bitmask).
    split; [by apply dict_get_Some_in|]. by left.
  - intros ([r b] & Hin & Ho). simpl in Ho.
    apply elem_of_cons in Ho as [[=]|Ho].
    apply list_elem_of_singleton in Ho as [= -> ->].
    by apply dict_in_get_Some.
  - intros Hget. exists (revid, bitmask).
    split; [by apply dict_get_Some_in|]. right. by left.
Qed.

Lemma deletion_bitmask_last_event_wins_witness :
  ∃ st, process_log ∅ ∅
          [LeDeleteRevision "revision" [4; 5] 1;
           LeDeleteRevision "revision" [5] 6] init_log_state = inr st
        ∧ emitted (gen_deleted (deleted_revisions st)) NotStarted
          = [UpdateRevDeleted 4 1; UpdateArDeleted 4 1;
             UpdateRevDeleted 5 6; UpdateArDeleted 5 6]
        ∧ UpdateRevDeleted 5 6
          ∈ emitted (gen_deleted (deleted_revisions st)) NotStarted.
Proof.
  destruct (deletion_bitmask_last_event_wins ∅ ∅
              [LeDeleteRevision "revision" [4; 5] 1;
               LeDeleteRevision "revision" [5] 6])
    as (st & Hst & _ & _ & Hops).
  { repeat constructor. }
  exists st. split; [done|]. split.
  - simpl in Hst. injection Hst as <-. reflexivity.
  - destruct (Hops NotStarted) as [_ H]. by apply H.
Defined.

Lemma last_merge_is_Some p les :
  is_Some (last_merge p les) ↔ ∃ dns dt mp, LeMerge p dns dt mp ∈ les.
Proof.
  unfold last_merge.
  induction les as [|le les IH] using rev_ind.
  - split; [by intros [? ?]|by intros (? & ? & ? & ?%elem_of_nil)].
  - rewrite foldl_app. cbn [foldl].
    setoid_rewrite elem_of_app. setoid_rewrite list_elem_of_singleton.
    destruct le as [| | | | |lp dns dt mp| | |]; try (rewrite IH; split;
      [intros (a & b & c & H); exists a, b, c; by left
      |intros (a & b & c & [H|H]); [by exists a, b, c|done]]).
    case_bool_decide as Hp.
    + subst. split; [|by eauto]. intros _. exists dns, dt, mp. by right.
    + rewrite IH. split.
      * intros (a & b & c & H). exists a, b, c. by left.
      * intros (a & b & c & [H|H]); [by exists a, b, c|congruence].
Qed.

Lemma gen_merge_run merged moved s :
  (∀ p, p ∈ merged.*1 → p ∉ moved) →
  gen_merge merged moved s
  = (flat_map (λ e, [MergeRevision e.1 (dest_ns e.2) (dest_title e.2)
                                   (mergepoint e.2)]) merged,
     inr (tt, s)).
Proof.
  intros Hfree. unfold gen_merge.
  induction merged as [|[p params] merged IH]; [done|].
  cbn [for_each]. unfold bind.
  rewrite bool_decide_eq_false_2 by (apply Hfree; by left).
  cbn [yield]. rewrite IH by (intros q Hq; apply Hfree; by right). done.
Qed.

Lemma dict_keys_is_Some {V} (k : Z) (d : list (Z * V)) :
  k ∈ d.*1 ↔ is_Some (dict_get k d).
Proof.
  rewrite <-not_eq_None_Some, dict_get_None_keys.
  split; [tauto|]. intros H. by destruct (decide (k ∈ d.*1)).
Qed.

(** X6.  The merges of the window.  When some page has both a merge event
    and a move event in the log, in whichever order, the merge phase ends
    with [NotImplementedError]; when no page has, it completes and yields
    one merge per merged page, with the parameters of the page's last merge
    event. *)
Theorem merge_phase_outcome nr ndr les :
  Forall le_ok les →
  ∃ st, process_log nr ndr les init_log_state = inr st
        ∧ ∀ s,
            ((∃ p dns dt mp, LeMerge p dns dt mp ∈ les ∧ LeMove p ∈ les) →
             outcome (gen_merge (merged_pages st) (moved_pages st)) s
             = inl NotImplemented_merge)
            ∧ ((∀ p dns dt mp, LeMerge p dns dt mp ∈ les → LeMove p ∉ les) →
               outcome (gen_merge (merged_pages st) (moved_pages st)) s
               = inr (tt, s)
               ∧ NoDup (emitted (gen_merge (merged_pages st)
                                           (moved_pages st)) s)
               ∧ ∀ p dns dt mp,
                   MergeRevision p dns dt mp
                   ∈ emitted (gen_merge (merged_pages st) (moved_pages st)) s
                   ↔ last_merge p les
                     = Some {| dest_ns := dns; dest_title := dt;
                               mergepoint := mp |}).
Proof.
  intros Hok. destruct (process_log_ok_summary nr ndr les Hok) as (st & Hst & Hsum).
  destruct Hsum as [_ Hmg Hmv _ _ Hnd].
  exists st. split; [done|]. intros s. split.
  - intros (p & dns & dt & mp & Hmerge & Hmove).
    apply (gen_merge_conflict _ _ p).
    + apply dict_keys_is_Some. rewrite Hmg. apply last_merge_is_Some. eauto.
    + by apply Hmv.
  - intros Hfree.
    assert (∀ p, p ∈ (merged_pages st).*1 → p ∉ moved_pages st) as Hfree'.
    { intros p Hp%dict_keys_is_Some. rewrite Hmg in Hp.
      apply last_merge_is_Some in Hp as (dns & dt & mp & Hin).
      rewrite Hmv. by eapply Hfree. }
    unfold outcome, emitted. rewrite (gen_merge_run _ _ s Hfree'). cbn [fst snd].
    split; [done|]. split.
    + clear -Hnd. induction (merged_pages st) as [|[p params] l IH]; simpl.
      { constructor. }
      apply NoDup_cons in Hnd as [Hni Hnd]. apply NoDup_cons. split; [|auto].
      rewrite elem_of_flat_map. intros ([q qp] & Hin & Ho). simpl in Ho.
      apply list_elem_of_singleton in Ho as [= -> _ _ _].
      apply Hni. apply list_elem_of_fmap. by exists (q, qp).
    + intros p dns dt mp. rewrite elem_of_flat_map, <-Hmg. split.
      * intros ([q [a b c]] & Hin & Ho). simpl in Ho.
        apply list_elem_of_singleton in Ho as [= -> -> -> ->].
        by apply dict_in_get_Some.
      * intros Hget%dict_get_Some_in. eexists. split; [exact Hget|]. by left.
Qed.

Lemma merge_phase_outcome_witness :
  (∃ st, process_log ∅ ∅ [LeMove 7; LeMerge 7 0 "Target" 100] init_log_state
         = inr st
         ∧ outcome (gen_merge (merged_pages st) (moved_pages st)) NotStarted
           = inl NotImplemented_merge)
  ∧ ∃ st, process_log ∅ ∅ [LeMerge 7 0 "Old" 50; LeMove 8;
                           LeMerge 7 0 "Target" 100] init_log_state = inr st
          ∧ outcome (gen_merge (merged_pages st) (moved_pages st)) NotStarted
            = inr (tt, NotStarted)
          ∧ MergeRevision 7 0 "Target" 100
            ∈ emitted (gen_merge (merged_pages st) (moved_pages st)) NotStarted.
Proof.
  split.
  - destruct (merge_phase_outcome ∅ ∅ [LeMove 7; LeMerge 7 0 "Target" 100])
      as (st & Hst & Hrun).
    { repeat constructor. }
    exists st. split; [done|]. apply (Hrun NotStarted).
    exists 7, 0, "Target", 100. split; [by right; left|by left].
  - destruct (merge_phase_outcome ∅ ∅ [LeMerge 7 0 "Old" 50; LeMove 8;
                                      LeMerge 7 0 "Target" 100])
      as (st & Hst & Hrun).
    { repeat constructor. }
    exists st. split; [done|].
    destruct (Hrun NotStarted) as [_ Hok]. destruct Hok as (Hout & _ & Hops).
    { intros p dns dt mp Hin Hmv.
      rewrite !elem_of_cons, elem_of_nil in Hin.
      rewrite !elem_of_cons, elem_of_nil in Hmv.
      destruct Hin as [[= -> _ _ _]|[[=]|[[= -> _ _ _]|[]]]];
        by destruct Hmv as [[=]|[[=]|[[=]|[]]]]. }
    split; [done|]. by apply Hops.
Defined.

(** ** How an update can end *)












Lemma gen_new_revisions_never g since :
  feed_complete (with_content g)
                (api_list g (Allrevisions (with_content g) (Some since))) →
  raises_only never (gen_new_revisions g since).
Proof.
  intros Hc. apply raises_only_for_fold_in. intros nr p Hp.
  apply raises_only_bind; [|intros _; apply raises_only_ret].
  apply gen_revisions_never. by apply (feed_complete_page _ _ _ Hc).
Qed.



(** ** The revisions of the live feed *)

Lemma add_revids_in nr revs R :
  R ∈ add_revids nr revs ↔ R ∈ nr ∨ ∃ rev, rev ∈ revs ∧ rv_revid rev = R.
Proof.
  unfold add_revids. revert nr.
  induction revs as [|rev revs IH]; intros nr; simpl.
  - split; [by left|]. intros [?|(? & ?%elem_of_nil & _)]; done.
  - rewrite IH, elem_of_union, elem_of_singleton. split.
    + intros [[?| ->]|(rev' & Hin & <-)]; [by left| |].
      * right. exists rev. split; [by left|done].
      * right. exists rev'. split; [by right|done].
    + intros [?|(rev' & Hin & <-)]; [by left; left|].
      apply elem_of_cons in Hin as [->|Hin]; [by left; right|].
      right. by exists rev'.
Qed.

Lemma for_fold_new_revids g (pages : list page) nr s o nr' s' :
  for_fold pages
    (λ new_revids page,
       gen_revisions g page ;;;
       ret (add_revids new_revids (pg_revisions page))) nr s
  = (o, inr (nr', s')) →
  ∀ R, R ∈ nr' ↔
       R ∈ nr ∨ ∃ page rev, page ∈ pages ∧ rev ∈ pg_revisions page
                            ∧ rv_revid rev = R.
Proof.
  revert nr s o. induction pages as [|page pages IH]; intros nr s o Hrun R.
  - unfold for_fold, ret in Hrun. simplify_eq. split; [by left|].
    intros [?|(? & ? & ?%elem_of_nil & _)]; done.
  - cbn [for_fold] in Hrun. unfold bind at 1 in Hrun. unfold bind at 1 in Hrun.
    destruct (gen_revisions g page s) as [o1 [e|[[] s1]]]; [done|].
    unfold ret at 1 in Hrun.
    destruct (for_fold pages _ _ s1) as [o2 [e|[nr2 s2]]] eqn:Hrest;
      [done|].
    simplify_eq/=. rewrite (IH _ _ _ Hrest R), add_revids_in. split.
    + intros [[?|(rev & Hin & <-)]|(p & rev & Hp & Hin & <-)]; [by left| |].
      * right. exists page, rev. split; [by left|done].
      * right. exists p, rev. split; [by right|done].
    + intros [?|(p & rev & Hp & Hin & <-)]; [by left; left|].
      apply elem_of_cons in Hp as [->|Hp].
      * left. right. by exists rev.
      * right. by exists p, rev.
Qed.

(** The revision ids that the loop over the live feed collects are those of
    the revisions of the feed. *)
Lemma gen_new_revisions_revids g since s o nr s' :
  gen_new_revisions g since s = (o, inr (nr, s')) →
  ∀ R, R ∈ nr ↔
       ∃ page rev,
         page ∈ api_list g (Allrevisions (with_content g) (Some since))
         ∧ rev ∈ pg_revisions page ∧ rv_revid rev = R.
Proof.
  intros Hrun R.
  rewrite (for_fold_new_revids g _ ∅ s o nr s' Hrun R).
  split; [intros [?%elem_of_empty|?]; done|by right].
Qed.

(** On a live feed of complete revisions the loop runs to its end. *)
Lemma gen_new_revisions_run g since s :
  feed_complete (with_content g)
                (api_list g (Allrevisions (with_content g) (Some since))) →
  ∃ o nr s',
    gen_new_revisions g since s = (o, inr (nr, s'))
    ∧ ∀ R, R ∈ nr ↔
           ∃ page rev,
             page ∈ api_list g (Allrevisions (with_content g) (Some since))
             ∧ rev ∈ pg_revisions page ∧ rv_revid rev = R.
Proof.
  intros Hc.
  destruct (never_raises_total (gen_new_revisions g since) s
              (gen_new_revisions_never g since Hc)) as (o & nr & s' & Hrun).
  exists o, nr, s'. split; [done|]. by eapply gen_new_revisions_revids.
Qed.

Lemma process_le_fails nr st le :
  le_fails nr le → process_le nr ∅ st le = inl AssertionError.
Proof.
  destruct le as [| | | | | | |[revid|] ta tr|]; simpl; try done.
  - intros Hne. by rewrite bool_decide_eq_false_2.
  - intros [Hnr Hne].
    rewrite bool_decide_eq_true_2 by (split; [done|apply not_elem_of_empty]).
    by rewrite bool_decide_eq_false_2.
Qed.

(** X8.  A failed assertion of the loop over the log events.  When the
    revisions of the live feed are complete, so that the loop over the feed
    raises no [KeyError], and the log holds an event that fails its
    assertion (a revision-delete event whose parameters are not of the type
    "revision", or a tag event of a revision outside the live feed whose
    added and removed tags overlap) after events that pass theirs, the
    update ends with [AssertionError]; by then it has yielded the operations
    of the live feed and nothing else. *)
Theorem failed_assertion_aborts_after_live_feed g since before le after :
  feed_complete (with_content g)
                (api_list g (Allrevisions (with_content g) (Some since))) →
  logevents_list g since = before ++ le :: after →
  Forall le_ok before →
  (∀ nr, (∀ R, R ∈ nr ↔
               ∃ page rev,
                 page ∈ api_list g (Allrevisions (with_content g) (Some since))
                 ∧ rev ∈ pg_revisions page ∧ rv_revid rev = R) →
         le_fails nr le) →
  ∀ s, outcome (gen_update g since) s = inl AssertionError
       ∧ emitted (gen_update g since) s
         = emitted (gen_new_revisions g since) NotStarted.
Proof.
  intros Hfeed Hles Hok Hfail s.
  destruct (gen_new_revisions_run g since NotStarted Hfeed)
    as (o & nr & s1 & Hnew & Hnr).
  assert (process_log nr ∅ (logevents_list g since) init_log_state
          = inl AssertionError) as Hlog.
  { rewrite Hles, process_log_app.
    destruct (process_log_ok nr ∅ before init_log_state Hok) as [st ->].
    simpl. by rewrite (process_le_fails nr st le (Hfail nr Hnr)). }
  assert (gen_update g since s = (o, inl AssertionError)) as Hrun.
  { unfold gen_update.
    rewrite (bind_ok _get_text_id_gen _ s [] tt NotStarted eq_refl).
    rewrite (bind_ok _ _ _ _ _ _ Hnew), Hlog. simpl.
    by rewrite app_nil_r. }
  unfold outcome, emitted. by rewrite Hrun, Hnew.
Qed.

Lemma failed_assertion_aborts_after_live_feed_witness :
  outcome (gen_update failing_log_grabber 0) NotStarted = inl AssertionError
  ∧ emitted (gen_update failing_log_grabber 0) NotStarted
    = emitted (gen_new_revisions failing_log_grabber 0) NotStarted.
Proof.
  apply (failed_assertion_aborts_after_live_feed failing_log_grabber 0
           [LeMove 1] (LeDeleteRevision "logging" [3] 1) [LeMove 2]).
  - apply (bool_decide_unpack _). by vm_compute.
  - reflexivity.
  - repeat constructor.
  - intros nr _. simpl. discriminate.
Defined.

(** ** Tag events of the revisions of the live feed *)

Lemma tags_setdefault_keys R d x :
  x ∈ (tags_setdefault R d).*1 → x = R ∨ x ∈ d.*1.
Proof.
  unfold tags_setdefault. destruct (dict_get R d); [by right|].
  by rewrite dict_set_keys_in.
Qed.

Lemma tag_added_keys R ar t x :
  (x ∈ (tag_added R ar t).1.*1 → x = R ∨ x ∈ ar.1.*1)
  ∧ (x ∈ (tag_added R ar t).2.*1 → x = R ∨ x ∈ ar.2.*1).
Proof.
  destruct ar as [a r]. unfold tag_added. case_bool_decide; simpl.
  - split; [by right|]. by rewrite dict_set_keys_in.
  - split; [|by right]. rewrite dict_set_keys_in.
    intros [?|?%tags_setdefault_keys]; tauto.
Qed.

Lemma tag_removed_keys R ar t x :
  (x ∈ (tag_removed R ar t).1.*1 → x = R ∨ x ∈ ar.1.*1)
  ∧ (x ∈ (tag_removed R ar t).2.*1 → x = R ∨ x ∈ ar.2.*1).
Proof.
  destruct ar as [a r]. unfold tag_removed. case_bool_decide; simpl.
  - split; [|by right]. by rewrite dict_set_keys_in.
  - split; [by right|]. rewrite dict_set_keys_in.
    intros [?|?%tags_setdefault_keys]; tauto.
Qed.

Lemma foldl_tag_keys R
    (f : Z → list (Z * gset string) * list (Z * gset string) → string →
         list (Z * gset string) * list (Z * gset string)) l ar x :
  (∀ ar t x, (x ∈ (f R ar t).1.*1 → x = R ∨ x ∈ ar.1.*1)
             ∧ (x ∈ (f R ar t).2.*1 → x = R ∨ x ∈ ar.2.*1)) →
  (x ∈ (foldl (f R) ar l).1.*1 → x = R ∨ x ∈ ar.1.*1)
  ∧ (x ∈ (foldl (f R) ar l).2.*1 → x = R ∨ x ∈ ar.2.*1).
Proof.
  intros Hf. revert ar. induction l as [|t l IH]; intros ar; simpl.
  - split; by right.
  - destruct (IH (f R ar t)) as [IH1 IH2]. destruct (Hf ar t x) as [H1 H2].
    split; intros Hx; [apply IH1 in Hx|apply IH2 in Hx]; tauto.
Qed.

Lemma process_le_tag_keys nr ndr st le st' x :
  process_le nr ndr st le = inr st' →
  x ∈ nr →
  (x ∉ (added_tags st).*1) ∧ (x ∉ (removed_tags st).*1) →
  (x ∉ (added_tags st').*1) ∧ (x ∉ (removed_tags st').*1).
Proof.
  intros Hle Hx [Ha Hr].
  destruct le as [| | | | | | |[revid|] ta tr|]; simpl in Hle;
    repeat case_bool_decide; simplify_eq/=; try done.
  match goal with H : _ ∧ _ |- _ => destruct H as [Hnr _] end.
  assert (x ≠ revid) as Hne by (by intros ->).
  pose proof (foldl_tag_keys revid tag_removed
                (elements (list_to_set tr : gset string))
                (foldl (tag_added revid) (added_tags st, removed_tags st)
                       (elements (list_to_set ta : gset string))) x
                (tag_removed_keys revid)) as [H1 H2].
  pose proof (foldl_tag_keys revid tag_added
                (elements (list_to_set ta : gset string))
                (added_tags st, removed_tags st) x
                (tag_added_keys revid)) as [H3 H4].
  simpl in H3, H4. split; intros Hin.
  - apply H1 in Hin as [?|Hin]; [done|]. apply H3 in Hin as [?|?]; done.
  - apply H2 in Hin as [?|Hin]; [done|]. apply H4 in Hin as [?|?]; done.
Qed.

Lemma process_log_tag_keys nr ndr les st st' x :
  process_log nr ndr les st = inr st' →
  x ∈ nr →
  (x ∉ (added_tags st).*1) ∧ (x ∉ (removed_tags st).*1) →
  (x ∉ (added_tags st').*1) ∧ (x ∉ (removed_tags st').*1).
Proof.
  revert st. induction les as [|le les IH]; intros st; simpl.
  - by intros [= ->].
  - destruct (process_le nr ndr st le) as [e|st1] eqn:Hle; [done|].
    intros Hlog Hx Hst. apply (IH st1 Hlog Hx).
    by apply (process_le_tag_keys nr ndr st le).
Qed.

Lemma tag_ops_revid g a r o R :
  o ∈ added_tag_ops g a ++ removed_tag_ops r →
  tag_op_revid o = Some R →
  R ∈ a.*1 ∨ R ∈ r.*1.
Proof.
  unfold added_tag_ops, removed_tag_ops.
  rewrite elem_of_app, !elem_of_flat_map.
  intros [([R' s] & Hin & Ho)|([R' s] & Hin & Ho)] Hrev;
    apply elem_of_flat_map in Ho as (t & _ & Ho); simpl in Ho.
  - apply list_elem_of_singleton in Ho as ->.
    rewrite add_tag_op_revid in Hrev. injection Hrev as <-.
    left. apply list_elem_of_fmap. by exists (R', s).
  - right. apply list_elem_of_fmap. exists (R', s). split; [|done].
    unfold remove_tag_ops in Ho.
    apply elem_of_cons in Ho as [->|Ho]; [by injection Hrev|].
    apply list_elem_of_singleton in Ho as ->. by injection Hrev.
Qed.

(** X9.  The revisions of the live feed and the tag events.  On a live feed
    of complete revisions the loop over the feed runs to its end.  Whenever
    it does, the revision ids the update saves from its live feed are those
    of the revisions of the feed's pages, and whatever the log says about
    the tags of such a revision, the update of the tags yields no operation
    for it: its tags are those the insert of the revision came with. *)
Theorem live_feed_revisions_skip_tag_events g since s :
  (feed_complete (with_content g)
                 (api_list g (Allrevisions (with_content g) (Some since))) →
   ∃ o nr s1, gen_new_revisions g since s = (o, inr (nr, s1)))
  ∧ ∀ o nr s1,
      gen_new_revisions g since s = (o, inr (nr, s1)) →
      (∀ R, R ∈ nr ↔
            ∃ page rev,
              page ∈ api_list g (Allrevisions (with_content g) (Some since))
              ∧ rev ∈ pg_revisions page ∧ rv_revid rev = R)
      ∧ ∀ les st,
          process_log nr ∅ les init_log_state = inr st →
          ∀ R, R ∈ nr →
          (dict_get R (added_tags st) = None)
          ∧ (dict_get R (removed_tags st) = None)
          ∧ ∀ s' o', o' ∈ emitted (gen_added_tags g (added_tags st) ;;;
                                   gen_removed_tags (removed_tags st)) s' →
                     tag_op_revid o' ≠ Some R.
Proof.
  split.
  { intros Hc.
    destruct (gen_new_revisions_run g since s Hc) as (o & nr & s1 & Hnew & _).
    by exists o, nr, s1. }
  intros o nr s1 Hnew. split; [by eapply gen_new_revisions_revids|].
  intros les st Hlog R HR.
  destruct (process_log_tag_keys nr ∅ les init_log_state st R Hlog HR)
    as [Ha Hr].
  { split; apply not_elem_of_nil. }
  split; [by apply dict_get_None_keys|].
  split; [by apply dict_get_None_keys|].
  intros s' o'. unfold emitted. rewrite gen_tags_run. cbn [fst].
  intros Hin Hrev. by destruct (tag_ops_revid g _ _ o' R Hin Hrev).
Qed.

Lemma live_feed_revisions_skip_tag_events_witness :
  ∃ o nr s1 st,
    gen_new_revisions live_tagged_grabber 0 NotStarted = (o, inr (nr, s1))
    ∧ process_log nr ∅ (logevents_list live_tagged_grabber 0) init_log_state
      = inr st
    ∧ emitted (gen_added_tags live_tagged_grabber (added_tags st) ;;;
               gen_removed_tags (removed_tags st)) NotStarted
      = [InsertTaggedArchivedRevision 6 "t"]
    ∧ ∀ o', o' ∈ emitted (gen_added_tags live_tagged_grabber (added_tags st) ;;;
                          gen_removed_tags (removed_tags st)) NotStarted →
            tag_op_revid o' ≠ Some 5.
Proof.
  destruct (live_feed_revisions_skip_tag_events live_tagged_grabber 0
              NotStarted) as [Hruns Hall].
  destruct Hruns as (o & nr & s1 & Hnew).
  { apply (bool_decide_unpack _). by vm_compute. }
  destruct (Hall o nr s1 Hnew) as [Hnr Hskip].
  exists o, nr, s1.
  destruct (process_log nr ∅ (logevents_list live_tagged_grabber 0)
                        init_log_state) as [e|st] eqn:Hlog.
  { injection Hnew as <- <- <-. vm_compute in Hlog. discriminate. }
  exists st. split; [done|]. split; [done|].
  assert (5 ∈ nr) as H5.
  { apply Hnr. eexists _, (example_rev 5 10 []).
    split; [apply list_elem_of_here|]. split; [apply list_elem_of_here|done]. }
  destruct (Hskip _ st Hlog 5 H5) as (_ & _ & Hops).
  split; [|apply Hops].
  injection Hnew as <- <- <-. vm_compute in Hlog. injection Hlog as <-.
  vm_compute. reflexivity.
Defined.

(** ** The order of the phases of an update *)

Lemma in_phases_nil kinds : in_phases kinds [].
Proof.
  induction kinds as [|P kinds IH]; simpl; [done|].
  exists [], []. by repeat split.
Qed.

Lemma in_phases_bind {A B} P kinds (m : Gen A) (k : A → Gen B) :
  yields_only P m →
  (∀ a s, in_phases kinds (emitted (k a) s)) →
  ∀ s, in_phases (P :: kinds) (emitted (bind m k) s).
Proof.
  intros Hm Hk s. unfold emitted, bind. specialize (Hm s).
  destruct (m s) as [o1 [e|[a s1]]]; simpl in *.
  - exists o1, []. rewrite app_nil_r. split; [done|].
    split; [done|apply in_phases_nil].
  - specialize (Hk a s1). unfold emitted in Hk.
    destruct (k a s1) as [o2 r2]. simpl in *. by exists o1, o2.
Qed.

Lemma in_phases_last {A} P (m : Gen A) :
  yields_only P m → ∀ s, in_phases [P] (emitted m s).
Proof.
  intros Hm s. exists (emitted m s), []. rewrite app_nil_r.
  split; [done|]. split; [apply Hm|done].
Qed.

Lemma gen_undelete_restore g up : yields_only restore_op (gen_undelete g up).
Proof.
  apply yields_only_for_each. intros [_title pageid]. yields; done.
Qed.

Lemma gen_page_deletedrevisions_archived g nr p :
  yields_only archived_insert (gen_page_deletedrevisions g nr p).
Proof.
  unfold gen_page_deletedrevisions.
  destruct (qp_deletedrevisions p); [|apply yields_only_ret].
  apply yields_only_bind; [apply gen_deletedrevisions_archived|].
  intros _. apply yields_only_ret.
Qed.

Lemma gen_page_revisions_live g nr p :
  yields_only live_insert (gen_page_revisions g nr p).
Proof.
  unfold gen_page_revisions.
  destruct (qp_revisions p); [|apply yields_only_ret].
  apply yields_only_bind; [apply gen_revisions_live|].
  intros _. apply yields_only_ret.
Qed.

Lemma gen_new_deleted_archived g since dp nr :
  yields_only archived_insert (gen_new_deleted g since dp nr).
Proof.
  apply yields_only_for_fold. intros nr' chunk. unfold gen_new_deleted_chunk.
  destruct (has_drvcontinue _); [apply yields_only_raise|].
  apply yields_only_for_fold. intros nr'' p.
  apply gen_page_deletedrevisions_archived.
Qed.

Lemma gen_imported_inserts g ip nr :
  yields_only (λ o, live_insert o ∨ archived_insert o) (gen_imported g ip nr).
Proof.
  apply yields_only_for_fold. intros nr' chunk. unfold gen_imported_chunk.
  destruct (_ || _)%bool; [apply yields_only_raise|].
  apply yields_only_for_fold. intros nr'' p. apply yields_only_bind.
  - eapply yields_only_mono; [|apply gen_page_revisions_live]. by left.
  - intros nr3.
    eapply yields_only_mono; [|apply gen_page_deletedrevisions_archived].
    by right.
Qed.

Lemma gen_merge_merges merged moved :
  yields_only merge_op (gen_merge merged moved).
Proof.
  apply yields_only_for_each. intros [pageid params].
  case_bool_decide; yields. done.
Qed.

Lemma gen_deleted_bitmasks dr : yields_only bitmask_op (gen_deleted dr).
Proof.
  apply yields_only_for_each. intros [revid bitmask]. yields; done.
Qed.

Lemma gen_added_tags_inserts g a : yields_only insert_tag_op (gen_added_tags g a).
Proof.
  apply yields_only_for_each. intros [revid added]. yields.
  destruct (db_revision_exists g _); yields; done.
Qed.

Lemma gen_removed_tags_deletes r : yields_only delete_tag_op (gen_removed_tags r).
Proof.
  apply yields_only_for_each. intros [revid removed]. yields; done.
Qed.

Lemma gen_new_revisions_live g since :
  yields_only live_insert (gen_new_revisions g since).
Proof.
  apply yields_only_for_fold. intros nr page.
  apply yields_only_bind; [apply gen_revisions_live|].
  intros _. apply yields_only_ret.
Qed.

Lemma gen_merge_inr merged moved s o s' :
  gen_merge merged moved s = (o, inr (tt, s')) →
  o = flat_map (λ e, [MergeRevision e.1 (dest_ns e.2) (dest_title e.2)
                                    (mergepoint e.2)]) merged
  ∧ s' = s.
Proof.
  unfold gen_merge. revert s o s'.
  induction merged as [|[p params] merged IH]; intros s o s' Hrun.
  - by injection Hrun as <- <-.
  - cbn [for_each] in Hrun. unfold bind at 1 in Hrun.
    case_bool_decide; [done|]. cbn [yield] in Hrun.
    destruct (for_each merged _ s) as [o2 [e|[[] s2]]] eqn:Hrest; [done|].
    destruct (IH _ _ _ Hrest) as [-> ->]. by injection Hrun as <- <-.
Qed.

Lemma gen_update_in_phases g since s :
  in_phases update_phases (emitted (gen_update g since) s).
Proof.
  unfold update_phases.
  assert (∀ nr st s, in_phases
            [restore_op; archived_insert;
             (λ o, live_insert o ∨ archived_insert o);
             merge_op; bitmask_op; insert_tag_op; delete_tag_op]
            (emitted (gen_update_from_log g since nr st) s)) as Hlog.
  { intros nr st s0. unfold gen_update_from_log.
    apply in_phases_bind; [apply gen_undelete_restore|intros _ s1].
    apply in_phases_bind; [apply gen_new_deleted_archived|intros nr1 s2].
    apply in_phases_bind; [apply gen_imported_inserts|intros nr2 s3].
    apply in_phases_bind; [apply gen_merge_merges|intros _ s4].
    apply in_phases_bind; [apply gen_deleted_bitmasks|intros _ s5].
    apply in_phases_bind; [apply gen_added_tags_inserts|intros _ s6].
    apply in_phases_last, gen_removed_tags_deletes. }
  assert (emitted (gen_update g since) s
          = emitted (nr <- gen_new_revisions g since ;;
                     st <- lift (process_log nr ∅ (logevents_list g since)
                                             init_log_state) ;;
                     gen_update_from_log g since nr st) NotStarted) as ->.
  { unfold emitted, gen_update.
    by rewrite (bind_ok _get_text_id_gen _ s [] tt NotStarted eq_refl). }
  apply in_phases_bind; [apply gen_new_revisions_live|intros nr s1].
  destruct (process_log nr ∅ (logevents_list g since) init_log_state)
    as [e|st]; cbn [lift].
  - unfold emitted. rewrite bind_raise. apply in_phases_nil.
  - unfold emitted. rewrite bind_ret_l. apply Hlog.
Qed.

(** X10.  The order of an update.  Whatever the window holds, and whether
    the update completes or ends with an error, what it yields falls into
    consecutive segments of these kinds, each possibly empty: the inserts of
    the live feed; the operations of the restored pages; the inserts of the
    deleted revisions; the inserts of the imported pages; the merges; the
    deletion bitmasks; the inserts of tag links; the deletes of tag links.
    An update that completes yields exactly, one after the other: what the
    loop over the live feed yields; for each restored page, in the order of
    the restores, the update of [ar_page_id], the move of the tag links and
    the move of the revisions; what the loop over the chunks of deleted
    titles yields; after that, what the loop over the chunks of imported
    pages yields; one merge for each merged page; for each revision with a
    deletion bitmask the update of [revision] and the update of [archive];
    the inserts of the added tags; the deletes of the removed tags. *)
Theorem update_phase_order g since s :
  in_phases update_phases (emitted (gen_update g since) s)
  ∧ ∀ s',
      outcome (gen_update g since) s = inr (tt, s') →
      ∃ live nr s1 st deleted nr1 s2 imported nr2,
        gen_new_revisions g since NotStarted = (live, inr (nr, s1))
        ∧ process_log nr ∅ (logevents_list g since) init_log_state = inr st
        ∧ gen_new_deleted g since (deleted_pages st) nr s1
          = (deleted, inr (nr1, s2))
        ∧ gen_imported g (imported_pages st) nr1 s2
          = (imported, inr (nr2, s'))
        ∧ emitted (gen_update g since) s
          = live
            ++ flat_map (λ e, let title := Title g e.1 in
                              let ns := namespacenumber title in
                              [UpdateArchiveArPageId ns [dbtitle title ns] e.2;
                               MoveTaggedArchivedRevision e.2;
                               MoveRevision e.2])
                        (undeleted_pages st)
            ++ deleted
            ++ imported
            ++ flat_map (λ e, [MergeRevision e.1 (dest_ns e.2)
                                 (dest_title e.2) (mergepoint e.2)])
                        (merged_pages st)
            ++ flat_map (λ e, [UpdateRevDeleted e.1 e.2;
                               UpdateArDeleted e.1 e.2])
                        (deleted_revisions st)
            ++ added_tag_ops g (added_tags st)
            ++ removed_tag_ops (removed_tags st).
Proof.
  split; [apply gen_update_in_phases|].
  unfold outcome, emitted, gen_update. intros s' Hrun.
  apply bind_inr in Hrun as (o0 & [] & s0 & H0 & Hrun & ->).
  injection H0 as <- <-.
  apply bind_inr in Hrun as (live & nr & s1 & Hnew & Hrun & ->).
  apply bind_inr in Hrun as (o2 & st & s2 & Hlog & Hrun & ->).
  destruct (process_log nr ∅ (logevents_list g since) init_log_state)
    as [e|st0] eqn:Hst; [done|]. injection Hlog as <- <- <-.
  unfold gen_update_from_log in *.
  apply bind_inr in Hrun as (o3 & [] & s3 & Hund & Hrun & ->).
  rewrite gen_undelete_run in Hund. injection Hund as <- <-.
  apply bind_inr in Hrun as (deleted & nr1 & s4 & Hdel & Hrun & ->).
  apply bind_inr in Hrun as (imported & nr2 & s5 & Himp & Hrun & ->).
  apply bind_inr in Hrun as (o6 & [] & s6 & Hmerge & Hrun & ->).
  apply gen_merge_inr in Hmerge as [-> ->].
  apply bind_inr in Hrun as (o7 & [] & s7 & Hbm & Hrun & ->).
  rewrite gen_deleted_run in Hbm. injection Hbm as <- <-.
  rewrite gen_tags_run in Hrun |- *. injection Hrun as <-.
  exists live, nr, s1, st0, deleted, nr1, s4, imported, nr2.
  repeat split; done.
Qed.

Lemma update_phase_order_witness :
  ∃ live deleted imported,
    emitted (gen_update all_phases_grabber 0) NotStarted
    = live
      ++ [UpdateArchiveArPageId 0 ["R"] 4; MoveTaggedArchivedRevision 4;
          MoveRevision 4]
      ++ deleted ++ imported
      ++ [MergeRevision 2 0 "C" 20;
          UpdateRevDeleted 8 1; UpdateArDeleted 8 1;
          InsertTaggedArchivedRevision 7 "t";
          DeleteTaggedRevision 7 "u"; DeleteTaggedArchivedRevision 7 "u"]
    ∧ emitted (gen_new_revisions all_phases_grabber 0) NotStarted = live
    ∧ Forall archived_insert deleted ∧ length deleted = 1%nat
    ∧ Forall live_insert imported ∧ length imported = 1%nat.
Proof.
  destruct (update_phase_order all_phases_grabber 0 NotStarted) as [_ Hrun].
  destruct (Hrun NotStarted eq_refl)
    as (live & nr & s1 & st & deleted & nr1 & s2 & imported & nr2
        & Hnew & Hlog & Hdel & Himp & Hops).
  exists live, deleted, imported.
  injection Hnew as <- <- <-. vm_compute in Hlog. injection Hlog as <-.
  vm_compute in Hdel. injection Hdel as <- <- <-.
  vm_compute in Himp. injection Himp as <- <-.
  split; [exact Hops|]. split; [reflexivity|].
  split; [by repeat constructor|]. split; [reflexivity|].
  split; [by repeat constructor|reflexivity].
Defined.

(** ** The effect of the deletion bitmasks on the replica *)

Lemma execute_bitmasks (l : list (Z * Z)) d :
  NoDup l.*1 →
  ∃ d', execute_all d (flat_map (λ e, [UpdateRevDeleted e.1 e.2;
                                       UpdateArDeleted e.1 e.2]) l) = Some d'
        ∧ (∀ k, db_revision d' !! k
                = (λ r, match dict_get k l with
                        | Some bm => set_rev_deleted bm r
                        | None => r
                        end) <$> db_revision d !! k)
        ∧ (∀ k, db_archive d' !! k
                = (λ r, match dict_get k l with
                        | Some bm => set_ar_deleted bm r
                        | None => r
                        end) <$> db_archive d !! k)
        ∧ db_text d' = db_text d
        ∧ db_tagged_revision d' = db_tagged_revision d
        ∧ db_tagged_archived_revision d' = db_tagged_archived_revision d
        ∧ db_tag d' = db_tag d ∧ db_page d' = db_page d.
Proof.
  revert d. induction l as [|[k0 bm0] l IH]; intros d Hnd.
  - exists d. split; [done|]. repeat split; try done.
    + intros k. by destruct (db_revision d !! k).
    + intros k. by destruct (db_archive d !! k).
  - apply NoDup_cons in Hnd as [Hni Hnd]. simpl in Hni.
    apply dict_get_None_keys in Hni.
    set (d2 := with_archive (alter (set_ar_deleted bm0) k0 (db_archive d))
                 (with_revision
                    (alter (set_rev_deleted bm0) k0 (db_revision d)) d)).
    destruct (IH d2 Hnd) as (d' & Hrun & Hrev & Har & Ht & Htr & Hta & Htg & Hp).
    exists d'. split; [exact Hrun|].
    split; [|split; [|by repeat split]].
    + intros k. rewrite Hrev. simpl.
      destruct (decide (k = k0)) as [->|Hne].
      * rewrite Hni, lookup_alter_eq. by destruct (db_revision d !! k0).
      * by rewrite lookup_alter_ne.
    + intros k. rewrite Har. simpl.
      destruct (decide (k = k0)) as [->|Hne].
      * rewrite Hni, lookup_alter_eq. by destruct (db_archive d !! k0).
      * by rewrite lookup_alter_ne.
Qed.

(** X11.  The deletion bitmasks in the replica.  Executed on a replica, the
    bitmask operations of a window leave every revision that some
    revision-delete event names, be it stored in [revision] or in
    [archive], with the bitmask of the last such event; every other row and
    every other relation stay as they were. *)
Theorem deletion_bitmasks_stored nr ndr les d :
  Forall le_ok les →
  ∃ st d',
    process_log nr ndr les init_log_state = inr st
    ∧ (∀ s, execute_all d (emitted (gen_deleted (deleted_revisions st)) s)
            = Some d')
    ∧ (∀ k, db_revision d' !! k
            = (λ r, match last_bitmask k les with
                    | Some bitmask => set_rev_deleted bitmask r
                    | None => r
                    end) <$> db_revision d !! k)
    ∧ (∀ k, db_archive d' !! k
            = (λ r, match last_bitmask k les with
                    | Some bitmask => set_ar_deleted bitmask r
                    | None => r
                    end) <$> db_archive d !! k)
    ∧ db_text d' = db_text d
    ∧ db_tagged_revision d' = db_tagged_revision d
    ∧ db_tagged_archived_revision d' = db_tagged_archived_revision d
    ∧ db_tag d' = db_tag d ∧ db_page d' = db_page d.
Proof.
  intros Hok. destruct (process_log_ok_summary nr ndr les Hok) as (st & Hst & Hsum).
  destruct Hsum as [Hdr _ _ _ Hnd _].
  destruct (execute_bitmasks (deleted_revisions st) d Hnd)
    as (d' & Hrun & Hrev & Har & Hrest).
  exists st, d'. split; [done|]. split.
  { intros s. unfold emitted. by rewrite gen_deleted_run. }
  split; [|split; [|done]].
  - intros k. by rewrite Hrev, Hdr.
  - intros k. by rewrite Har, Hdr.
Qed.

Lemma deletion_bitmasks_stored_witness :
  ∃ st d',
    process_log ∅ ∅ [LeDeleteRevision "revision" [10; 11] 1;
                     LeDeleteRevision "revision" [11; 12] 6]
                init_log_state = inr st
    ∧ execute_all two_tables_replica
        (emitted (gen_deleted (deleted_revisions st)) NotStarted) = Some d'
    ∧ db_revision d' !! 10 = Some (set_rev_deleted 1 stored_revision)
    ∧ db_archive d' !! 11 = Some (set_ar_deleted 6 stored_archived)
    ∧ db_revision d' !! 12 = None.
Proof.
  destruct (deletion_bitmasks_stored ∅ ∅
              [LeDeleteRevision "revision" [10; 11] 1;
               LeDeleteRevision "revision" [11; 12] 6] two_tables_replica)
    as (st & d' & Hst & Hrun & Hrev & Har & _).
  { repeat constructor. }
  exists st, d'. split; [done|]. split; [apply Hrun|].
  split; [|split].
  - rewrite Hrev. reflexivity.
  - rewrite Har. reflexivity.
  - rewrite Hrev. reflexivity.
Defined.

(** ** What no operation does *)

Lemma execute_keeps d o d' :
  execute d o = Some d' →
  (dom (db_revision d) ∪ dom (db_archive d) : gset Z)
    ⊆ dom (db_revision d') ∪ dom (db_archive d')
  ∧ (dom (db_text d) : gset Z) ⊆ dom (db_text d')
  ∧ db_tag d' = db_tag d ∧ db_page d' = db_page d.
Proof.
  destruct o; unfold execute.
  - intros [= <-]. simpl. rewrite dom_insert. set_solver.
  - intros [= <-]. unfold insert_revision.
    destruct (db_revision d !! _); simpl; rewrite dom_insert; set_solver.
  - intros [= <-]. unfold insert_archive.
    destruct (db_archive d !! _); simpl; rewrite dom_insert; set_solver.
  - destruct (db_tag d !! _); simpl; [|done]. by intros [= <-].
  - destruct (db_tag d !! _); simpl; [|done]. by intros [= <-].
  - destruct (db_tag d !! _); by intros [= <-].
  - destruct (db_tag d !! _); by intros [= <-].
  - intros [= <-]. simpl. by rewrite dom_fmap_L.
  - intros [= <-]. simpl. by rewrite dom_fmap_L.
  - intros [= <-]. simpl. by rewrite dom_alter_L.
  - intros [= <-]. simpl. by rewrite dom_alter_L.
  - cbv zeta. case_bool_decide; [|done]. by intros [= <-].
  - cbv zeta. case_bool_decide; [|done]. intros [= <-]. simpl.
    split; [|done]. intros k.
    rewrite !elem_of_union, dom_union, elem_of_union, dom_fmap.
    rewrite !elem_of_dom. intros [Hk|[r Hk]]; [by left; right|].
    destruct (decide (col_ar_page_id r = Some b_page_id)) as [Hp|Hp].
    + left. left. exists r. unfold archived_of_page.
      apply map_lookup_filter_Some. by split.
    + right. exists r. apply map_lookup_filter_Some. by split.
Qed.

(** X12.  What no operation does.  However many operations of whichever
    kind are executed, a revision id stored in [revision] or [archive]
    stays stored in one of the two, no blob is removed from [text], and
    the relations [tag] and [page] stay as they were. *)
Theorem operations_never_drop_revisions d ops d' :
  execute_all d ops = Some d' →
  (dom (db_revision d) ∪ dom (db_archive d) : gset Z)
    ⊆ dom (db_revision d') ∪ dom (db_archive d')
  ∧ (dom (db_text d) : gset Z) ⊆ dom (db_text d')
  ∧ db_tag d' = db_tag d ∧ db_page d' = db_page d.
Proof.
  revert d. induction ops as [|o ops IH]; intros d; simpl.
  - by intros [= <-].
  - destruct (execute d o) as [d1|] eqn:Ho; simpl; [|done].
    intros Hrun.
    destruct (execute_keeps d o d1 Ho) as (H1 & H2 & H3 & H4).
    destruct (IH d1 Hrun) as (H1' & H2' & H3' & H4').
    split; [by etrans|]. split; [by etrans|]. split; congruence.
Qed.

Lemma operations_never_drop_revisions_witness :
  ∃ d', execute_all two_tables_replica
          [UpdateArchiveArPageId 0 ["A"] 3; MoveTaggedArchivedRevision 3;
           MoveRevision 3; UpdateRevDeleted 11 1] = Some d'
        ∧ ({[ 10; 11 ]} : gset Z) ⊆ dom (db_revision d') ∪ dom (db_archive d').
Proof.
  destruct (execute_all two_tables_replica
              [UpdateArchiveArPageId 0 ["A"] 3; MoveTaggedArchivedRevision 3;
               MoveRevision 3; UpdateRevDeleted 11 1]) as [d'|] eqn:Hrun;
    [|by vm_compute in Hrun].
  exists d'. split; [done|].
  destruct (operations_never_drop_revisions _ _ _ Hrun) as [Hdom _].
  etrans; [|exact Hdom]. apply (bool_decide_unpack _). by vm_compute.
Defined.

(** ** The revision ids saved after the loop over the log events *)

Lemma same_run_refl {A} (m : Gen A) : same_run m m.
Proof. intros s. split; [done|]. by destruct (m s).2 as [e|[a t]]. Qed.

Lemma same_run_ret {A B} (a : A) (b : B) : same_run (ret a) (ret b).
Proof. by intros s. Qed.

Lemma same_run_bind {A A' B B'} (m : Gen A) (m' : Gen A')
    (k : A → Gen B) (k' : A' → Gen B') :
  same_run m m' → (∀ a a', same_run (k a) (k' a')) →
  same_run (bind m k) (bind m' k').
Proof.
  intros Hm Hk s. unfold bind. destruct (Hm s) as [Ho Hr].
  destruct (m s) as [o1 [e|[a t]]], (m' s) as [o1' [e'|[a' t']]];
    simpl in *; subst; try done.
  destruct (Hk a a' t') as [Ho' Hr'].
  destruct (k a t') as [o2 r2], (k' a' t') as [o2' r2']. simpl in *.
  by subst.
Qed.

Lemma same_run_for_fold {A S} (l : list A) (body : S → A → Gen S) s0 s0' :
  (∀ st st' x, same_run (body st x) (body st' x)) →
  same_run (for_fold l body s0) (for_fold l body s0').
Proof.
  intros Hb. revert s0 s0'. induction l as [|x l IH]; intros s0 s0'; simpl.
  - apply same_run_ret.
  - apply same_run_bind; [apply Hb|]. intros a a'. apply IH.
Qed.

Lemma same_run_gen_page_deletedrevisions g nr nr' p :
  same_run (gen_page_deletedrevisions g nr p)
           (gen_page_deletedrevisions g nr' p).
Proof.
  unfold gen_page_deletedrevisions.
  destruct (qp_deletedrevisions p); [|apply same_run_ret].
  apply same_run_bind; [apply same_run_refl|]. intros _ _. apply same_run_ret.
Qed.

Lemma same_run_gen_page_revisions g nr nr' p :
  same_run (gen_page_revisions g nr p) (gen_page_revisions g nr' p).
Proof.
  unfold gen_page_revisions.
  destruct (qp_revisions p); [|apply same_run_ret].
  apply same_run_bind; [apply same_run_refl|]. intros _ _. apply same_run_ret.
Qed.

Lemma same_run_gen_new_deleted g since dp nr nr' :
  same_run (gen_new_deleted g since dp nr) (gen_new_deleted g since dp nr').
Proof.
  apply same_run_for_fold. intros st st' chunk. unfold gen_new_deleted_chunk.
  destruct (has_drvcontinue _); [apply same_run_refl|].
  apply same_run_for_fold. intros. apply same_run_gen_page_deletedrevisions.
Qed.

Lemma same_run_gen_imported g ip nr nr' :
  same_run (gen_imported g ip nr) (gen_imported g ip nr').
Proof.
  apply same_run_for_fold. intros st st' chunk. unfold gen_imported_chunk.
  destruct (_ || _)%bool; [apply same_run_refl|].
  apply same_run_for_fold. intros st1 st1' p.
  apply same_run_bind; [apply same_run_gen_page_revisions|].
  intros. apply same_run_gen_page_deletedrevisions.
Qed.

(** X13.  The revision ids saved after the loop over the log events.  The
    ids that the update adds to [new_revids] from the deleted and the
    imported revisions are never read: what the update yields after the
    loop over the log events, and how it ends, are the same whatever
    [new_revids] holds by then. *)
Theorem new_revids_unused_after_log g since st nr nr' s :
  emitted (gen_update_from_log g since nr st) s
  = emitted (gen_update_from_log g since nr' st) s
  ∧ outcome (gen_update_from_log g since nr st) s
    = outcome (gen_update_from_log g since nr' st) s.
Proof.
  assert (same_run (gen_update_from_log g since nr st)
                   (gen_update_from_log g since nr' st)) as Hsame.
  { unfold gen_update_from_log.
    apply same_run_bind; [apply same_run_refl|intros _ _].
    apply same_run_bind; [apply same_run_gen_new_deleted|intros nr1 nr1'].
    apply same_run_bind; [apply same_run_gen_imported|intros nr2 nr2'].
    apply same_run_refl. }
  destruct (Hsame s) as [Ho Hr]. split; [done|]. unfold outcome.
  destruct (gen_update_from_log g since nr st s).2 as [e|[[] t]],
           (gen_update_from_log g since nr' st s).2 as [e'|[[] t']];
    by subst.
Qed.

(** ** The content of the revisions of a full insert *)

Lemma for_each_map {A B} (f : A → B) (l : list A) (body : B → Gen unit) s :
  for_each (f <$> l) body s = for_each l (λ x, body (f x)) s.
Proof.
  revert s. induction l as [|x l IH]; intros s; simpl; [done|].
  apply bind_ext. intros _ s'. apply IH.
Qed.

Lemma for_each_feed_pairs (pages : list page)
    (body : page → revision → Gen unit) s :
  for_each pages (λ p, for_each (pg_revisions p) (body p)) s
  = for_each (feed_pairs pages) (λ pr, body pr.1 pr.2) s.
Proof.
  revert s. induction pages as [|p pages IH]; intros s; [done|].
  unfold feed_pairs. cbn [flat_map for_each]. rewrite for_each_app.
  unfold bind. rewrite for_each_map. cbn [fst snd].
  change (λ x, body p x) with (body p).
  destruct (for_each (pg_revisions p) (body p) s) as [o [e|[[] s1]]]; [done|].
  by rewrite IH.
Qed.

Lemma execute_all_app d ops1 ops2 :
  execute_all d (ops1 ++ ops2)
  = execute_all d ops1 ≫= λ d1, execute_all d1 ops2.
Proof.
  revert d. induction ops1 as [|o ops1 IH]; intros d; simpl; [done|].
  destruct (execute d o) as [d0|]; simpl; [apply IH|done].
Qed.

Lemma feed_pairs_in (pages : list page) pr :
  pr ∈ feed_pairs pages ↔ pr.1 ∈ pages ∧ pr.2 ∈ pg_revisions pr.1.
Proof.
  unfold feed_pairs. rewrite elem_of_flat_map. split.
  - intros (p & Hp & Hin). apply list_elem_of_fmap in Hin as (rev & -> & Hrev).
    by split.
  - intros [Hp Hrev]. exists pr.1. split; [done|].
    apply list_elem_of_fmap. exists pr.2. split; [by destruct pr|done].
Qed.

Lemma feed_pairs_revisions (pages : list page) :
  snd <$> feed_pairs pages = flat_map pg_revisions pages.
Proof.
  unfold feed_pairs. induction pages as [|p pages IH]; [done|].
  cbn [flat_map]. rewrite fmap_app, IH. f_equal.
  rewrite <-list_fmap_compose. apply list_fmap_id.
Qed.

(** A loop whose body, executed on the replica, keeps an invariant of the
    elements done so far. *)
Lemma for_each_execute {A} (whole : list A) (body : A → Gen unit)
    (I : list A → text_id_gen → db → Prop) :
  (∀ done x rest s d,
     whole = done ++ x :: rest → I done s d →
     ∃ o s' d', body x s = (o, inr (tt, s'))
                ∧ execute_all d o = Some d' ∧ I (done ++ [x]) s' d') →
  ∀ l done s d,
    whole = done ++ l → I done s d →
    ∃ o s' d', for_each l body s = (o, inr (tt, s'))
               ∧ execute_all d o = Some d' ∧ I whole s' d'.
Proof.
  intros Hstep l. induction l as [|x l IH]; intros done s d Hw HI.
  - rewrite app_nil_r in Hw. subst. exists [], s, d. by repeat split.
  - destruct (Hstep done x l s d Hw HI) as (o1 & s1 & d1 & Hx & Hex & HI1).
    destruct (IH (done ++ [x]) s1 d1) as (o2 & s2 & d2 & Hl & Hex2 & HI2);
      [by rewrite <-(assoc_L (++))|done|].
    exists (o1 ++ o2), s2, d2. split; [|split; [|done]].
    + cbn [for_each]. rewrite (bind_ok _ _ _ _ _ _ Hx), Hl. done.
    + by rewrite execute_all_app, Hex.
Qed.

Lemma execute_tagged_revision_inserts d r (tags : list string) :
  (∀ tag, tag ∈ tags → is_Some (db_tag d !! tag)) →
  ∃ d', execute_all d (flat_map (λ tag, [InsertTaggedRevision r tag]) tags)
        = Some d'
        ∧ db_text d' = db_text d ∧ db_revision d' = db_revision d
        ∧ db_archive d' = db_archive d ∧ db_tag d' = db_tag d.
Proof.
  revert d. induction tags as [|tag tags IH]; intros d Hk.
  - by exists d.
  - destruct (Hk tag) as [tid Htid]; [by left|].
    cbn [flat_map app execute_all execute]. rewrite Htid. simpl.
    destruct (IH (with_tagged_revision
                    (db_tagged_revision d ∪ {[(r, tid)]}) d))
      as (d' & Hrun & ?); [intros t Ht; apply Hk; by right|].
    by exists d'.
Qed.

Lemma execute_tagged_archived_revision_inserts d r (tags : list string) :
  (∀ tag, tag ∈ tags → is_Some (db_tag d !! tag)) →
  ∃ d', execute_all d
          (flat_map (λ tag, [InsertTaggedArchivedRevision r tag]) tags)
        = Some d'
        ∧ db_text d' = db_text d ∧ db_revision d' = db_revision d
        ∧ db_archive d' = db_archive d ∧ db_tag d' = db_tag d.
Proof.
  revert d. induction tags as [|tag tags IH]; intros d Hk.
  - by exists d.
  - destruct (Hk tag) as [tid Htid]; [by left|].
    cbn [flat_map app execute_all execute]. rewrite Htid. simpl.
    destruct (IH (with_tagged_archived_revision
                    (db_tagged_archived_revision d ∪ {[(r, tid)]}) d))
      as (d' & Hrun & ?); [intros t Ht; apply Hk; by right|].
    by exists d'.
Qed.

(** With content, the body of the loop of [gen_revisions] takes the next
    text ID, and yields the blob, the row that refers to it and the tags. *)
Lemma gen_revisions_body_content g p rev s content :
  with_content g = true →
  revision_complete true rev →
  rv_content rev = Some content →
  ∃ e, gen_revisions_body g p rev s
       = (InsertText {| old_id := value_of g s + 1;
                        old_text := content; old_flags := "utf-8" |}
            :: InsertRevision e
            :: flat_map (λ tag, [InsertTaggedRevision (rv_revid rev) tag])
                        (default [] (rv_tags rev)),
          inr (tt, Suspended (value_of g s + 1)))
       ∧ rev_id e = rv_revid rev
       ∧ rev_text_id e = Some (value_of g s + 1).
Proof.
  intros Hwc ([c Hcm] & [i Hi] & [u Hu] & [h Hh] & _) Hct. eexists.
  unfold gen_revisions_body, gen_content. rewrite Hwc, Hcm, Hi, Hu, Hh.
  cbn [getitem]. rewrite !bind_ret_l.
  assert ((text_id <- next_text_id g ;; gen_text rev text_id ;;;
           ret (Some text_id)) s
          = ([InsertText {| old_id := value_of g s + 1;
                            old_text := content;
                            old_flags := "utf-8" |}],
             inr (Some (value_of g s + 1), Suspended (value_of g s + 1))))
    as Hc by (unfold gen_text; rewrite Hct; by destruct s).
  rewrite (bind_ok _ _ _ _ _ _ Hc).
  rewrite (bind_ok (yield _) _ _ _ tt _ eq_refl).
  rewrite (for_each_pure _ _
             (λ tag, [InsertTaggedRevision (rv_revid rev) tag])) by done.
  split; [reflexivity|]. split; reflexivity.
Qed.

Lemma gen_deletedrevisions_body_content g p rev s content :
  with_content g = true →
  revision_complete true rev →
  rv_content rev = Some content →
  ∃ e, gen_deletedrevisions_body g p rev s
       = (InsertText {| old_id := value_of g s + 1;
                        old_text := content; old_flags := "utf-8" |}
            :: InsertArchive e
            :: flat_map
                 (λ tag, [InsertTaggedArchivedRevision (rv_revid rev) tag])
                 (default [] (rv_tags rev)),
          inr (tt, Suspended (value_of g s + 1)))
       ∧ ar_rev_id e = rv_revid rev
       ∧ ar_text_id e = Some (value_of g s + 1).
Proof.
  intros Hwc ([c Hcm] & [i Hi] & [u Hu] & [h Hh] & _) Hct. eexists.
  unfold gen_deletedrevisions_body, gen_content. cbv zeta.
  rewrite Hwc, Hcm, Hi, Hu, Hh. cbn [getitem]. rewrite !bind_ret_l.
  assert ((text_id <- next_text_id g ;; gen_text rev text_id ;;;
           ret (Some text_id)) s
          = ([InsertText {| old_id := value_of g s + 1;
                            old_text := content;
                            old_flags := "utf-8" |}],
             inr (Some (value_of g s + 1), Suspended (value_of g s + 1))))
    as Hc by (unfold gen_text; rewrite Hct; by destruct s).
  rewrite (bind_ok _ _ _ _ _ _ Hc).
  rewrite (bind_ok (yield _) _ _ _ tt _ eq_refl).
  rewrite (for_each_pure _ _
             (λ tag, [InsertTaggedArchivedRevision (rv_revid rev) tag]))
    by done.
  split; [reflexivity|]. split; reflexivity.
Qed.

Lemma live_feed_step g d0 (pages : list page) done x rest s d :
  with_content g = true →
  feed_complete true pages →
  tags_known (db_tag d0) pages →
  NoDup (rv_revid <$> flat_map pg_revisions pages) →
  feed_pairs pages = done ++ x :: rest →
  live_feed_invariant g d0 done s d →
  ∃ o s' d', gen_revisions_body g x.1 x.2 s = (o, inr (tt, s'))
             ∧ execute_all d o = Some d'
             ∧ live_feed_invariant g d0 (done ++ [x]) s' d'.
Proof.
  intros Hwc Hfc Hk Hnd Hw [Htag Hdone].
  assert (x ∈ feed_pairs pages) as Hx.
  { rewrite Hw. apply elem_of_app. right. by left. }
  apply feed_pairs_in in Hx as [Hx1 Hx2].
  pose proof (page_complete_revision _ _ _ (feed_complete_page _ _ _ Hfc Hx1)
                                     Hx2) as Hrc.
  destruct (proj2 (proj2 (proj2 (proj2 Hrc))) eq_refl)
    as [content Hcontent].
  destruct (gen_revisions_body_content g x.1 x.2 s content Hwc Hrc Hcontent)
    as (e & Hrun & Hid & Htid).
  set (v := value_of g s) in *.
  set (te := {| old_id := v + 1; old_text := content;
                old_flags := "utf-8" |}) in *.
  assert (∀ pr, pr ∈ done → rv_revid pr.2 ≠ rv_revid x.2) as Hfresh.
  { rewrite <-feed_pairs_revisions, Hw, !fmap_app, !fmap_cons in Hnd.
    apply NoDup_app in Hnd as (_ & Hdis & _).
    intros pr Hpr Heq. apply (Hdis (rv_revid pr.2)).
    - apply list_elem_of_fmap. exists pr.2. split; [done|].
      apply list_elem_of_fmap. by exists pr.
    - rewrite Heq. by left. }
  set (d2 := insert_revision e (insert_text te d)).
  assert (db_tag d2 = db_tag d) as Htag2.
  { unfold d2, insert_revision. by destruct (_ !! _). }
  assert (db_text d2 = <[v + 1 := {| col_old_text := content;
                                     col_old_flags := "utf-8" |}]> (db_text d))
    as Htext2.
  { unfold d2, insert_revision. by destruct (_ !! _). }
  assert (∃ row, db_revision d2 = <[rv_revid x.2 := row]> (db_revision d)
                 ∧ col_rev_text_id row = Some (v + 1)) as (row & Hrev2 & Hrow).
  { unfold d2, insert_revision. rewrite Hid. simpl.
    destruct (db_revision d !! rv_revid x.2) as [r|]; simpl; eauto. }
  destruct (execute_tagged_revision_inserts d2 (rv_revid x.2)
              (default [] (rv_tags x.2)))
    as (d' & Hex & Ht' & Hr' & _ & Htag').
  { intros tag Htg. rewrite Htag2, Htag. by eapply Hk. }
  eexists _, _, d'. split; [exact Hrun|]. split; [exact Hex|].
  split; [congruence|].
  intros pr [Hpr|Hpr%list_elem_of_singleton]%elem_of_app.
  - destruct (Hdone pr Hpr) as (r & tid & Hr & Hc & Hle & Hblob).
    exists r, tid. rewrite Hr', Ht', Hrev2, Htext2.
    rewrite lookup_insert_ne by (intros Heq; by apply (Hfresh pr Hpr)).
    rewrite lookup_insert_ne by (fold v in Hle; lia).
    simpl. fold v in Hle. repeat split; try done; lia.
  - subst pr. exists row, (v + 1). rewrite Hr', Ht', Hrev2, Htext2.
    rewrite !lookup_insert_eq. simpl.
    split; [done|]. split; [done|]. split; [lia|]. by exists content.
Qed.

Lemma deleted_feed_step g d0 live (pages : list page) done x rest s d :
  with_content g = true →
  feed_complete true pages →
  tags_known (db_tag d0) pages →
  NoDup (rv_revid <$> flat_map pg_revisions pages) →
  feed_pairs pages = done ++ x :: rest →
  deleted_feed_invariant g d0 live done s d →
  ∃ o s' d', gen_deletedrevisions_body g x.1 x.2 s = (o, inr (tt, s'))
             ∧ execute_all d o = Some d'
             ∧ deleted_feed_invariant g d0 live (done ++ [x]) s' d'.
Proof.
  intros Hwc Hfc Hk Hnd Hw (Htag & Hlive & Hdone).
  assert (x ∈ feed_pairs pages) as Hx.
  { rewrite Hw. apply elem_of_app. right. by left. }
  apply feed_pairs_in in Hx as [Hx1 Hx2].
  pose proof (page_complete_revision _ _ _ (feed_complete_page _ _ _ Hfc Hx1)
                                     Hx2) as Hrc.
  destruct (proj2 (proj2 (proj2 (proj2 Hrc))) eq_refl)
    as [content Hcontent].
  destruct (gen_deletedrevisions_body_content g x.1 x.2 s content Hwc Hrc Hcontent)
    as (e & Hrun & Hid & Htid).
  set (v := value_of g s) in *.
  set (te := {| old_id := v + 1; old_text := content;
                old_flags := "utf-8" |}) in *.
  assert (∀ pr, pr ∈ done → rv_revid pr.2 ≠ rv_revid x.2) as Hfresh.
  { rewrite <-feed_pairs_revisions, Hw, !fmap_app, !fmap_cons in Hnd.
    apply NoDup_app in Hnd as (_ & Hdis & _).
    intros pr Hpr Heq. apply (Hdis (rv_revid pr.2)).
    - apply list_elem_of_fmap. exists pr.2. split; [done|].
      apply list_elem_of_fmap. by exists pr.
    - rewrite Heq. by left. }
  set (d2 := insert_archive e (insert_text te d)).
  assert (db_tag d2 = db_tag d) as Htag2.
  { unfold d2, insert_archive. by destruct (_ !! _). }
  assert (db_revision d2 = db_revision d) as Hrev2.
  { unfold d2, insert_archive. by destruct (_ !! _). }
  assert (db_text d2 = <[v + 1 := {| col_old_text := content;
                                     col_old_flags := "utf-8" |}]> (db_text d))
    as Htext2.
  { unfold d2, insert_archive. by destruct (_ !! _). }
  assert (∃ row, db_archive d2 = <[rv_revid x.2 := row]> (db_archive d)
                 ∧ col_ar_text_id row = Some (v + 1)) as (row & Har2 & Hrow).
  { unfold d2, insert_archive. rewrite Hid. simpl.
    destruct (db_archive d !! rv_revid x.2) as [r|]; simpl; eauto. }
  destruct (execute_tagged_archived_revision_inserts d2 (rv_revid x.2)
              (default [] (rv_tags x.2)))
    as (d' & Hex & Ht' & Hr' & Ha' & Htag').
  { intros tag Htg. rewrite Htag2, Htag. by eapply Hk. }
  eexists _, _, d'. split; [exact Hrun|]. split; [exact Hex|].
  split; [congruence|]. split.
  - intros pr Hpr.
    destruct (Hlive pr Hpr) as (r & tid & Hr & Hc & Hle & Hblob).
    exists r, tid. rewrite Hr', Ht', Hrev2, Htext2.
    rewrite lookup_insert_ne by (fold v in Hle; lia).
    simpl. fold v in Hle. repeat split; try done; lia.
  - intros pr [Hpr|Hpr%list_elem_of_singleton]%elem_of_app.
    + destruct (Hdone pr Hpr) as (r & tid & Hr & Hc & Hle & Hblob).
      exists r, tid. rewrite Ha', Ht', Har2, Htext2.
      rewrite lookup_insert_ne by (intros Heq; by apply (Hfresh pr Hpr)).
      rewrite lookup_insert_ne by (fold v in Hle; lia).
      simpl. fold v in Hle. repeat split; try done; lia.
    + subst pr. exists row, (v + 1). rewrite Ha', Ht', Har2, Htext2.
      rewrite !lookup_insert_eq. simpl.
    split; [done|]. split; [done|]. split; [lia|]. by exists content.
Qed.

(** X14.  The content of a full insert.  With content, when the revisions
    of the two feeds are complete (each has its comment, user id, user
    name, hash and content), into a replica that stores every tag of the
    two feeds, and when no revision id occurs twice in a feed, the full
    insert runs to its end, all its operations execute, and afterwards the
    row of every revision of the live feed refers to a blob of [text] that
    holds the content of that revision with the flags "utf-8", and so does
    the row in [archive] of every revision of the deleted feed. *)
Theorem full_insert_stores_content g d s :
  with_content g = true →
  feed_complete true (api_list g (Allrevisions true None)) →
  feed_complete true (api_list g (Alldeletedrevisions true)) →
  tags_known (db_tag d) (api_list g (Allrevisions true None)) →
  tags_known (db_tag d) (api_list g (Alldeletedrevisions true)) →
  NoDup (rv_revid <$> flat_map pg_revisions
                        (api_list g (Allrevisions true None))) →
  NoDup (rv_revid <$> flat_map pg_revisions
                        (api_list g (Alldeletedrevisions true))) →
  ∃ d', (∃ s', outcome (gen_insert g) s = inr (tt, s'))
        ∧ execute_all d (emitted (gen_insert g) s) = Some d'
        ∧ (∀ p rev,
             p ∈ api_list g (Allrevisions true None) →
             rev ∈ pg_revisions p →
             ∃ row text_id,
               db_revision d' !! rv_revid rev = Some row
               ∧ col_rev_text_id row = Some text_id
               ∧ ∃ content,
                   rv_content rev = Some content
                   ∧ db_text d' !! text_id
                     = Some {| col_old_text := content;
                               col_old_flags := "utf-8" |})
        ∧ (∀ p rev,
             p ∈ api_list g (Alldeletedrevisions true) →
             rev ∈ pg_revisions p →
             ∃ row text_id,
               db_archive d' !! rv_revid rev = Some row
               ∧ col_ar_text_id row = Some text_id
               ∧ ∃ content,
                   rv_content rev = Some content
                   ∧ db_text d' !! text_id
                     = Some {| col_old_text := content;
                               col_old_flags := "utf-8" |}).
Proof.
  intros Hwc Hclive Hcdel Hklive Hkdel Hndlive Hnddel.
  destruct (gen_insert_run g s) as (o1 & s1 & o2 & s2 & Hr1 & Hr2 & Hrun);
    [by rewrite Hwc..|].
  rewrite Hwc in Hr1, Hr2.
  set (live := api_list g (Allrevisions true None)) in *.
  set (deleted := api_list g (Alldeletedrevisions true)) in *.
  destruct (for_each_execute (feed_pairs live)
              (λ pr, gen_revisions_body g pr.1 pr.2)
              (live_feed_invariant g d)
              (λ done x rest s0 d0,
                 live_feed_step g d live done x rest s0 d0
                                Hwc Hclive Hklive Hndlive)
              (feed_pairs live) [] NotStarted d eq_refl)
    as (o1' & s1' & d1 & Hl1 & Hex1 & Hinv1).
  { split; [done|]. by intros pr ?%elem_of_nil. }
  rewrite <-(for_each_feed_pairs live (gen_revisions_body g)) in Hl1.
  change (for_each live (gen_revisions g) NotStarted = (o1', inr (tt, s1')))
    in Hl1.
  rewrite Hr1 in Hl1. injection Hl1 as <- <-.
  destruct (for_each_execute (feed_pairs deleted)
              (λ pr, gen_deletedrevisions_body g pr.1 pr.2)
              (deleted_feed_invariant g d (feed_pairs live))
              (λ done x rest s0 d0,
                 deleted_feed_step g d (feed_pairs live) deleted
                                   done x rest s0 d0 Hwc Hcdel Hkdel Hnddel)
              (feed_pairs deleted) [] s1 d1 eq_refl)
    as (o2' & s2' & d2 & Hl2 & Hex2 & Htag2 & Hlive2 & Hdel2).
  { destruct Hinv1 as [Htag1 Hlive1]. split; [done|]. split; [done|].
    by intros pr ?%elem_of_nil. }
  rewrite <-(for_each_feed_pairs deleted (gen_deletedrevisions_body g)) in Hl2.
  change (for_each deleted (gen_deletedrevisions g) s1 = (o2', inr (tt, s2')))
    in Hl2.
  rewrite Hr2 in Hl2. injection Hl2 as <- <-.
  exists d2. split; [|split; [|split]].
  - exists s2. unfold outcome. by rewrite Hrun.
  - unfold emitted. rewrite Hrun. cbn [fst].
    by rewrite execute_all_app, Hex1.
  - intros p rev Hp Hrev.
    destruct (Hlive2 (p, rev)) as (row & tid & Hrow & Htid & _ & Hblob);
      [by apply feed_pairs_in|].
    by exists row, tid.
  - intros p rev Hp Hrev.
    destruct (Hdel2 (p, rev)) as (row & tid & Hrow & Htid & _ & Hblob);
      [by apply feed_pairs_in|].
    by exists row, tid.
Qed.

Lemma full_insert_stores_content_witness :
  ∃ d' row text_id,
    execute_all empty_db (emitted (gen_insert content_feed_grabber) NotStarted)
    = Some d'
    ∧ db_revision d' !! 101 = Some row
    ∧ col_rev_text_id row = Some text_id
    ∧ db_text d' !! text_id
      = Some {| col_old_text := "abc"; col_old_flags := "utf-8" |}.
Proof.
  destruct (full_insert_stores_content content_feed_grabber empty_db
              NotStarted) as (d' & _ & Hex & Hlive & _).
  - reflexivity.
  - apply (bool_decide_unpack _). by vm_compute.
  - apply (bool_decide_unpack _). by vm_compute.
  - intros p rev tag Hp%list_elem_of_singleton. subst p. simpl.
    intros Hrev. rewrite !elem_of_cons, elem_of_nil in Hrev.
    destruct Hrev as [->|[->|[]]]; by intros ?%elem_of_nil.
  - intros p rev tag Hp%list_elem_of_singleton. subst p.
    intros Hr%list_elem_of_singleton. subst rev. by intros ?%elem_of_nil.
  - apply (bool_decide_unpack _). by vm_compute.
  - apply (bool_decide_unpack _). by vm_compute.
  - destruct (Hlive _ (example_rev 101 20 []) (list_elem_of_here _ _))
      as (row & tid & Hrow & Htid & content & Hcontent & Hblob).
    { right. left. }
    injection Hcontent as <-. by exists d', row, tid.
Defined.

(** * Replaying the operations of a window

    Without restores, the operations of a list act on each relation on its
    own: the blobs and the tag links are written whatever the relation
    holds, and the row of a revision goes through the inserts, then the
    merges, then the deletion bitmasks.  A restore couples [archive] and
    [revision]; it is the identity as long as no archived row is one it acts
    on. *)

Lemma set_rev_text_id_twice t t' r :
  set_rev_text_id t (set_rev_text_id t' r) = set_rev_text_id t r.
Proof. by destruct r. Qed.

Lemma execute_steps d o :
  ¬ restore_op o →
  execute d o = if accepted (db_tag d) o then Some (steps [o] d) else None.
Proof.
  intros Hno.
  destruct o as [e|e|e|r n|r n|r n|r n|ns t p|src ns t mp|r bm|r bm|p|p];
    simpl in Hno; try done; simpl.
  - unfold insert_revision.
    destruct (db_revision d !! rev_id e) as [r|] eqn:Hr;
      f_equal; apply db_eq; try done; simpl; by rewrite Hr.
  - unfold insert_archive.
    destruct (db_archive d !! ar_rev_id e) as [r|] eqn:Hr;
      f_equal; apply db_eq; try done; simpl; by rewrite Hr.
  - destruct (db_tag d !! n) as [tid|] eqn:Ht; simpl; [|done].
    f_equal. apply db_eq; try done. simpl. by rewrite Ht.
  - destruct (db_tag d !! n) as [tid|] eqn:Ht; simpl; [|done].
    f_equal. apply db_eq; try done. simpl. by rewrite Ht.
  - destruct (db_tag d !! n) as [tid|] eqn:Ht; simpl;
      f_equal; apply db_eq; try done; unfold steps; simpl; by rewrite Ht.
  - destruct (db_tag d !! n) as [tid|] eqn:Ht; simpl;
      f_equal; apply db_eq; try done; unfold steps; simpl; by rewrite Ht.
Qed.

(** A list without restores executes as its steps, when the database
    accepts each operation. *)
Lemma execute_all_steps ops d :
  Forall (λ o, ¬ restore_op o) ops →
  execute_all d ops
  = if forallb (accepted (db_tag d)) ops then Some (steps ops d) else None.
Proof.
  intros Hno. revert d. induction Hno as [|o ops Ho Hno IH]; intros d.
  - simpl. f_equal. by apply db_eq.
  - cbn [execute_all forallb]. rewrite (execute_steps d o Ho).
    destruct (accepted (db_tag d) o); simpl; [|done].
    rewrite IH. done.
Qed.

(** The blobs: a list of operations writes the same blobs whatever the
    relation holds. *)
Lemma text_steps_union ops :
  ∃ ins : gmap Z text_row,
    ∀ m, foldl (λ m o, text_step o m) m ops = ins ∪ m.
Proof.
  induction ops as [|o ops [ins IH]].
  - exists ∅. intros m. simpl. by rewrite (left_id_L ∅ _).
  - destruct o; simpl; try (by exists ins).
    exists (ins ∪ {[old_id e := {| col_old_text := old_text e;
                                   col_old_flags := old_flags e |}]}).
    intros m. by rewrite IH, insert_union_singleton_l, (assoc_L _).
Qed.

Lemma text_steps_twice ops m :
  foldl (λ m o, text_step o m) (foldl (λ m o, text_step o m) m ops) ops
  = foldl (λ m o, text_step o m) m ops.
Proof.
  destruct (text_steps_union ops) as [ins Hins].
  by rewrite !Hins, (assoc_L _), (idemp_L _).
Qed.

(** The tag links: a list of operations adds a set of links and removes
    another. *)
Lemma tagged_revision_steps_sets tags ops :
  ∃ del add : gset (Z * Z),
    ∀ l, foldl (λ l o, tagged_revision_step tags o l) l ops = (l ∖ del) ∪ add.
Proof.
  induction ops as [|o ops (del & add & IH)].
  - exists ∅, ∅. intros l. simpl. set_solver.
  - destruct o; simpl; try (by exists del, add);
      destruct (tags !! b_tag_name) as [tid|]; try (by exists del, add).
    + exists del, (add ∪ ({[(b_rev_id, tid)]} ∖ del)). intros l. rewrite IH.
      apply set_eq. intros x. rewrite !elem_of_union, !elem_of_difference.
      rewrite !elem_of_union. tauto.
    + exists (del ∪ {[(b_rev_id, tid)]}), add. intros l. rewrite IH.
      apply set_eq. intros x. rewrite !elem_of_union, !elem_of_difference.
      rewrite !elem_of_union. tauto.
Qed.

Lemma tagged_revision_steps_twice tags ops l :
  foldl (λ l o, tagged_revision_step tags o l)
        (foldl (λ l o, tagged_revision_step tags o l) l ops) ops
  = foldl (λ l o, tagged_revision_step tags o l) l ops.
Proof.
  destruct (tagged_revision_steps_sets tags ops) as (del & add & H).
  rewrite !H. apply set_eq. intros x.
  rewrite !elem_of_union, !elem_of_difference, !elem_of_union,
    !elem_of_difference. tauto.
Qed.

Lemma tagged_archived_revision_steps_sets tags ops :
  ∃ del add : gset (Z * Z),
    ∀ l, foldl (λ l o, tagged_archived_revision_step tags o l) l ops
         = (l ∖ del) ∪ add.
Proof.
  induction ops as [|o ops (del & add & IH)].
  - exists ∅, ∅. intros l. simpl. set_solver.
  - destruct o; simpl; try (by exists del, add);
      destruct (tags !! b_tag_name) as [tid|]; try (by exists del, add).
    + exists del, (add ∪ ({[(b_rev_id, tid)]} ∖ del)). intros l. rewrite IH.
      apply set_eq. intros x. rewrite !elem_of_union, !elem_of_difference.
      rewrite !elem_of_union. tauto.
    + exists (del ∪ {[(b_rev_id, tid)]}), add. intros l. rewrite IH.
      apply set_eq. intros x. rewrite !elem_of_union, !elem_of_difference.
      rewrite !elem_of_union. tauto.
Qed.

Lemma tagged_archived_revision_steps_twice tags ops l :
  foldl (λ l o, tagged_archived_revision_step tags o l)
        (foldl (λ l o, tagged_archived_revision_step tags o l) l ops) ops
  = foldl (λ l o, tagged_archived_revision_step tags o l) l ops.
Proof.
  destruct (tagged_archived_revision_steps_sets tags ops) as (del & add & H).
  rewrite !H. apply set_eq. intros x.
  rewrite !elem_of_union, !elem_of_difference, !elem_of_union,
    !elem_of_difference. tauto.
Qed.

(** The rows of [revision], key by key. *)
Lemma revision_step_lookup pages o m k :
  revision_step pages o m !! k = revision_point pages k o (m !! k).
Proof.
  destruct o; simpl; try done.
  - case_bool_decide as Hk.
    + subst k. destruct (m !! rev_id e) as [r|] eqn:Hr;
        by rewrite lookup_insert_eq.
    + destruct (m !! rev_id e); by rewrite lookup_insert_ne.
  - by rewrite lookup_fmap.
  - case_bool_decide as Hk.
    + subst k. by rewrite lookup_alter_eq.
    + by rewrite lookup_alter_ne.
Qed.

Lemma revision_steps_lookup pages ops m k :
  foldl (λ m o, revision_step pages o m) m ops !! k
  = foldl (λ x o, revision_point pages k o x) (m !! k) ops.
Proof.
  revert m. induction ops as [|o ops IH]; intros m; simpl; [done|].
  by rewrite IH, revision_step_lookup.
Qed.

Lemma archive_step_lookup o m k :
  archive_step o m !! k = archive_point k o (m !! k).
Proof.
  destruct o; simpl; try done.
  - case_bool_decide as Hk.
    + subst k. destruct (m !! ar_rev_id e) as [r|] eqn:Hr;
        by rewrite lookup_insert_eq.
    + destruct (m !! ar_rev_id e); by rewrite lookup_insert_ne.
  - case_bool_decide as Hk.
    + subst k. by rewrite lookup_alter_eq.
    + by rewrite lookup_alter_ne.
Qed.

Lemma archive_steps_lookup ops m k :
  foldl (λ m o, archive_step o m) m ops !! k
  = foldl (λ x o, archive_point k o x) (m !! k) ops.
Proof.
  revert m. induction ops as [|o ops IH]; intros m; simpl; [done|].
  by rewrite IH, archive_step_lookup.
Qed.

(** The inserts leave the row of a revision as it is, or make it the row
    of the first insert, or the stored row, with the text id of the last
    insert. *)
Lemma revision_point_inserts pages k ins :
  Forall (λ o, live_insert o ∨ archived_insert o) ins →
  (∀ x, foldl (λ x o, revision_point pages k o x) x ins = x)
  ∨ ∃ t r0, ∀ x, foldl (λ x o, revision_point pages k o x) x ins
                 = Some (set_rev_text_id t (default r0 x)).
Proof.
  induction 1 as [|o ins Ho Hins IH]; [by left|].
  destruct o; simpl in Ho; try (by destruct Ho); try done.
  simpl. case_bool_decide as Hk; [|done]. right.
  destruct IH as [IH|(t & r0 & IH)].
  - exists (rev_text_id e), (revision_row_of e). intros x. by rewrite IH.
  - exists t, (revision_row_of e). intros x. rewrite IH. simpl.
    by rewrite set_rev_text_id_twice.
Qed.

Lemma set_rev_page_same r : set_rev_page (col_rev_page r) r = r.
Proof. by destruct r. Qed.

Lemma merged_row_page pages src ns title mp r :
  merged_row pages src ns title mp r
  = set_rev_page (merged_page pages (col_rev_timestamp r)
                              (MergeRevision src ns title mp) (col_rev_page r))
                 r.
Proof.
  unfold merged_row, merged_page.
  destruct (_ && _); [done|]. by rewrite set_rev_page_same.
Qed.

(** The merges move the row of a revision to the page that [merged_page]
    gives, and change nothing else of it. *)
Lemma revision_point_merges pages k ms x :
  Forall merge_op ms →
  foldl (λ x o, revision_point pages k o x) x ms
  = (λ r, set_rev_page
            (foldl (λ p o, merged_page pages (col_rev_timestamp r) o p)
                   (col_rev_page r) ms) r) <$> x.
Proof.
  intros Hms. revert x. induction Hms as [|o ms Ho Hms IH]; intros x.
  - destruct x as [r|]; simpl; [|done]. by rewrite set_rev_page_same.
  - destruct o; simpl in Ho; try done. cbn [foldl revision_point].
    rewrite IH. destruct x as [r|]; simpl; [|done].
    rewrite merged_row_page. by destruct r.
Qed.

(** The page that the merges give is the page of the row, or the
    destination of one of the merges. *)
Lemma merged_page_cases pages ts ms p :
  foldl (λ p o, merged_page pages ts o p) p ms = p
  ∨ ∃ src ns title mp,
      MergeRevision src ns title mp ∈ ms
      ∧ foldl (λ p o, merged_page pages ts o p) p ms = pages !! (ns, title).
Proof.
  revert p. induction ms as [|o ms IH]; intros p; [by left|].
  cbn [foldl].
  destruct (IH (merged_page pages ts o p))
    as [Heq|(src & ns & title & mp & Hin & Heq)].
  - rewrite Heq. destruct o; simpl; try (by left).
    destruct (_ && _); [|by left].
    right. eexists _, _, _, _. split; [by left|done].
  - right. exists src, ns, title, mp. split; [by right|done].
Qed.

Lemma merged_page_no_source pages ts ms p :
  (∀ src ns title mp, MergeRevision src ns title mp ∈ ms → p ≠ Some src) →
  foldl (λ p o, merged_page pages ts o p) p ms = p.
Proof.
  induction ms as [|o ms IH]; intros Hno; [done|]. cbn [foldl].
  assert (merged_page pages ts o p = p) as ->.
  { destruct o; simpl; try done.
    rewrite bool_decide_eq_false_2; [done|].
    eapply Hno. by left. }
  apply IH. intros src ns title mp Hin. eapply Hno. by right.
Qed.

(** When no merge moves revisions to a page that a merge takes revisions
    from, the merges of the list, done again, move nothing. *)
Lemma merged_page_twice pages ts ms p :
  (∀ o o', o ∈ ms → o' ∈ ms → ¬ merge_chains pages o o') →
  foldl (λ p o, merged_page pages ts o p)
        (foldl (λ p o, merged_page pages ts o p) p ms) ms
  = foldl (λ p o, merged_page pages ts o p) p ms.
Proof.
  intros Hun.
  destruct (merged_page_cases pages ts ms p)
    as [Heq|(src & ns & title & mp & Hin & Heq)]; rewrite Heq; [done|].
  apply merged_page_no_source. intros src' ns' title' mp' Hin'.
  apply (Hun _ _ Hin Hin').
Qed.

(** The operations that follow the merges leave the row of a revision as
    it is, or with the deletion bitmask of the last update. *)
Lemma revision_point_bitmasks pages k bms :
  Forall (λ o, bitmask_op o ∨ insert_tag_op o ∨ delete_tag_op o) bms →
  (∀ x, foldl (λ x o, revision_point pages k o x) x bms = x)
  ∨ ∃ bm, ∀ x, foldl (λ x o, revision_point pages k o x) x bms
               = set_rev_deleted bm <$> x.
Proof.
  induction 1 as [|o bms Ho Hbms IH]; [by left|].
  destruct o; simpl in Ho; try (by destruct Ho as [?|[?|?]]); try done.
  simpl. case_bool_decide as Hk; [|done]. right.
  destruct IH as [IH|(bm & IH)].
  - exists new_rev_deleted. intros x. by rewrite IH.
  - exists bm. intros x. rewrite IH. by destruct x as [[]|].
Qed.

(** The operations on the row of one revision: inserts, then merges, then
    deletion bitmasks, done twice, leave what they leave done once. *)
Lemma revision_point_twice pages k ins ms bms x :
  Forall (λ o, live_insert o ∨ archived_insert o) ins →
  Forall merge_op ms →
  Forall (λ o, bitmask_op o ∨ insert_tag_op o ∨ delete_tag_op o) bms →
  (∀ o o', o ∈ ms → o' ∈ ms → ¬ merge_chains pages o o') →
  foldl (λ x o, revision_point pages k o x)
        (foldl (λ x o, revision_point pages k o x) x (ins ++ ms ++ bms))
        (ins ++ ms ++ bms)
  = foldl (λ x o, revision_point pages k o x) x (ins ++ ms ++ bms).
Proof.
  intros Hins Hms Hbms Hun. rewrite !foldl_app.
  pose proof (λ x, revision_point_merges pages k ms x Hms) as Hm.
  pose proof (λ ts p, merged_page_twice pages ts ms p Hun) as Htwice.
  destruct (revision_point_inserts pages k ins Hins) as [Hi|(t & r0 & Hi)];
    destruct (revision_point_bitmasks pages k bms Hbms) as [Hb|(bm & Hb)];
    rewrite !Hb, !Hm, !Hi, ?Hm; clear Hm Hi Hb.
  - destruct x as [[]|]; simpl; [|done]. by rewrite Htwice.
  - destruct x as [[]|]; simpl; [|done]. by rewrite Htwice.
  - destruct x as [[]|], r0; simpl; by rewrite Htwice.
  - destruct x as [[]|], r0; simpl; by rewrite Htwice.
Qed.

Lemma archive_point_inserts k ins :
  Forall (λ o, live_insert o ∨ archived_insert o) ins →
  (∀ x, foldl (λ x o, archive_point k o x) x ins = x)
  ∨ ∃ t r0, ∀ x, foldl (λ x o, archive_point k o x) x ins
                 = Some (set_ar_text_id t (default r0 x)).
Proof.
  induction 1 as [|o ins Ho Hins IH]; [by left|].
  destruct o; simpl in Ho; try (by destruct Ho); try done.
  simpl. case_bool_decide as Hk; [|done]. right.
  destruct IH as [IH|(t & r0 & IH)].
  - exists (ar_text_id e), (archive_row_of e). intros x. by rewrite IH.
  - exists t, (archive_row_of e). intros x. rewrite IH. simpl.
    by destruct (default (archive_row_of e) x).
Qed.

Lemma archive_point_merges k ms x :
  Forall merge_op ms → foldl (λ x o, archive_point k o x) x ms = x.
Proof.
  induction 1 as [|o ms Ho Hms IH]; [done|]. by destruct o.
Qed.

Lemma archive_point_bitmasks k bms :
  Forall (λ o, bitmask_op o ∨ insert_tag_op o ∨ delete_tag_op o) bms →
  (∀ x, foldl (λ x o, archive_point k o x) x bms = x)
  ∨ ∃ bm, ∀ x, foldl (λ x o, archive_point k o x) x bms
               = set_ar_deleted bm <$> x.
Proof.
  induction 1 as [|o bms Ho Hbms IH]; [by left|].
  destruct o; simpl in Ho; try (by destruct Ho as [?|[?|?]]); try done.
  simpl. case_bool_decide as Hk; [|done]. right.
  destruct IH as [IH|(bm & IH)].
  - exists new_ar_deleted. intros x. by rewrite IH.
  - exists bm. intros x. rewrite IH. by destruct x as [[]|].
Qed.

Lemma archive_point_twice k ins ms bms x :
  Forall (λ o, live_insert o ∨ archived_insert o) ins →
  Forall merge_op ms →
  Forall (λ o, bitmask_op o ∨ insert_tag_op o ∨ delete_tag_op o) bms →
  foldl (λ x o, archive_point k o x)
        (foldl (λ x o, archive_point k o x) x (ins ++ ms ++ bms))
        (ins ++ ms ++ bms)
  = foldl (λ x o, archive_point k o x) x (ins ++ ms ++ bms).
Proof.
  intros Hins Hms Hbms. rewrite !foldl_app.
  pose proof (λ x, archive_point_merges k ms x Hms) as Hm.
  destruct (archive_point_inserts k ins Hins) as [Hi|(t & r0 & Hi)];
    destruct (archive_point_bitmasks k bms Hbms) as [Hb|(bm & Hb)];
    rewrite !Hb, !Hm, !Hi, ?Hm; clear Hm Hi Hb; try done.
  by destruct x as [[]|].
Qed.

(** A list of inserts, then merges, then deletion bitmasks and tag links,
    done twice, leaves the replica that it leaves done once. *)
Lemma steps_twice ins ms bms d :
  Forall (λ o, live_insert o ∨ archived_insert o) ins →
  Forall merge_op ms →
  Forall (λ o, bitmask_op o ∨ insert_tag_op o ∨ delete_tag_op o) bms →
  (∀ o o', o ∈ ms → o' ∈ ms → ¬ merge_chains (db_page d) o o') →
  steps (ins ++ ms ++ bms) (steps (ins ++ ms ++ bms) d)
  = steps (ins ++ ms ++ bms) d.
Proof.
  intros Hins Hms Hbms Hun. apply db_eq; simpl.
  - apply text_steps_twice.
  - apply map_eq. intros k. rewrite !revision_steps_lookup.
    by apply revision_point_twice.
  - apply map_eq. intros k. rewrite !archive_steps_lookup.
    by apply archive_point_twice.
  - apply tagged_revision_steps_twice.
  - apply tagged_archived_revision_steps_twice.
  - done.
  - done.
Qed.

Lemma replay_without_restores ins ms bms d d1 :
  Forall (λ o, live_insert o ∨ archived_insert o) ins →
  Forall merge_op ms →
  Forall (λ o, bitmask_op o ∨ insert_tag_op o ∨ delete_tag_op o) bms →
  (∀ o o', o ∈ ms → o' ∈ ms → ¬ merge_chains (db_page d) o o') →
  execute_all d (ins ++ ms ++ bms) = Some d1 →
  execute_all d1 (ins ++ ms ++ bms) = Some d1.
Proof.
  intros Hins Hms Hbms Hun.
  assert (Forall (λ o, ¬ restore_op o) (ins ++ ms ++ bms)) as Hno.
  { rewrite !Forall_app. repeat split.
    - eapply Forall_impl; [exact Hins|].
      intros o [Ho|Ho]; destruct o; simpl in *; tauto.
    - eapply Forall_impl; [exact Hms|].
      intros o Ho; destruct o; simpl in *; tauto.
    - eapply Forall_impl; [exact Hbms|].
      intros o [Ho|[Ho|Ho]]; destruct o; simpl in *; tauto. }
  rewrite !(execute_all_steps _ _ Hno).
  destruct (forallb _ _) eqn:Hacc; [|done]. intros [= <-].
  change (db_tag (steps (ins ++ ms ++ bms) d)) with (db_tag d).
  rewrite Hacc. f_equal. by apply steps_twice.
Qed.

(** A restore operation leaves a replica as it is when no archived row is
    one it acts on. *)
Lemma restore_untouched d o :
  restore_op o →
  map_Forall (λ _ r, ¬ restore_touches o r) (db_archive d) →
  execute d o = Some d.
Proof.
  intros Hop Hclear.
  destruct o as [| | | | | | |ns t p| | | |p|p]; simpl in Hop; try done; simpl.
  - f_equal. apply db_eq; try done. simpl. apply map_eq. intros k.
    rewrite lookup_fmap. destruct (db_archive d !! k) as [r|] eqn:Hr; [|done].
    simpl. f_equal. specialize (Hclear k r Hr). simpl in Hclear.
    destruct (bool_decide (col_ar_namespace r = ns)) eqn:Hns; [|done].
    destruct (title_matches t (col_ar_title r)) eqn:Ht; [|done].
    apply bool_decide_eq_true_1 in Hns. by destruct Hclear.
  - assert (archived_of_page p d = ∅) as ->.
    { apply map_eq. intros k. rewrite archived_of_page_lookup, lookup_empty.
      destruct (db_archive d !! k) as [r|] eqn:Hr; [|done].
      rewrite bool_decide_eq_false_2; [done|]. apply (Hclear k r Hr). }
    rewrite dom_empty_L.
    match goal with
    | |- context [bool_decide (?moved ## _)] => assert (moved = ∅) as ->
    end.
    { apply set_eq. intros x. rewrite elem_of_filter.
      split; [intros [[]%elem_of_empty _]|intros []%elem_of_empty]. }
    rewrite bool_decide_eq_true_2 by set_solver.
    f_equal. apply db_eq; simpl; try done; set_solver.
  - assert (archived_of_page p d = ∅) as Hnone.
    { apply map_eq. intros k. rewrite archived_of_page_lookup, lookup_empty.
      destruct (db_archive d !! k) as [r|] eqn:Hr; [|done].
      rewrite bool_decide_eq_false_2; [done|]. apply (Hclear k r Hr). }
    rewrite Hnone, dom_empty_L.
    rewrite bool_decide_eq_true_2 by set_solver.
    f_equal. apply db_eq; simpl; try done.
    + by rewrite fmap_empty, (left_id_L ∅ _).
    + apply map_filter_id. intros k r Hr. apply (Hclear k r Hr).
Qed.

Lemma restore_touches_text_id o t r :
  restore_touches o (set_ar_text_id t r) ↔ restore_touches o r.
Proof. by destruct o. Qed.

Lemma restore_touches_deleted o bm r :
  restore_touches o (set_ar_deleted bm r) ↔ restore_touches o r.
Proof. by destruct o. Qed.

(** No operation but a restore changes which archived rows a restore acts
    on, but for the rows it archives. *)
Lemma archive_step_clear o o' m :
  archives_clear_of o o' →
  map_Forall (λ _ r, ¬ restore_touches o r) m →
  map_Forall (λ _ r, ¬ restore_touches o r) (archive_step o' m).
Proof.
  intros Hins Hclear. destruct o'; simpl; try done.
  - simpl in Hins. destruct (m !! ar_rev_id e) as [r|] eqn:Hr.
    + apply map_Forall_insert_2; [|done].
      rewrite restore_touches_text_id. apply (Hclear _ r Hr).
    + by apply map_Forall_insert_2.
  - intros k r Hk. destruct (decide (b_revid = k)) as [->|Hne].
    + rewrite lookup_alter_eq in Hk.
      destruct (m !! k) as [r'|] eqn:Hr; [|done]. injection Hk as <-.
      rewrite restore_touches_deleted. apply (Hclear _ r' Hr).
    + rewrite lookup_alter_ne in Hk by done. apply (Hclear _ r Hk).
Qed.

(** When no restore of the list acts on a row of the replica or on a row
    that the list archives, the restores do nothing. *)
Lemma execute_all_skips_restores ops l d :
  (∀ o, o ∈ l → o ∈ ops) →
  Forall (λ o, Forall (archives_clear_of o) ops) ops →
  Forall (λ o, map_Forall (λ _ r, ¬ restore_touches o r) (db_archive d)) ops →
  execute_all d l = execute_all d (without_restores l)
  ∧ ∀ d', execute_all d l = Some d' →
          Forall (λ o, map_Forall (λ _ r, ¬ restore_touches o r)
                                  (db_archive d')) ops.
Proof.
  intros Hsub Hins. revert d Hsub.
  induction l as [|o l IH]; intros d Hsub Hclear.
  - split; [done|]. by intros d' [= <-].
  - assert (o ∈ ops) as Ho by (apply Hsub; by left).
    assert (∀ o', o' ∈ l → o' ∈ ops) as Hsub'
      by (intros o' Ho'; apply Hsub; by right).
    unfold without_restores in *.
    destruct (decide (restore_op o)) as [Hr|Hr].
    + rewrite filter_cons_False by (by intros ?). cbn [execute_all].
      rewrite (restore_untouched d o Hr)
        by (by apply (proj1 (Forall_forall _ _) Hclear)).
      simpl. by apply IH.
    + rewrite filter_cons_True by done. cbn [execute_all].
      rewrite (execute_steps d o Hr).
      destruct (accepted (db_tag d) o); simpl; [|done].
      apply IH; [done|].
      apply Forall_forall. intros o' Ho'. simpl.
      apply archive_step_clear.
      * by apply (proj1 (Forall_forall _ _)
                    (proj1 (Forall_forall _ _) Hins o' Ho')).
      * by apply (proj1 (Forall_forall _ _) Hclear).
Qed.

Lemma without_restores_app l1 l2 :
  without_restores (l1 ++ l2) = without_restores l1 ++ without_restores l2.
Proof. apply filter_app. Qed.

Lemma without_restores_keep (P : op → Prop) l :
  Forall P l → (∀ o, P o → ¬ restore_op o) → without_restores l = l.
Proof.
  intros Hl HP. unfold without_restores.
  induction Hl as [|o l Ho Hl IH]; [done|].
  rewrite filter_cons_True by (by apply HP). by rewrite IH.
Qed.

Lemma without_restores_drop l :
  Forall restore_op l → without_restores l = [].
Proof.
  unfold without_restores. induction 1 as [|o l Ho Hl IH]; [done|].
  by rewrite filter_cons_False by (by intros ?).
Qed.

(** A list in the phases of an update, without its restore operations,
    is a list of inserts, then merges, then deletion bitmasks and tag
    links. *)
Lemma update_phases_without_restores ops :
  in_phases update_phases ops →
  ∃ ins ms bms,
    without_restores ops = ins ++ ms ++ bms
    ∧ Forall (λ o, live_insert o ∨ archived_insert o) ins
    ∧ Forall merge_op ms
    ∧ Forall (λ o, bitmask_op o ∨ insert_tag_op o ∨ delete_tag_op o) bms.
Proof.
  intros (l1 & ? & -> & H1 & l2 & ? & -> & H2 & l3 & ? & -> & H3
          & l4 & ? & -> & H4 & l5 & ? & -> & H5 & l6 & ? & -> & H6
          & l7 & ? & -> & H7 & l8 & ? & -> & H8 & ->).
  exists (l1 ++ l3 ++ l4), l5, (l6 ++ l7 ++ l8).
  split; [|split; [|split; [done|]]].
  - rewrite !without_restores_app, (without_restores_drop l2 H2).
    rewrite (without_restores_keep _ l1 H1),
      (without_restores_keep _ l3 H3), (without_restores_keep _ l4 H4),
      (without_restores_keep _ l5 H5), (without_restores_keep _ l6 H6),
      (without_restores_keep _ l7 H7), (without_restores_keep _ l8 H8)
      by (intros o; destruct o; simpl; tauto).
    by rewrite !app_nil_r, <-!(assoc_L (++)).
  - rewrite !Forall_app. repeat split.
    + eapply Forall_impl; [exact H1|]. by left.
    + eapply Forall_impl; [exact H3|]. by right.
    + done.
  - rewrite !Forall_app. repeat split.
    + eapply Forall_impl; [exact H6|]. by left.
    + eapply Forall_impl; [exact H7|]. intros; right; by left.
    + eapply Forall_impl; [exact H8|]. intros; right; by right.
Qed.

(** The replay of a list in the phases of an update. *)
Lemma replay_in_phases ops d d1 :
  in_phases update_phases ops →
  restores_clear d ops →
  merges_unchained d ops →
  execute_all d ops = Some d1 →
  execute_all d1 ops = Some d1.
Proof.
  intros Hph Hclear Hun Hrun.
  destruct (update_phases_without_restores ops Hph)
    as (ins & ms & bms & Hshape & Hins & Hms & Hbms).
  assert (Forall (λ o, Forall (archives_clear_of o) ops) ops) as Hcl1.
  { eapply Forall_impl; [exact Hclear|]. by intros o [_ ?]. }
  assert (Forall (λ o, map_Forall (λ _ r, ¬ restore_touches o r)
                                  (db_archive d)) ops) as Hcl2.
  { eapply Forall_impl; [exact Hclear|]. by intros o [? _]. }
  destruct (execute_all_skips_restores ops ops d (λ _ H, H) Hcl1 Hcl2)
    as [Hskip Hkeep].
  specialize (Hkeep d1 Hrun). rewrite Hskip, Hshape in Hrun.
  destruct (execute_all_skips_restores ops ops d1 (λ _ H, H) Hcl1 Hkeep)
    as [-> _].
  rewrite Hshape. apply (replay_without_restores ins ms bms d); try done.
  intros o o' Ho Ho'.
  assert (∀ o, o ∈ ms → o ∈ ops) as Hsub.
  { intros o0 Ho0.
    assert (o0 ∈ without_restores ops) as Hin
      by (rewrite Hshape, !elem_of_app; tauto).
    unfold without_restores in Hin. by apply list_elem_of_filter in Hin as [_ ?]. }
  apply (proj1 (Forall_forall _ _)
           (proj1 (Forall_forall _ _) Hun o (Hsub o Ho)) o' (Hsub o' Ho')).
Qed.

Lemma gen_insert_in_phases g s :
  in_phases update_phases (emitted (gen_insert g) s).
Proof.
  destruct (gen_insert_yields_split g s) as (live & archived & -> & Hl & Ha).
  exists live, archived. split; [done|]. split; [done|].
  exists [], archived. split; [done|]. split; [done|].
  exists archived, []. split; [by rewrite app_nil_r|]. split; [done|].
  apply (in_phases_nil [_; _; _; _; _]).
Qed.

Lemma no_restores_clear d ops :
  Forall (λ o, ¬ restore_op o) ops → restores_clear d ops.
Proof.
  intros Hno. unfold restores_clear. eapply Forall_impl; [exact Hno|].
  intros o Ho. split.
  - intros k r _. destruct o; simpl in *; tauto.
  - apply Forall_forall. intros o' _. destruct o'; simpl; [..|done]; try done.
    destruct o; simpl in *; tauto.
Qed.

Lemma no_merges_unchained d ops :
  Forall (λ o, ¬ merge_op o) ops → merges_unchained d ops.
Proof.
  intros Hno. unfold merges_unchained. eapply Forall_impl; [exact Hno|].
  intros o Ho. apply Forall_forall. intros o' _.
  destruct o; simpl in *; tauto.
Qed.

Lemma gen_insert_no_restores_merges g s :
  Forall (λ o, ¬ restore_op o) (emitted (gen_insert g) s)
  ∧ Forall (λ o, ¬ merge_op o) (emitted (gen_insert g) s).
Proof.
  destruct (gen_insert_yields_split g s) as (live & archived & -> & Hl & Ha).
  rewrite !Forall_app. repeat split.
  - eapply Forall_impl; [exact Hl|]. intros o; destruct o; simpl; tauto.
  - eapply Forall_impl; [exact Ha|]. intros o; destruct o; simpl; tauto.
  - eapply Forall_impl; [exact Hl|]. intros o; destruct o; simpl; tauto.
  - eapply Forall_impl; [exact Ha|]. intros o; destruct o; simpl; tauto.
Qed.

(** C6 as the code has it.  Every operation is idempotent on its own:
    executed again right after it succeeded, it succeeds and leaves the
    replica as it is; after a move no row is left for the same move; an
    update of a deletion bitmask touches only the row of its revision ID,
    and an insert or delete of a tag link only links of its revision ID.
    An upsert of a revision or of an archived revision that meets a stored
    row keeps every column of the stored row but the text ID, which becomes
    the proposed one, whatever the two are; an upsert of a blob stores the
    proposed content.  The operations of a full insert, executed twice in
    order, leave the replica that they leave executed once, from every
    replica, so from a fresh one.  So do the operations of an update, when
    no restore of the window acts on an archived row that the replica holds
    or that the window inserts, and no merge of the window moves revisions
    to a page that a merge of the window takes revisions from; a window
    without restores and merges is such a window. *)
Theorem operations_idempotent :
  (∀ d o d', execute d o = Some d' → execute d' o = Some d')
  ∧ (∀ d pid d',
       execute d (MoveRevision pid) = Some d' → archived_of_page pid d' = ∅)
  ∧ (∀ d pid d',
       execute d (MoveTaggedArchivedRevision pid) = Some d' →
       filter (λ rt, rt.1 ∈ dom (archived_of_page pid d'))
              (db_tagged_archived_revision d') = ∅)
  ∧ (∀ d revid bitmask d' k,
       execute d (UpdateRevDeleted revid bitmask) = Some d' → k ≠ revid →
       db_revision d' !! k = db_revision d !! k)
  ∧ (∀ d revid bitmask d' k,
       execute d (UpdateArDeleted revid bitmask) = Some d' → k ≠ revid →
       db_archive d' !! k = db_archive d !! k)
  ∧ (∀ d rev name d' rev' tag,
       execute d (InsertTaggedRevision rev name) = Some d'
       ∨ execute d (DeleteTaggedRevision rev name) = Some d' →
       rev' ≠ rev →
       (rev', tag) ∈ db_tagged_revision d' ↔ (rev', tag) ∈ db_tagged_revision d)
  ∧ (∀ d rev name d' rev' tag,
       execute d (InsertTaggedArchivedRevision rev name) = Some d'
       ∨ execute d (DeleteTaggedArchivedRevision rev name) = Some d' →
       rev' ≠ rev →
       (rev', tag) ∈ db_tagged_archived_revision d'
       ↔ (rev', tag) ∈ db_tagged_archived_revision d)
  ∧ (∀ d e r,
       db_revision d !! rev_id e = Some r →
       ∃ d', execute d (InsertRevision e) = Some d'
             ∧ db_revision d' !! rev_id e
               = Some (set_rev_text_id (rev_text_id e) r))
  ∧ (∀ d e r,
       db_archive d !! ar_rev_id e = Some r →
       ∃ d', execute d (InsertArchive e) = Some d'
             ∧ db_archive d' !! ar_rev_id e
               = Some (set_ar_text_id (ar_text_id e) r))
  ∧ (∀ d e,
       ∃ d', execute d (InsertText e) = Some d'
             ∧ db_text d' !! old_id e
               = Some {| col_old_text := old_text e;
                         col_old_flags := old_flags e |})
  ∧ (∀ g s d d1,
       execute_all d (emitted (gen_insert g) s) = Some d1 →
       execute_all d1 (emitted (gen_insert g) s) = Some d1)
  ∧ (∀ g since s d d1,
       restores_clear d (emitted (gen_update g since) s) →
       merges_unchained d (emitted (gen_update g since) s) →
       execute_all d (emitted (gen_update g since) s) = Some d1 →
       execute_all d1 (emitted (gen_update g since) s) = Some d1)
  ∧ (∀ g since s d,
       Forall (λ o, ¬ restore_op o) (emitted (gen_update g since) s) →
       Forall (λ o, ¬ merge_op o) (emitted (gen_update g since) s) →
       restores_clear d (emitted (gen_update g since) s)
       ∧ merges_unchained d (emitted (gen_update g since) s)).
Proof.
  split; [apply execute_idempotent|].
  split; [|split; [|split; [|split; [|split; [|split]]]]].
  - intros d pid d'. unfold execute. case_bool_decide; [|done].
    intros [= <-]. by apply (moved_again_empty pid d).
  - intros d pid d'. unfold execute. case_bool_decide; [|done].
    intros [= <-]. simpl.
    assert (archived_of_page pid
              (with_tagged_revision
                 (db_tagged_revision d
                  ∪ filter (λ rt, rt.1 ∈ dom (archived_of_page pid d))
                      (db_tagged_archived_revision d))
                 (with_tagged_archived_revision
                    (db_tagged_archived_revision d
                     ∖ filter (λ rt, rt.1 ∈ dom (archived_of_page pid d))
                         (db_tagged_archived_revision d)) d))
            = archived_of_page pid d) as -> by done.
    set_solver.
  - intros d revid bitmask d' k [= <-] Hne. simpl. by apply lookup_alter_ne.
  - intros d revid bitmask d' k [= <-] Hne. simpl. by apply lookup_alter_ne.
  - intros d rev name d' rev' tag Hex Hne. simpl in Hex.
    destruct (db_tag d !! name) as [tid|]; simpl in Hex.
    + destruct Hex as [[= <-]|[= <-]]; simpl; set_solver.
    + by destruct Hex as [?|[= <-]].
  - intros d rev name d' rev' tag Hex Hne. simpl in Hex.
    destruct (db_tag d !! name) as [tid|]; simpl in Hex.
    + destruct Hex as [[= <-]|[= <-]]; simpl; set_solver.
    + by destruct Hex as [?|[= <-]].
  - split; [|split; [|split; [|split; [|split]]]].
    + intros d e r Hr. eexists. split; [done|].
      simpl. unfold insert_revision. rewrite Hr. simpl.
      by rewrite lookup_insert_eq.
    + intros d e r Hr. eexists. split; [done|].
      simpl. unfold insert_archive. rewrite Hr. simpl.
      by rewrite lookup_insert_eq.
    + intros d e. eexists. split; [done|]. simpl.
      by rewrite lookup_insert_eq.
    + intros g s d d1.
      destruct (gen_insert_no_restores_merges g s) as [Hr Hm].
      apply replay_in_phases.
      * apply gen_insert_in_phases.
      * by apply no_restores_clear.
      * by apply no_merges_unchained.
    + intros g since s d d1. apply replay_in_phases.
      apply gen_update_in_phases.
    + intros g since s d Hr Hm.
      split; [by apply no_restores_clear|by apply no_merges_unchained].
Qed.

Lemma operations_idempotent_witness :
  (∃ d', execute archived_replica (UpdateArchiveArPageId 0 ["A"] 7) = Some d'
         ∧ execute d' (UpdateArchiveArPageId 0 ["A"] 7) = Some d'
         ∧ ∃ d'', execute d' (MoveRevision 7) = Some d''
                  ∧ execute d'' (MoveRevision 7) = Some d''
                  ∧ archived_of_page 7 d'' = ∅)
  ∧ (∃ d1, execute_all tags_replica
             (emitted (gen_update all_phases_grabber 0) NotStarted) = Some d1
           ∧ execute_all d1
               (emitted (gen_update all_phases_grabber 0) NotStarted)
             = Some d1)
  ∧ (∃ d1, execute_all tag_replica
             (emitted (gen_insert tagged_feed_grabber) NotStarted) = Some d1
           ∧ execute_all d1
               (emitted (gen_insert tagged_feed_grabber) NotStarted)
             = Some d1)
  ∧ (∃ d', execute (with_revision {[ 10 := stored_revision ]} empty_db)
                   (InsertRevision proposed_revision) = Some d'
           ∧ db_revision d' !! 10
             = Some (set_rev_text_id (Some 7) stored_revision)).
Proof.
  destruct operations_idempotent
    as (Hidem & Hmoved & _ & _ & _ & _ & _ & Hrev & _ & _ & Hins & Hupd & _).
  split; [|split; [|split]].
  - set (d1 := with_archive {[ 10 := set_ar_page_id (Some 7) archived_unknown ]}
                            archived_replica).
    assert (execute archived_replica (UpdateArchiveArPageId 0 ["A"] 7)
            = Some d1) as H1 by (vm_compute; reflexivity).
    exists d1. split; [done|]. split; [by apply (Hidem archived_replica)|].
    eexists. split; [vm_compute; reflexivity|].
    split; [apply (Hidem d1)|apply (Hmoved d1 7)]; vm_compute; reflexivity.
  - eexists. split; [vm_compute; reflexivity|].
    apply (Hupd all_phases_grabber 0 NotStarted tags_replica).
    + unfold restores_clear. apply (bool_decide_unpack _). by vm_compute.
    + unfold merges_unchained. apply (bool_decide_unpack _). by vm_compute.
    + vm_compute. reflexivity.
  - eexists. split; [vm_compute; reflexivity|].
    apply (Hins tagged_feed_grabber NotStarted tag_replica).
    vm_compute. reflexivity.
  - apply (Hrev (with_revision {[ 10 := stored_revision ]} empty_db)
                proposed_revision stored_revision).
    by vm_compute.
Defined.

(** C6 as stated fails.  The operations of a whole window, executed twice
    from the empty replica, need not leave the replica as one execution
    does: the moves of a restore find nothing the first time and take the
    archived revision 4, inserted later in the list, the second time; it
    ends both live and archived.  An upsert can revert a column to an
    earlier value: the insert of a stored revision by a sync without
    content sets the stored text ID 4 back to NULL.  And from a replica
    that holds the pages of the wiki and no blob, revision, archived
    revision or tag link, the second execution of two chained merges
    carries revision 5 on to page 3; from the empty replica, where no
    merge finds its destination page, it does not.  The first window is
    not clear of its restores and the last not free of chained merges. *)
Lemma window_replay_not_idempotent :
  (∃ d1 d2,
     outcome (gen_update import_restore_grabber 0) NotStarted
       = inr (tt, NotStarted)
     ∧ execute_all empty_db
         (emitted (gen_update import_restore_grabber 0) NotStarted) = Some d1
     ∧ execute_all d1
         (emitted (gen_update import_restore_grabber 0) NotStarted) = Some d2
     ∧ db_revision d1 !! 4 = None
     ∧ is_Some (db_archive d1 !! 4)
     ∧ is_Some (db_revision d2 !! 4)
     ∧ is_Some (db_archive d2 !! 4)
     ∧ ¬ restores_clear empty_db
           (emitted (gen_update import_restore_grabber 0) NotStarted))
  ∧ (∃ d',
       execute (with_revision {[ 10 := stored_revision ]} empty_db)
               (InsertRevision metadata_revision) = Some d'
       ∧ col_rev_text_id stored_revision = Some 4
       ∧ col_rev_text_id <$> db_revision d' !! 10 = Some None)
  ∧ (∃ d1 d2,
       outcome (gen_update merge_chain_grabber 0) NotStarted
         = inr (tt, NotStarted)
       ∧ db_text pages_replica = ∅ ∧ db_revision pages_replica = ∅
       ∧ db_archive pages_replica = ∅
       ∧ db_tagged_revision pages_replica = ∅
       ∧ db_tagged_archived_revision pages_replica = ∅
       ∧ execute_all pages_replica
           (emitted (gen_update merge_chain_grabber 0) NotStarted) = Some d1
       ∧ execute_all d1
           (emitted (gen_update merge_chain_grabber 0) NotStarted) = Some d2
       ∧ col_rev_page <$> db_revision d1 !! 5 = Some (Some 2)
       ∧ col_rev_page <$> db_revision d2 !! 5 = Some (Some 3)
       ∧ ¬ merges_unchained pages_replica
             (emitted (gen_update merge_chain_grabber 0) NotStarted)).
Proof.
  split; [|split].
  - eexists _, _. split; [reflexivity|].
    split; [vm_compute; reflexivity|]. split; [vm_compute; reflexivity|].
    split; [reflexivity|].
    split; [vm_compute; eauto|]. split; [vm_compute; eauto|].
    split; [vm_compute; eauto|].
    unfold restores_clear. apply (bool_decide_unpack _). by vm_compute.
  - eexists. split; [vm_compute; reflexivity|]. split; [done|].
    vm_compute. reflexivity.
  - eexists _, _. split; [reflexivity|]. do 5 (split; [reflexivity|]).
    split; [vm_compute; reflexivity|]. split; [vm_compute; reflexivity|].
    split; [vm_compute; reflexivity|]. split; [vm_compute; reflexivity|].
    unfold merges_unchained. apply (bool_decide_unpack _). by vm_compute.
Qed.
